(** * org-mgmt: the Bitbucket reader, its refresh cycle and the REST layer

    A shallow embedding of [BBDirReader] ([bb_reader.py]): the request
    executor with its single re-authentication, the paginated REST listing,
    the file loader, the skeleton builder, [refresh] and the constructor;
    of the periodic worker of [org_mgmt.py]; of the handlers of
    [presenter.py] on the reader's cache; and of the endpoint registry and
    the dispatcher of [restobj.py].

    Python objects parsed from JSON / YAML are values of [pyval]; methods of
    the reader are computations in a state-and-exception monad over the
    reader object; the network, the OAuth server, the clock and the parsers
    are the oracles of a [world]. *)

From Stdlib Require Import ZArith List String Ascii Bool Lia DecimalString.
From Stdlib Require Import Sorted Permutation.
Import ListNotations.
Local Open Scope Z_scope.
Local Open Scope list_scope.
Set Warnings "-register-all".

(* ================================================================= *)
(** ** Python strings *)

Module PyString.

Definition cat (a b : string) : string := String.append a b.

(** [str.lower()] on the ASCII range.  Strings here are byte strings, and
    a byte outside [A-Z] is kept as it is: the cased characters that
    [str.lower()] lowers outside ASCII are outside this model, which is
    exact for ASCII names. *)
Definition lower_ascii (c : ascii) : ascii :=
  let n := nat_of_ascii c in
  if andb (Nat.leb 65 n) (Nat.leb n 90) then ascii_of_nat (n + 32) else c.

Fixpoint lower (s : string) : string :=
  match s with
  | EmptyString => EmptyString
  | String c r => String (lower_ascii c) (lower r)
  end.

(** [s.endswith(suffix)] *)
Definition endswith (s suffix : string) : bool :=
  let n := String.length s in
  let k := String.length suffix in
  andb (Nat.leb k n) (String.eqb (substring (n - k) k s) suffix).

(** [s[:-k]] for [k > 0] *)
Definition drop_last (k : nat) (s : string) : string :=
  substring 0 (String.length s - k) s.

(** the one-character strings a [for c in s] loop visits *)
Fixpoint chars (s : string) : list string :=
  match s with
  | EmptyString => []
  | String c r => String c EmptyString :: chars r
  end.

End PyString.

Infix "+s+" := PyString.cat (at level 60, right associativity).

(* ================================================================= *)
(** ** Python values, as the JSON and YAML parsers produce them *)

(** [PDict true kv] is a [defaultdict(dict)]: reading a missing key stores
    and returns an empty [dict].  [PDict false kv] is a plain [dict].
    Both keep insertion order.  Floats are left out. *)
Inductive pyval : Type :=
| PNone
| PBool (b : bool)
| PInt (z : Z)
| PStr (s : string)
| PList (xs : list pyval)
| PDict (vivify : bool) (kv : list (pyval * pyval)).

Inductive exn : Type :=
| BBFileLoadFailure
| BBRequestAuthFail
| RequestNotOK
| KeyError
| TypeError
| AttributeError
| UnboundLocalError
| ValueError
| TokenError.

Definition exn_eqb (a b : exn) : bool :=
  match a, b with
  | BBFileLoadFailure, BBFileLoadFailure
  | BBRequestAuthFail, BBRequestAuthFail
  | RequestNotOK, RequestNotOK
  | KeyError, KeyError
  | TypeError, TypeError
  | AttributeError, AttributeError
  | UnboundLocalError, UnboundLocalError
  | ValueError, ValueError
  | TokenError, TokenError => true
  | _, _ => false
  end.

Module Py.

(** Only scalars hash; [True == 1] and [False == 0] are one key. *)
Definition hashable (v : pyval) : bool :=
  match v with
  | PList _ | PDict _ _ => false
  | _ => true
  end.

Definition key_eqb (a b : pyval) : bool :=
  match a, b with
  | PNone, PNone => true
  | PStr s, PStr t => String.eqb s t
  | PInt x, PInt y => Z.eqb x y
  | PBool x, PBool y => Bool.eqb x y
  | PBool x, PInt y | PInt y, PBool x => Z.eqb (if x then 1 else 0) y
  | _, _ => false
  end.

Fixpoint find (k : pyval) (kv : list (pyval * pyval)) : option pyval :=
  match kv with
  | [] => None
  | (k', v) :: rest => if key_eqb k k' then Some v else find k rest
  end.

(** [d[k] = v]: an existing key keeps its place, a new one goes last. *)
Fixpoint set (k v : pyval) (kv : list (pyval * pyval)) : list (pyval * pyval) :=
  match kv with
  | [] => [(k, v)]
  | (k', v') :: rest =>
      if key_eqb k k' then (k', v) :: rest else (k', v') :: set k v rest
  end.

Definition truthy (v : pyval) : bool :=
  match v with
  | PNone => false
  | PBool b => b
  | PInt z => negb (Z.eqb z 0)
  | PStr s => negb (String.eqb s EmptyString)
  | PList xs => match xs with [] => false | _ => true end
  | PDict _ kv => match kv with [] => false | _ => true end
  end.

(** The elements a [for x in v] loop (or [list.extend(v)]) visits;
    [None] when [v] is not iterable ([TypeError]). *)
Definition iter (v : pyval) : option (list pyval) :=
  match v with
  | PList xs => Some xs
  | PDict _ kv => Some (map fst kv)
  | PStr s => Some (map PStr (PyString.chars s))
  | PNone | PBool _ | PInt _ => None
  end.

Definition is_dict_or_list (v : pyval) : bool :=
  match v with
  | PList _ | PDict _ _ => true
  | _ => false
  end.

Definition is_none (v : pyval) : bool :=
  match v with PNone => true | _ => false end.

End Py.

(* ================================================================= *)
(** ** The reader object and the monad of its methods *)

Definition entry : Type := list (pyval * pyval).
Definition repo_map : Type := list (string * entry).
Definition cache_t : Type := list (string * repo_map).

Inductive event : Type :=
| EvGet (url token : string)
| EvToken.

Record reader : Type := mkReader {
  _bb_rest : string;
  _bb_proj : string;
  _contexts : list string;
  _auth_token : string;
  _cache : cache_t;
  _cache_timestamp : option Z;
  trace : list event;
  ticks : nat
}.

Definition set_auth_token (t : string) (r : reader) : reader :=
  mkReader (_bb_rest r) (_bb_proj r) (_contexts r) t
           (_cache r) (_cache_timestamp r) (trace r) (ticks r).

Definition set_cache (c : cache_t) (r : reader) : reader :=
  mkReader (_bb_rest r) (_bb_proj r) (_contexts r) (_auth_token r)
           c (_cache_timestamp r) (trace r) (ticks r).

Definition set_cache_timestamp (t : option Z) (r : reader) : reader :=
  mkReader (_bb_rest r) (_bb_proj r) (_contexts r) (_auth_token r)
           (_cache r) t (trace r) (ticks r).

Definition add_event (e : event) (r : reader) : reader :=
  mkReader (_bb_rest r) (_bb_proj r) (_contexts r) (_auth_token r)
           (_cache r) (_cache_timestamp r) (trace r ++ [e]) (ticks r).

Definition tick (r : reader) : reader :=
  mkReader (_bb_rest r) (_bb_proj r) (_contexts r) (_auth_token r)
           (_cache r) (_cache_timestamp r) (trace r) (S (ticks r)).

Definition is_get (e : event) : bool :=
  match e with EvGet _ _ => true | EvToken => false end.

Definition gets (r : reader) : nat := List.length (filter is_get (trace r)).
Definition tokens (r : reader) : nat :=
  List.length (filter (fun e => negb (is_get e)) (trace r)).

Inductive result (A : Type) : Type :=
| Ok (a : A)
| Raise (e : exn)
| Diverge.
Arguments Ok {A} a.
Arguments Raise {A} e.
Arguments Diverge {A}.

Definition M (A : Type) : Type := reader -> result A * reader.

Definition ret {A} (a : A) : M A := fun s => (Ok a, s).
Definition raise {A} (e : exn) : M A := fun s => (Raise e, s).
Definition diverge {A} : M A := fun s => (Diverge, s).

Definition bind {A B} (m : M A) (k : A -> M B) : M B :=
  fun s =>
    match m s with
    | (Ok a, s') => k a s'
    | (Raise e, s') => (Raise e, s')
    | (Diverge, s') => (Diverge, s')
    end.

(** [try: m  except <those e with handles e = true>: h e] *)
Definition try_except {A} (m : M A) (handles : exn -> bool) (h : exn -> M A) : M A :=
  fun s =>
    match m s with
    | (Raise e, s') => if handles e then h e s' else (Raise e, s')
    | other => other
    end.

Definition get_self : M reader := fun s => (Ok s, s).
Definition modify (f : reader -> reader) : M unit := fun s => (Ok tt, f s).

Notation "x <- m ;; k" := (bind m (fun x => k))
  (at level 61, m at next level, right associativity).
Notation "m ;;; k" := (bind m (fun _ => k))
  (at level 61, right associativity).
Notation "' pat <- m ;; k" := (bind m (fun x => match x with pat => k end))
  (at level 61, pat pattern, m at next level, right associativity).

(** Pure steps that may raise (subscripts, attribute calls). *)
Definition lift {A} (r : result A) : M A := fun s => (r, s).

Definition rbind {A B} (r : result A) (k : A -> result B) : result B :=
  match r with
  | Ok a => k a
  | Raise e => Raise e
  | Diverge => Diverge
  end.

(* ================================================================= *)
(** ** Subscripts and attribute calls on parsed values *)

Module PyOps.

(** [obj[key]] for a string literal [key]: the value read and the object
    afterwards (a [defaultdict(dict)] stores the empty dict it hands out). *)
Definition getitem (obj : pyval) (key : string) : result (pyval * pyval) :=
  match obj with
  | PDict vivify kv =>
      match Py.find (PStr key) kv with
      | Some v => Ok (v, obj)
      | None =>
          if vivify
          then Ok (PDict false [], PDict true (Py.set (PStr key) (PDict false []) kv))
          else Raise KeyError
      end
  | _ => Raise TypeError
  end.

(** [obj[key] = v] *)
Definition setitem (obj : pyval) (key : string) (v : pyval) : result pyval :=
  match obj with
  | PDict vivify kv => Ok (PDict vivify (Py.set (PStr key) v kv))
  | _ => Raise TypeError
  end.

(** [v.lower()] *)
Definition lower (v : pyval) : result string :=
  match v with
  | PStr s => Ok (PyString.lower s)
  | _ => Raise AttributeError
  end.

(** [v.endswith(suffix)] *)
Definition endswith (v : pyval) (suffix : string) : result bool :=
  match v with
  | PStr s => Ok (PyString.endswith s suffix)
  | _ => Raise AttributeError
  end.

(** [for x in v] *)
Definition iterate (v : pyval) : result (list pyval) :=
  match Py.iter v with
  | Some xs => Ok xs
  | None => Raise TypeError
  end.

End PyOps.

(* ================================================================= *)
(** ** The cache: [CacheObject], context -> plain dict -> [defaultdict(dict)] *)

Module Cache.

Fixpoint find {V} (k : string) (m : list (string * V)) : option V :=
  match m with
  | [] => None
  | (k', v) :: rest => if String.eqb k k' then Some v else find k rest
  end.

Fixpoint set {V} (k : string) (v : V) (m : list (string * V)) : list (string * V) :=
  match m with
  | [] => [(k, v)]
  | (k', v') :: rest =>
      if String.eqb k k' then (k', v) :: rest else (k', v') :: set k v rest
  end.

Definition keys {V} (m : list (string * V)) : list string := map fst m.

(** [new_cache[context][repo]]: the context level is a plain dict, so a
    missing [repo] is a [KeyError].  (A missing [context] would be handed a
    factory-less [defaultdict] by [CacheObject], on which [[repo]] raises
    [KeyError] as well.) *)
Definition get_entry (c : cache_t) (context repo : string) : result entry :=
  match find context c with
  | None => Raise KeyError
  | Some repos =>
      match find repo repos with
      | None => Raise KeyError
      | Some e => Ok e
      end
  end.

Definition put_entry (c : cache_t) (context repo : string) (e : entry) : cache_t :=
  match find context c with
  | None => c
  | Some repos => set context (set repo e repos) c
  end.

(** [new_cache[context][repo][key] = v] *)
Definition store_field (c : cache_t) (context repo : string) (key v : pyval)
  : result cache_t :=
  rbind (get_entry c context repo) (fun e =>
  if Py.hashable key
  then Ok (put_entry c context repo (Py.set key v e))
  else Raise TypeError).

(** [e[key]] on the [defaultdict(dict)] of one org *)
Definition entry_get (e : entry) (key : pyval) : result (pyval * entry) :=
  if Py.hashable key then
    match Py.find key e with
    | Some v => Ok (v, e)
    | None => Ok (PDict false [], Py.set key (PDict false []) e)
    end
  else Raise TypeError.

(** [new_cache[context][repo][key][field] = v] *)
Definition store_subfield (c : cache_t) (context repo : string) (key : pyval)
           (field : string) (v : pyval) : result cache_t :=
  rbind (get_entry c context repo) (fun e =>
  rbind (entry_get e key) (fun '(sub, e1) =>
  rbind (PyOps.setitem sub field v) (fun sub' =>
  Ok (put_entry c context repo (Py.set key sub' e1))))).

(** [new_cache[context][repo][key][field]], with the cache afterwards *)
Definition read_subfield (c : cache_t) (context repo : string) (key : pyval)
           (field : string) : result (pyval * cache_t) :=
  rbind (get_entry c context repo) (fun e =>
  rbind (entry_get e key) (fun '(sub, e1) =>
  rbind (PyOps.getitem sub field) (fun '(v, sub') =>
  Ok (v, put_entry c context repo (Py.set key sub' e1))))).

End Cache.

(* ================================================================= *)
(** ** The outside world *)

Inductive get_outcome : Type :=
| GetSSLError                                  (* requests.exceptions.SSLError *)
| GetError                                     (* any other exception of requests.get *)
| GetResponse (status_code : Z) (text : string).

(** What the reader cannot decide itself.  [requests_get n url token] is the
    outcome of the [n]-th GET (counted from 0) of [url] under the bearer
    [token]; [fetch_token n] that of the [n]-th token exchange; [time_time n]
    the [n]-th reading of the clock. *)
Record world : Type := mkWorld {
  requests_get : nat -> string -> string -> get_outcome;
  fetch_token : nat -> option string;
  time_time : nat -> Z;
  yaml_load : string -> option pyval;
  json_loads : string -> option pyval;
  py_repr : pyval -> string
}.

(** [str(v)], as ["{}".format(v)] prints it *)
Definition py_str (w : world) (v : pyval) : string :=
  match v with
  | PNone => "None"%string
  | PBool true => "True"%string
  | PBool false => "False"%string
  | PInt z => NilZero.string_of_int (Z.to_int z)
  | PStr s => s
  | _ => py_repr w v
  end.

Definition now (w : world) : M Z :=
  fun s => (Ok (time_time w (ticks s)), tick s).

(* ================================================================= *)
(** ** TokenProvider and RequestExecutor *)

Definition _get_oauth_token (w : world) : M string :=
  fun s =>
    let s' := add_event EvToken s in
    match fetch_token w (tokens s) with
    | Some access_token => (Ok access_token, s')
    | None => (Raise TokenError, s')
    end.

Definition requests_get_call (w : world) (url : string) : M get_outcome :=
  fun s =>
    (Ok (requests_get w (gets s) url (_auth_token s)),
     add_event (EvGet url (_auth_token s)) s).

(** The [else:] clause of [_request]: the body of a 200, [RequestNotOK]
    for every other status. *)
Definition read_response (w : world) (return_json : bool) (status_code : Z)
           (text : string) : result pyval :=
  if Z.eqb status_code 200 then
    if return_json then
      match json_loads w text with
      | Some v => Ok v
      | None => Raise ValueError            (* rsp.json() *)
      end
    else Ok (PStr text)
  else Raise RequestNotOK.

(** One activation of [_request]; [self] is the method itself, for the
    call it makes with [_retry_=True]. *)
Definition _request_body (w : world) (self : string -> bool -> bool -> M pyval)
           (url : string) (return_json _retry_ : bool) : M pyval :=
  out <- requests_get_call w url ;;
  match out with
  | GetSSLError =>
      if negb _retry_ then
        tok <- _get_oauth_token w ;;
        modify (set_auth_token tok) ;;;
        self url return_json true
      else raise BBRequestAuthFail
  | GetError =>
      (* the handler reads [rsp], which [requests.get] never bound *)
      raise UnboundLocalError
  | GetResponse status_code text =>
      lift (read_response w return_json status_code text)
  end.

Fixpoint _request_depth (w : world) (depth : nat)
         (url : string) (return_json _retry_ : bool) : M pyval :=
  match depth with
  | O => diverge
  | S d => _request_body w (_request_depth w d) url return_json _retry_
  end.

(** The method calls itself at most once, so two activations are all the
    recursion there is (see [_request_depth_enough]). *)
Definition _request (w : world) : string -> bool -> bool -> M pyval :=
  _request_depth w 2.

(* ================================================================= *)
(** ** Raw files and the paginated listing *)

Definition _bb_get_file (w : world) (proj slug filename : string) : M string :=
  fun s =>
    let url := _bb_proj s +s+ "/" +s+ proj +s+ "/repos/" +s+ slug
               +s+ "/raw/" +s+ filename in
    match _request w url false false s with
    | (Ok (PStr text), s') => (Ok text, s')        (* rtn or '' *)
    | (Ok _, s') => (Ok EmptyString, s')
    | (Raise _, s') => (Ok EmptyString, s')        (* every handler only logs *)
    | (Diverge, s') => (Diverge, s')
    end.

Definition first_page : pyval :=
  PDict false [(PStr "isLastPage", PBool false); (PStr "nextPageStart", PInt 0)].

(** The [while] loop inside the [try] of [_bb_rest_get], with its two locals
    [rsp] and [rtn].  [rtn] is returned beside the outcome: the handlers and
    the final [return] see whatever the loop had put in it. *)
Fixpoint rest_loop (w : world) (fuel : nat) (base_url : string)
         (rsp : pyval) (rtn : list pyval) (s : reader)
  : result unit * list pyval * reader :=
  match fuel with
  | O => (Diverge, rtn, s)
  | S fuel' =>
      match PyOps.getitem rsp "isLastPage" with
      | Ok (last, rsp1) =>
          if Py.truthy last then (Ok tt, rtn, s)
          else
            match PyOps.getitem rsp1 "nextPageStart" with
            | Ok (start, _) =>
                let url := base_url +s+ "?start=" +s+ py_str w start in
                match _request w url true false s with
                | (Ok rsp', s') =>
                    match rbind (PyOps.getitem rsp' "values")
                                (fun '(vals, rsp'') =>
                                   rbind (PyOps.iterate vals)
                                         (fun xs => Ok (xs, rsp''))) with
                    | Ok (xs, rsp'') =>
                        rest_loop w fuel' base_url rsp'' (rtn ++ xs) s'
                    | Raise e => (Raise e, rtn, s')
                    | Diverge => (Diverge, rtn, s')
                    end
                | (Raise e, s') => (Raise e, rtn, s')
                | (Diverge, s') => (Diverge, rtn, s')
                end
            | Raise e => (Raise e, rtn, s)
            | Diverge => (Diverge, rtn, s)
            end
      | Raise e => (Raise e, rtn, s)
      | Diverge => (Diverge, rtn, s)
      end
  end.

(** [rtn or []] *)
Definition or_empty (rtn : list pyval) : list pyval :=
  match rtn with [] => [] | _ => rtn end.

Definition _bb_rest_get (w : world) (fuel : nat) (command : string)
  : M (list pyval) :=
  fun s =>
    let base_url := _bb_rest s +s+ "/" +s+ command in
    match rest_loop w fuel base_url first_page [] s with
    | (Ok _, rtn, s') => (Ok (or_empty rtn), s')
    | (Raise _, rtn, s') => (Ok (or_empty rtn), s')   (* every handler only logs *)
    | (Diverge, _, s') => (Diverge, s')
    end.

(* ================================================================= *)
(** ** SkeletonBuilder *)

Definition term : string := "-org".

(** [[v['slug'] for v in repo_vals if v['name'].endswith('-org')]] *)
Fixpoint org_slugs (repo_vals : list pyval) : result (list pyval) :=
  match repo_vals with
  | [] => Ok []
  | v :: rest =>
      rbind (PyOps.getitem v "name") (fun '(name, v1) =>
      rbind (PyOps.endswith name term) (fun keep =>
      if keep then
        rbind (PyOps.getitem v1 "slug") (fun '(slug, _) =>
        rbind (org_slugs rest) (fun slugs => Ok (slug :: slugs)))
      else org_slugs rest))
  end.

(** [','.join(repo_names)] in the debug line needs every name to be a [str]. *)
Fixpoint all_str (vs : list pyval) : result (list string) :=
  match vs with
  | [] => Ok []
  | PStr s :: rest => rbind (all_str rest) (fun ss => Ok (s :: ss))
  | _ :: _ => Raise TypeError
  end.

Definition _get_repo_names (w : world) (fuel : nat) (proj : string)
  : M (list string) :=
  repo_vals <- _bb_rest_get w fuel (proj +s+ "/repos") ;;
  repo_names <- lift (match repo_vals with
                      | [] => Ok []
                      | _ => org_slugs repo_vals
                      end) ;;
  lift (all_str repo_names).

(** [r.lower()[:-len(term)]] *)
Definition org_key (r : string) : string :=
  PyString.drop_last (String.length term) (PyString.lower r).

(** [{r.lower()[:-len(term)]: defaultdict(dict) for r in names if r.endswith(term)}] *)
Fixpoint skeleton (names : list string) (acc : repo_map) : repo_map :=
  match names with
  | [] => acc
  | r :: rest =>
      if PyString.endswith r term
      then skeleton rest (Cache.set (org_key r) [] acc)
      else skeleton rest acc
  end.

Fixpoint make_cache_loop (w : world) (fuel : nat) (contexts : list string)
         (cache_obj : cache_t) : M cache_t :=
  match contexts with
  | [] => ret cache_obj
  | ctxt :: rest =>
      names <- _get_repo_names w fuel ctxt ;;
      make_cache_loop w fuel rest (Cache.set ctxt (skeleton names []) cache_obj)
  end.

Definition _make_cache (w : world) (fuel : nat) : M cache_t :=
  self <- get_self ;;
  make_cache_loop w fuel (_contexts self) [].

(* ================================================================= *)
(** ** FileLoader *)

Definition _load_bb_file (w : world) (context slug filename : string)
           (json_content : bool) : M pyval :=
  file_content <- _bb_get_file w context slug filename ;;
  match (if json_content then json_loads w file_content
         else yaml_load w file_content) with
  | None => raise BBFileLoadFailure
  | Some content_dict =>
      if Py.is_dict_or_list content_dict then ret content_dict
      else raise BBFileLoadFailure
  end.

(* ================================================================= *)
(** ** RefreshPipeline *)

Definition is_file_load_failure (e : exn) : bool := exn_eqb e BBFileLoadFailure.

Definition file_load_failure_or_key_error (e : exn) : bool :=
  orb (exn_eqb e BBFileLoadFailure) (exn_eqb e KeyError).

(** The first [try] of the slug loop; [None] stands for [continue]. *)
Definition load_org (w : world) (context slug : string)
  : M (option (pyval * string)) :=
  try_except
    (odict <- _load_bb_file w context slug "orgConfig.yml" false ;;
     '(org, odict1) <- lift (PyOps.getitem odict "org") ;;
     repo <- lift (PyOps.lower org) ;;
     ret (Some (odict1, repo)))
    file_load_failure_or_key_error
    (fun _ => ret None).

(** The second [try]: [spaces.yml], or a fresh [defaultdict(dict)]. *)
Definition load_spaces (w : world) (context slug : string) : M pyval :=
  try_except
    (_load_bb_file w context slug "spaces.yml" false)
    is_file_load_failure
    (fun _ => ret (PDict true [])).

(** The [try] of the space loop: both files, or neither. *)
Definition load_space_pair (w : world) (context slug : string) (space : pyval)
  : M (pyval * pyval) :=
  let sec_name := py_str w space +s+ "/security-group.json" in
  let spc_name := py_str w space +s+ "/spaceConfig.yml" in
  try_except
    (sec_dict <- _load_bb_file w context slug sec_name true ;;
     spc_dict <- _load_bb_file w context slug spc_name false ;;
     ret (sec_dict, spc_dict))
    is_file_load_failure
    (fun _ => ret (PNone, PNone)).

Fixpoint refresh_spaces (w : world) (context slug repo : string)
         (spaces : list pyval) (new_cache : cache_t) : M cache_t :=
  match spaces with
  | [] => ret new_cache
  | space :: rest =>
      '(sec_dict, spc_dict) <- load_space_pair w context slug space ;;
      c1 <- lift (Cache.store_subfield new_cache context repo space
                                       "security" sec_dict) ;;
      c2 <- lift (Cache.store_subfield c1 context repo space
                                       "space_config" spc_dict) ;;
      refresh_spaces w context slug repo rest c2
  end.

(** The body of [for slug in sluglist]. *)
Definition refresh_slug (w : world) (context slug : string) (new_cache : cache_t)
  : M cache_t :=
  loaded <- load_org w context slug ;;
  match loaded with
  | None => ret new_cache
  | Some (odict, repo) =>
      sdict <- load_spaces w context slug ;;
      c1 <- lift (Cache.store_field new_cache context repo (PStr "org") odict) ;;
      c2 <- lift (Cache.store_field c1 context repo (PStr "space") sdict) ;;
      '(spaces, c3) <- lift (Cache.read_subfield c2 context repo
                                                 (PStr "space") "spaces") ;;
      spaces <- lift (PyOps.iterate spaces) ;;
      refresh_spaces w context slug repo spaces c3
  end.

Fixpoint refresh_slugs (w : world) (context : string) (sluglist : list string)
         (new_cache : cache_t) : M cache_t :=
  match sluglist with
  | [] => ret new_cache
  | slug :: rest =>
      c <- refresh_slug w context slug new_cache ;;
      refresh_slugs w context rest c
  end.

(** [["{}-org".format(r) for r in repolist]] *)
Definition sluglist_of (repolist : repo_map) : list string :=
  map (fun r => r +s+ "-org") (Cache.keys repolist).

Fixpoint refresh_contexts (w : world) (contexts : list string)
         (new_cache : cache_t) : M cache_t :=
  match contexts with
  | [] => ret new_cache
  | context :: rest =>
      match Cache.find context new_cache with
      | None => refresh_contexts w rest new_cache
      | Some repolist =>
          c <- refresh_slugs w context (sluglist_of repolist) new_cache ;;
          refresh_contexts w rest c
      end
  end.

(** Lines 300-354: everything [refresh] does to its local [new_cache]. *)
Definition build_new_cache (w : world) (fuel : nat) : M cache_t :=
  new_cache <- _make_cache w fuel ;;
  refresh_contexts w (Cache.keys new_cache) new_cache.

(** Lines 359-366: the swap and the timestamp. *)
Definition publish (w : world) (new_cache : cache_t) : M unit :=
  copy_start <- now w ;;
  modify (set_cache new_cache) ;;;
  copy_end <- now w ;;
  stamp <- now w ;;
  modify (set_cache_timestamp (Some stamp)).

Definition refresh (w : world) (fuel : nat) : M unit :=
  start_time <- now w ;;
  new_cache <- build_new_cache w fuel ;;
  publish w new_cache.

(** [BBDirReader.__init__], run on an object that already holds the
    parameters it reads, for a list of contexts. *)
Definition set_contexts (cs : list string) (r : reader) : reader :=
  mkReader (_bb_rest r) (_bb_proj r) cs (_auth_token r)
           (_cache r) (_cache_timestamp r) (trace r) (ticks r).

Definition init (w : world) (fuel : nat) (context_list : list string) : M unit :=
  tok <- _get_oauth_token w ;;
  modify (set_auth_token tok) ;;;
  modify (set_contexts context_list) ;;;
  modify (set_cache_timestamp None) ;;;
  c <- _make_cache w fuel ;;
  modify (set_cache c).

(* ================================================================= *)
(** ** [__init__] given its contexts as one string *)

(** [s.replace(old, new)] for one-character [old] and [new] *)
Fixpoint str_replace (old new : ascii) (s : string) : string :=
  match s with
  | EmptyString => EmptyString
  | String c r =>
      String (if Ascii.eqb c old then new else c) (str_replace old new r)
  end.

(** [s.split(sep)] for a one-character [sep]: the empty string splits
    into one empty piece. *)
Fixpoint str_split (sep : ascii) (s : string) : list string :=
  match s with
  | EmptyString => [EmptyString]
  | String c r =>
      if Ascii.eqb c sep then EmptyString :: str_split sep r
      else match str_split sep r with
           | piece :: pieces => String c piece :: pieces
           | [] => [String c EmptyString]
           end
  end.

(** [sep.join(parts)] *)
Fixpoint str_join (sep : string) (parts : list string) : string :=
  match parts with
  | [] => EmptyString
  | [p] => p
  | p :: rest => p +s+ sep +s+ str_join sep rest
  end.

Definition comma : ascii := Ascii.ascii_of_nat 44.
Definition colon : ascii := Ascii.ascii_of_nat 58.

(** Lines 73-77: a [str] is split at commas and colons, a list is taken
    as it is. *)
Definition contexts_of (context_list : string + list string) : list string :=
  match context_list with
  | inl text => str_split colon (str_replace comma colon text)
  | inr names => names
  end.

Definition BBDirReader_init (w : world) (fuel : nat)
           (context_list : string + list string) : M unit :=
  init w fuel (contexts_of context_list).

(* ================================================================= *)
(** ** [_file_list] *)

(** The listing of [<context>/repos/<slug>/files], handed on as it came.
    The debug line of a listing that is not empty joins the names with
    commas, which needs every one of them to be a [str]. *)
Definition _file_list (w : world) (fuel : nat) (context slug : string)
  : M (list pyval) :=
  filenames <- _bb_rest_get w fuel (context +s+ "/repos/" +s+ slug +s+ "/files") ;;
  match filenames with
  | [] => ret filenames
  | _ => lift (all_str filenames) ;;; ret filenames
  end.

(* ================================================================= *)
(** ** The periodic worker of [org_mgmt.py] *)

(** [bb_thread_worker]: [refresh_period] is what
    [int(SysParams()['REFRESH_PERIOD'])] evaluates to, before the [try];
    the result is the delay of the [Timer] the worker starts, if it starts
    one. *)
Definition bb_thread_worker (w : world) (fuel : nat) (refresh_period : result Z)
  : M (option Z) :=
  period <- lift refresh_period ;;
  try_except (refresh w fuel) (fun _ => true) (fun _ => ret tt) ;;;
  if Z.ltb 0 period then ret (Some period) else ret None.

(* ================================================================= *)
(** ** The presentation layer ([presenter.py]) on the reader's cache *)

(** What a handler can raise: the presenter's own exceptions, the
    [IndexError] of [components.pop(0)], and the builtin ones. *)
Inductive rest_exn : Type :=
| RequestError
| V1MalformedURL
| IndexError
| Builtin (e : exn).

Inductive rresult (A : Type) : Type :=
| ROk (a : A)
| RRaise (e : rest_exn).
Arguments ROk {A} a.
Arguments RRaise {A} e.

(** Handlers run on the reader they were given: they read its cache, and
    where a [defaultdict] hands out a fresh value they change it. *)
Definition H (A : Type) : Type := reader -> rresult A * reader.

Definition hret {A} (a : A) : H A := fun s => (ROk a, s).
Definition hraise {A} (e : rest_exn) : H A := fun s => (RRaise e, s).

Definition hbind {A B} (m : H A) (k : A -> H B) : H B :=
  fun s =>
    match m s with
    | (ROk a, s') => k a s'
    | (RRaise e, s') => (RRaise e, s')
    end.

Notation "x <~ m ;; k" := (hbind m (fun x => k))
  (at level 61, m at next level, right associativity).

Definition is_key_error (e : rest_exn) : bool :=
  match e with Builtin KeyError => true | _ => false end.

(** [try: m  except KeyError: h] *)
Definition except_key_error {A} (m : H A) (h : H A) : H A :=
  fun s =>
    match m s with
    | (RRaise e, s') => if is_key_error e then h s' else (RRaise e, s')
    | other => other
    end.

(** [__init__] leaves a [CacheObject] in [_cache] and no timestamp; the
    last lines of [refresh] put a plain [dict(new_cache)] there and set
    the timestamp.  So the timestamp tells which of the two [_cache] is
    (a query served between these two assignments is outside the model:
    [refresh] runs as one step here). *)
Definition cache_is_cache_object (s : reader) : bool :=
  match _cache_timestamp s with
  | None => true
  | Some _ => false
  end.

(** [self._bbreader.cache[context]]: a [CacheObject] stores and hands out
    an empty mapping for a context it does not have. *)
Definition cache_context (context : string) : H repo_map :=
  fun s =>
    match Cache.find context (_cache s) with
    | Some repos => (ROk repos, s)
    | None =>
        if cache_is_cache_object s
        then (ROk [], set_cache (Cache.set context [] (_cache s)) s)
        else (RRaise (Builtin KeyError), s)
    end.

(** [cache[context][org]] *)
Definition cache_org (context org : string) : H entry :=
  repos <~ cache_context context ;;
  match Cache.find org repos with
  | Some e => hret e
  | None => hraise (Builtin KeyError)
  end.

(** [cache[context][org][key]]: the container of an org stores and hands
    out an empty [dict] for a key it does not have. *)
Definition cache_sub (context org key : string) : H pyval :=
  e <~ cache_org context org ;;
  match Py.find (PStr key) e with
  | Some v => hret v
  | None =>
      fun s =>
        (ROk (PDict false []),
         set_cache (Cache.put_entry (_cache s) context org
                                    (Py.set (PStr key) (PDict false []) e)) s)
  end.

(** [cache[context][org][key][field]]: only a [defaultdict] under [key]
    stores and hands out an empty [dict] for a field it does not have. *)
Definition cache_field (context org key field : string) : H pyval :=
  sub <~ cache_sub context org key ;;
  match sub with
  | PDict vivify kv =>
      match Py.find (PStr field) kv with
      | Some v => hret v
      | None =>
          if vivify then
            fun s =>
              (ROk (PDict false []),
               match Cache.get_entry (_cache s) context org with
               | Ok e =>
                   set_cache
                     (Cache.put_entry (_cache s) context org
                        (Py.set (PStr key)
                                (PDict true (Py.set (PStr field) (PDict false []) kv))
                                e)) s
               | _ => s
               end)
          else hraise (Builtin KeyError)
      end
  | _ => hraise (Builtin TypeError)
  end.

(** [v.get(key, default)] *)
Definition py_get (v : pyval) (key : string) (default : pyval) : H pyval :=
  match v with
  | PDict _ kv =>
      hret (match Py.find (PStr key) kv with Some x => x | None => default end)
  | _ => hraise (Builtin AttributeError)
  end.

(** [sorted(names)] for strings *)
Fixpoint insert_sorted (x : string) (l : list string) : list string :=
  match l with
  | [] => [x]
  | y :: rest => if String.leb x y then x :: l else y :: insert_sorted x rest
  end.

Fixpoint sort_strings (l : list string) : list string :=
  match l with
  | [] => []
  | x :: rest => insert_sorted x (sort_strings rest)
  end.

Definition str_list (names : list string) : pyval := PList (map PStr names).

(** A [dict] display with string keys. *)
Definition dict_of (kv : list (string * pyval)) : pyval :=
  PDict false (map (fun kv => (PStr (fst kv), snd kv)) kv).

Definition _list_contexts : H pyval :=
  fun s => (ROk (str_list (sort_strings (Cache.keys (_cache s)))), s).

Definition _list_orgs (context : string) : H pyval :=
  except_key_error
    (repos <~ cache_context context ;;
     hret (dict_of [("context", PStr context);
                    ("orgs", str_list (sort_strings (Cache.keys repos)))]%string))
    (hraise RequestError).

(** The dict comprehension of [_org_metadata]. *)
Fixpoint metadata_of (context : string) (orgs : list string)
         (rtn : list (pyval * pyval)) : H pyval :=
  match orgs with
  | [] => hret (PDict false rtn)
  | org :: rest =>
      org_config <~ cache_sub context org "org" ;;
      metadata <~ py_get org_config "metadata" PNone ;;
      metadata_of context rest (Py.set (PStr org) metadata rtn)
  end.

(** [_org_metadata]: when the [KeyError] comes from the first statement,
    [orgs] is not bound yet, and the handler that formats it raises
    [UnboundLocalError] instead of [RequestError]. *)
Definition _org_metadata (context : string) (org_name : option string) : H pyval :=
  fun s =>
    let named := match org_name with
                 | Some name => negb (String.eqb name EmptyString)
                 | None => false
                 end in
    match (if named
           then hret (match org_name with Some name => [name] | None => [] end)
           else (repos <~ cache_context context ;; hret (Cache.keys repos))) s with
    | (ROk orgs, s1) =>
        except_key_error (metadata_of context orgs []) (hraise RequestError) s1
    | (RRaise e, s1) =>
        if is_key_error e then (RRaise (Builtin UnboundLocalError), s1)
        else (RRaise e, s1)
    end.

(** [_list_spaces]: the handler builds a [RequestError] and does not raise
    it, so after a [KeyError] the [return rtn] finds [rtn] unbound.
    [py_sorted] is [sorted] on a list of arbitrary values: [None] when two
    of them do not compare ([TypeError]). *)
Definition _list_spaces (py_sorted : list pyval -> option (list pyval))
           (context org : string) : H pyval :=
  except_key_error
    (space <~ cache_sub context org "space" ;;
     listed <~ py_get space "spaces" (PList []) ;;
     match Py.iter listed with
     | None => hraise (Builtin TypeError)
     | Some spaces =>
         match py_sorted spaces with
         | None => hraise (Builtin TypeError)
         | Some sorted_spaces =>
             hret (dict_of [("context", PStr context); ("org", PStr org);
                            ("spaces", PList sorted_spaces)]%string)
         end
     end)
    (hraise (Builtin UnboundLocalError)).

Definition _get_director (context org : string) : H pyval :=
  except_key_error
    (org_config <~ cache_sub context org "org" ;;
     metadata <~ py_get org_config "metadata" (PDict false []) ;;
     dirnm <~ py_get metadata "director" (PStr "Unknown") ;;
     hret (dict_of [("org", PStr org); ("director", dirnm)]%string))
    (hraise RequestError).

Definition _get_org (context org : string) : H pyval :=
  except_key_error
    (space <~ cache_sub context org "space" ;;
     org_config <~ cache_sub context org "org" ;;
     hret (dict_of [("context", PStr context); ("org", PStr org);
                    ("space", space); ("org_config", org_config)]%string))
    (hraise RequestError).

Definition _get_space (context org space : string) : H pyval :=
  except_key_error
    (space_config <~ cache_field context org space "space_config" ;;
     security <~ cache_field context org space "security" ;;
     hret (dict_of [("context", PStr context); ("org", PStr org);
                    ("space", PStr space); ("space_config", space_config);
                    ("security_group", security)]%string))
    (hraise RequestError).

(** [BBDirReader.status] *)
Definition status (s : reader) : pyval :=
  dict_of [("cache_timestamp"%string,
            match _cache_timestamp s with Some t => PInt t | None => PNone end)].

(** What [_version_1] ends in: [flask.jsonify] of a value ([JsonSpawned]
    when a thread running the refresh was started first), [flask.abort(400)]
    for the exception caught, or an exception that no handler catches.
    The text of the 400 message is left out. *)
Inductive http : Type :=
| Json (v : pyval)
| JsonSpawned (v : pyval)
| Abort400 (caught : rest_exn)
| Uncaught (e : rest_exn).

Definition is_str (v : pyval) : bool :=
  match v with PStr _ => true | _ => false end.

Definition is_number (v : pyval) : bool :=
  match v with PInt _ | PBool _ => true | _ => false end.

(** [flask.jsonify] dumps with [sort_keys]: the items of every mapping are
    sorted, which compares its keys.  Strings compare with strings and
    numbers with numbers; any other two keys raise [TypeError].  One key
    alone is compared with nothing. *)
Definition keys_sortable (keys : list pyval) : bool :=
  match keys with
  | [] => true
  | [k] => Py.hashable k
  | _ => orb (forallb is_str keys) (forallb is_number keys)
  end.

Fixpoint jsonifiable (v : pyval) : bool :=
  match v with
  | PList xs => forallb jsonifiable xs
  | PDict _ kv =>
      andb (keys_sortable (map fst kv))
           (forallb (fun item => jsonifiable (snd item)) kv)
  | _ => true
  end.

(** [flask.jsonify(v)], called inside the [try] of [_version_1], none of
    whose handlers catches the [TypeError]. *)
Definition jsonify (v : pyval) : http :=
  if jsonifiable v then Json v else Uncaught (Builtin TypeError).

Definition respond (m : H pyval) : reader -> http * reader :=
  fun s =>
    match m s with
    | (ROk v, s') => (jsonify v, s')
    | (RRaise (Builtin e), s') => (Uncaught (Builtin e), s')
    | (RRaise e, s') => (Abort400 e, s')
    end.

(** [_refresh_cache] and the [jsonify] around it. *)
Definition _refresh_cache (cache_refresh : bool) : http :=
  if cache_refresh then JsonSpawned (PStr "Cache refresh in progress")
  else Json PNone.

Definition is_empty {A} (l : list A) : bool :=
  match l with [] => true | _ => false end.

(** [_version_1], one [components.pop(0)] after the other. *)
Definition _version_1 (py_sorted : list pyval -> option (list pyval))
           (cache_refresh : bool) (components : list string)
  : reader -> http * reader :=
  match components with
  | [] => respond (hraise IndexError)
  | component :: components =>
      if andb (String.eqb component "refresh") (is_empty components)
      then fun s => (_refresh_cache cache_refresh, s)
      else if andb (String.eqb component "reader_status") (is_empty components)
      then fun s => (jsonify (status s), s)
      else if negb (String.eqb component "contexts")
      then respond (hraise V1MalformedURL)
      else
        match components with
        | [] => respond _list_contexts
        | context_name :: components =>
            match components with
            | [] => respond (_list_orgs context_name)
            | component :: components =>
                if String.eqb component "orgs_metadata"
                then respond
                       (_org_metadata context_name
                          (match components with
                           | org_name :: _ => Some (PyString.lower org_name)
                           | [] => None
                           end))
                else if negb (String.eqb component "orgs")
                then respond (hraise V1MalformedURL)
                else
                  match components with
                  | [] => respond (_list_orgs context_name)
                  | org_name :: components =>
                      let org_name := PyString.lower org_name in
                      match components with
                      | [] => respond (_get_org context_name org_name)
                      | component :: components =>
                          if String.eqb component "director"
                          then respond (_get_director context_name org_name)
                          else if negb (String.eqb component "spaces")
                          then respond (hraise V1MalformedURL)
                          else
                            match components with
                            | [] => respond (_list_spaces py_sorted
                                                          context_name org_name)
                            | space_name :: _ =>
                                respond (_get_space context_name org_name
                                                    space_name)
                            end
                      end
                  end
            end
        end
  end.

(* ================================================================= *)
(** ** The endpoint registry and the dispatcher of [restobj.py] *)

(** What a handler is called with - [rest_req] and [components]; the
    [query] is handed on too, and read by none of the handlers here - and
    what it gives back. *)
Definition handler : Type := string -> list string -> reader -> http * reader.

(** An [Endpoint]: its name and its handler (the description and the help
    of an endpoint are read by [_cmd_show_all] only). *)
Record Endpoint : Type := mkEndpoint {
  _name : string;
  _handler : handler
}.

(** The exceptions of [excepts.py] that the registry raises. *)
Inductive registry_exn : Type :=
| AlreadyRegistered (name : string)
| NoSuchEndpoint (name : string)
| CannotUnregister (name : string).

(** [RESTObject._commands]: a [dict] of the class, so one registry for
    every REST object of the process. *)
Definition commands_t : Type := list (string * Endpoint).

(** A method of the registry: the exception it raises or nothing, and the
    registry afterwards. *)
Definition registry_op : Type := commands_t -> (registry_exn + unit) * commands_t.

(** The names of [_default_endpoints]. *)
Definition default_endpoint_names : list string :=
  ["/"; "status"; "__empty"; "showall"; "help"]%string.

(** [name in commands] *)
Definition registered (name : string) (commands : commands_t) : bool :=
  match Cache.find name commands with
  | Some _ => true
  | None => false
  end.

Definition register_endpoint (endpoint : Endpoint) : registry_op :=
  fun commands =>
    if registered (_name endpoint) commands
    then (inl (AlreadyRegistered (_name endpoint)), commands)
    else (inr tt, Cache.set (_name endpoint) endpoint commands).

Fixpoint register_multiple_endpoints (endpoints : list Endpoint) : registry_op :=
  fun commands =>
    match endpoints with
    | [] => (inr tt, commands)
    | epoint :: rest =>
        match register_endpoint epoint commands with
        | (inr _, commands') => register_multiple_endpoints rest commands'
        | (inl e, commands') => (inl e, commands')
        end
    end.

(** [commands.pop(name)] for a name that is there. *)
Fixpoint dict_pop {V} (k : string) (m : list (string * V)) : list (string * V) :=
  match m with
  | [] => []
  | (k', v) :: rest =>
      if String.eqb k k' then rest else (k', v) :: dict_pop k rest
  end.

Definition unregister_endpoint_by_name (endpoint_name : string) : registry_op :=
  fun commands =>
    if existsb (String.eqb endpoint_name) default_endpoint_names
    then (inl (CannotUnregister endpoint_name), commands)
    else if negb (registered endpoint_name commands)
    then (inl (NoSuchEndpoint endpoint_name), commands)
    else (inr tt, dict_pop endpoint_name commands).

(** [s.rstrip(c)] for one character [c] *)
Fixpoint str_rstrip (c : ascii) (s : string) : string :=
  match s with
  | EmptyString => EmptyString
  | String a r =>
      match str_rstrip c r with
      | EmptyString => if Ascii.eqb a c then EmptyString else String a EmptyString
      | kept => String a kept
      end
  end.

Definition slash : ascii := Ascii.ascii_of_nat 47.

(** [c * n] *)
Fixpoint str_repeat (c : ascii) (n : nat) : string :=
  match n with
  | O => EmptyString
  | S n' => String c (str_repeat c n')
  end.

Definition _unknown_request : handler :=
  fun rest_req _ s =>
    (jsonify (PStr ("No such endpoint: <" +s+ rest_req +s+ ">")), s).

(** [_service_request]: the [KeyError] of an unregistered first component
    is the only exception the [try] catches; the handler runs outside
    it. *)
Definition _service_request (commands : commands_t) (rest_request : string)
  : reader -> http * reader :=
  match str_split slash (str_rstrip slash rest_request) with
  | [] => fun s => (Uncaught IndexError, s)
  | cmd :: components =>
      match Cache.find cmd commands with
      | Some endpoint => _handler endpoint rest_request components
      | None => _unknown_request rest_request components
      end
  end.

(** The one endpoint of [OrgMgmtREST], and what its [__init__] does to the
    registry. *)
Definition v1_endpoint (py_sorted : list pyval -> option (list pyval))
           (cache_refresh : bool) : Endpoint :=
  mkEndpoint "v1" (fun _ components => _version_1 py_sorted cache_refresh components).

Definition OrgMgmtREST_init (py_sorted : list pyval -> option (list pyval))
           (cache_refresh : bool) : registry_op :=
  register_multiple_endpoints [v1_endpoint py_sorted cache_refresh].

(* ================================================================= *)
(** ** Concrete worlds, used by the examples further down *)

Module Examples.

Local Open Scope string_scope.

(** A [dict] literal with string keys. *)
Definition sd (kv : list (string * pyval)) : pyval :=
  PDict false (map (fun '(k, v) => (PStr k, v)) kv).

Definition repo_val (name slug : string) : pyval :=
  sd [("slug", PStr slug); ("name", PStr name)].

Definition page_val (last : bool) (next : Z) (values : list pyval) : pyval :=
  sd [("isLastPage", PBool last); ("nextPageStart", PInt next);
      ("values", PList values)].

(** A server that answers by URL alone, with 404 for what it does not
    have, and parsers given by tables from file text to value. *)
Definition table_world (served : list (string * get_outcome))
           (yaml json : list (string * pyval)) : world :=
  mkWorld (fun _ url _ => match Cache.find url served with
                          | Some o => o
                          | None => GetResponse 404 "Not Found"
                          end)
          (fun _ => Some "token-2")
          (fun n => 1000 + Z.of_nat n)
          (fun text => Cache.find text yaml)
          (fun text => Cache.find text json)
          (fun _ => "<object>").

Definition reader0 (contexts : list string) : reader :=
  mkReader "rest" "proj" contexts "token-1" [] None [] O.

(** Every GET hits the SSL error. *)
Definition w_ssl : world :=
  mkWorld (fun _ _ _ => GetSSLError) (fun _ => Some "token-2")
          (fun n => Z.of_nat n) (fun _ => None) (fun _ => None)
          (fun _ => "<object>").

(** Two pages, as in [testRestGetTwoPages]. *)
Definition two_pages : list (Z * list pyval) :=
  [(10, [PInt 1; PInt 2; PInt 3]); (0, [PInt 4; PInt 5; PInt 6])].

Definition w_two_pages : world :=
  table_world
    [("rest/cmd?start=0", GetResponse 200 "page-0");
     ("rest/cmd?start=10", GetResponse 200 "page-1")]
    []
    [("page-0", page_val false 10 [PInt 1; PInt 2; PInt 3]);
     ("page-1", page_val true 0 [PInt 4; PInt 5; PInt 6])].

(** The first page arrives, the second request is answered 500. *)
Definition w_second_page_fails : world :=
  table_world
    [("rest/cmd?start=0", GetResponse 200 "page-0");
     ("rest/cmd?start=10", GetResponse 500 "Internal Server Error")]
    []
    [("page-0", page_val false 10 [PInt 1; PInt 2; PInt 3])].

(** One context whose listing is [listing]; raw files by path below
    [proj/ctx/repos/]. *)
Definition org_world (listing : list pyval) (files : list (string * string))
           (yaml json : list (string * pyval)) : world :=
  table_world
    (("rest/ctx/repos?start=0", GetResponse 200 "listing")
       :: map (fun '(path, text) =>
                 ("proj/ctx/repos/" +s+ path, GetResponse 200 text)) files)
    (("", PNone) :: yaml)
    (("listing", page_val true 0 listing) :: json).

(** A repository named [a-org] whose slug is [a]. *)
Definition w_unmarked_slug : world :=
  org_world [repo_val "a-org" "a"] [] [] [].

(** [a-org] declares [org: b] in its [orgConfig.yml]. *)
Definition w_declares_other : world :=
  org_world [repo_val "a-org" "a-org"]
            [("a-org/raw/orgConfig.yml", "org: b")]
            [("org: b", sd [("org", PStr "b")])] [].

(** The [spaces.yml] of [repo1-org] is a mapping without [spaces]. *)
Definition w_no_spaces_field : world :=
  org_world [repo_val "repo1-org" "repo1-org"]
            [("repo1-org/raw/orgConfig.yml", "org: repo1");
             ("repo1-org/raw/spaces.yml", "owner: team")]
            [("org: repo1", sd [("org", PStr "repo1")]);
             ("owner: team", sd [("owner", PStr "team")])] [].

(** Three repositories: [x-org] has no [orgConfig.yml]; the one of [z-org]
    has no [org] key; [y-org] is complete but for [s2/spaceConfig.yml]. *)
Definition w_orgs : world :=
  org_world [repo_val "x-org" "x-org"; repo_val "z-org" "z-org";
             repo_val "y-org" "y-org"]
            [("z-org/raw/orgConfig.yml", "name: z");
             ("y-org/raw/orgConfig.yml", "org: Y");
             ("y-org/raw/spaces.yml", "spaces: [s1, s2]");
             ("y-org/raw/s1/security-group.json", "[1]");
             ("y-org/raw/s1/spaceConfig.yml", "quota: 1");
             ("y-org/raw/s2/security-group.json", "[2]")]
            [("name: z", sd [("name", PStr "z")]);
             ("org: Y", sd [("org", PStr "Y")]);
             ("spaces: [s1, s2]", sd [("spaces", PList [PStr "s1"; PStr "s2"])]);
             ("quota: 1", sd [("quota", PInt 1)])]
            [("[1]", PList [PInt 1]); ("[2]", PList [PInt 2])].

(** Every GET hits the SSL error and the OAuth server gives no token. *)
Definition w_ssl_no_token : world :=
  mkWorld (fun _ _ _ => GetSSLError) (fun _ => None)
          (fun n => Z.of_nat n) (fun _ => None) (fun _ => None)
          (fun _ => "<object>").

(** Whatever is asked, the answer is a page that is not the last. *)
Definition w_endless : world :=
  mkWorld (fun _ _ _ => GetResponse 200 "page")
          (fun _ => Some "token-2") (fun n => Z.of_nat n)
          (fun _ => None)
          (fun _ => Some (page_val false 25 [PStr "item"]))
          (fun _ => "<object>").

(** Every GET is answered 503. *)
Definition w_down : world :=
  mkWorld (fun _ _ _ => GetResponse 503 "Service Unavailable")
          (fun _ => Some "token-2") (fun n => Z.of_nat n)
          (fun _ => None) (fun _ => None) (fun _ => "<object>").

(** The second item of the listing has no [name]. *)
Definition w_nameless_repo : world :=
  org_world [repo_val "a-org" "a-org"; sd [("slug", PStr "b-org")]] [] [] [].

(** The file listing of [a-org] has a name that is not a string. *)
Definition w_files : world :=
  table_world
    [("rest/ctx/repos/a-org/files?start=0", GetResponse 200 "files")]
    []
    [("files", page_val true 0 [PStr "orgConfig.yml"; PInt 7])].

(** The [spaceConfig.yml] of space [s1] of [y-org] is a mapping with a
    number and a string among its keys. *)
Definition w_mixed_keys : world :=
  org_world [repo_val "y-org" "y-org"]
            [("y-org/raw/orgConfig.yml", "org: y");
             ("y-org/raw/spaces.yml", "spaces: [s1]");
             ("y-org/raw/s1/security-group.json", "[1]");
             ("y-org/raw/s1/spaceConfig.yml", "{1: a, b: c}")]
            [("org: y", sd [("org", PStr "y")]);
             ("spaces: [s1]", sd [("spaces", PList [PStr "s1"])]);
             ("{1: a, b: c}", PDict false [(PInt 1, PStr "a"); (PStr "b", PStr "c")])]
            [("[1]", PList [PInt 1])].

(** The reader after a cycle against [w_orgs] and one against
    [w_mixed_keys]. *)
Definition after_w_orgs : reader := snd (refresh w_orgs 5 (reader0 ["ctx"])).
Definition after_w_mixed_keys : reader :=
  snd (refresh w_mixed_keys 5 (reader0 ["ctx"])).

(** [x-org] has no [orgConfig.yml]; the [spaces.yml] of [z-org] is a
    mapping without [spaces]; every file of [y-org], listed last, loads. *)
Definition w_failure_then_abort : world :=
  org_world [repo_val "x-org" "x-org"; repo_val "z-org" "z-org";
             repo_val "y-org" "y-org"]
            [("z-org/raw/orgConfig.yml", "org: z");
             ("z-org/raw/spaces.yml", "owner: team");
             ("y-org/raw/orgConfig.yml", "org: y");
             ("y-org/raw/spaces.yml", "spaces: [s1]");
             ("y-org/raw/s1/security-group.json", "[1]");
             ("y-org/raw/s1/spaceConfig.yml", "quota: 1")]
            [("org: z", sd [("org", PStr "z")]);
             ("owner: team", sd [("owner", PStr "team")]);
             ("org: y", sd [("org", PStr "y")]);
             ("spaces: [s1]", sd [("spaces", PList [PStr "s1"])]);
             ("quota: 1", sd [("quota", PInt 1)])]
            [("[1]", PList [PInt 1])].

(** The same without [z-org]. *)
Definition w_failure_only : world :=
  org_world [repo_val "x-org" "x-org"; repo_val "y-org" "y-org"]
            [("y-org/raw/orgConfig.yml", "org: y");
             ("y-org/raw/spaces.yml", "spaces: [s1]");
             ("y-org/raw/s1/security-group.json", "[1]");
             ("y-org/raw/s1/spaceConfig.yml", "quota: 1")]
            [("org: y", sd [("org", PStr "y")]);
             ("spaces: [s1]", sd [("spaces", PList [PStr "s1"])]);
             ("quota: 1", sd [("quota", PInt 1)])]
            [("[1]", PList [PInt 1])].

(** The skeleton [_make_cache] builds for [w_orgs]. *)
Definition skeleton_xzy : cache_t :=
  [("ctx", [("x", []); ("z", []); ("y", [])])].

End Examples.

(* ================================================================= *)
(** ** Vocabulary of the statements *)

(** What only [__init__] and the last lines of [refresh] assign. *)
Definition untouched (s s' : reader) : Prop :=
  _bb_rest s' = _bb_rest s
  /\ _bb_proj s' = _bb_proj s
  /\ _contexts s' = _contexts s
  /\ _cache s' = _cache s
  /\ _cache_timestamp s' = _cache_timestamp s.

Definition keeps {A} (m : M A) : Prop := forall s, untouched s (snd (m s)).

(** [rsp] is a page of the listing protocol: a [dict] with [isLastPage],
    [nextPageStart] and [values] (and whatever else the server adds). *)
Definition is_page (rsp : pyval) (last : bool) (next : Z) (values : list pyval)
  : Prop :=
  exists kv,
    rsp = PDict false kv
    /\ Py.find (PStr "isLastPage") kv = Some (PBool last)
    /\ Py.find (PStr "nextPageStart") kv = Some (PInt next)
    /\ Py.find (PStr "values") kv = Some (PList values).

(** [rsp] sends the loop on, to offset [start]. *)
Definition continues (rsp : pyval) (start : Z) : Prop :=
  exists kv,
    rsp = PDict false kv
    /\ Py.find (PStr "isLastPage") kv = Some (PBool false)
    /\ Py.find (PStr "nextPageStart") kv = Some (PInt start).

Definition page_url (w : world) (base_url : string) (start : Z) : string :=
  base_url +s+ "?start=" +s+ py_str w (PInt start).

Definition is_last {A} (rest : list A) : bool :=
  match rest with [] => true | _ => false end.

(** The [n]-th, [n+1]-th ... GETs are answered 200 with [pages], one
    [(nextPageStart, values)] each, when each is asked for at the offset
    the page before it named; only the last page says [isLastPage]. *)
Fixpoint serves (w : world) (base_url tok : string) (n : nat) (start : Z)
         (pages : list (Z * list pyval)) : Prop :=
  match pages with
  | [] => True
  | (next, values) :: rest =>
      exists body rsp,
        requests_get w n (page_url w base_url start) tok = GetResponse 200 body
        /\ json_loads w body = Some rsp
        /\ is_page rsp (is_last rest) next values
        /\ serves w base_url tok (S n) next rest
  end.

(** The offsets a walk through [pages] asks for, from [start] on. *)
Fixpoint page_starts (start : Z) (pages : list (Z * list pyval)) : list Z :=
  match pages with
  | [] => []
  | (next, _) :: rest => start :: page_starts next rest
  end.

(** The value a [dict] holds under a string key, if any. *)
Definition field (v : pyval) (key : string) : option pyval :=
  match v with
  | PDict _ kv => Py.find (PStr key) kv
  | _ => None
  end.

(** A per-space value with both of its fields, both [None] or both loaded. *)
Definition paired (v : pyval) : Prop :=
  exists sec spc,
    field v "security" = Some sec
    /\ field v "space_config" = Some spc
    /\ Py.is_none sec = Py.is_none spc.

(** The two keys of an org's container that are not spaces. *)
Definition reserved (k : pyval) : bool :=
  orb (Py.key_eqb (PStr "org") k) (Py.key_eqb (PStr "space") k).

(** The space names an org's container lists, under [space] then [spaces]. *)
Definition org_spaces (e : entry) : list pyval :=
  match Py.find (PStr "space") e with
  | Some sd =>
      match field sd "spaces" with
      | Some spaces =>
          match Py.iter spaces with
          | Some xs => xs
          | None => []
          end
      | None => []
      end
  | None => []
  end.

(** Every sub-entry of the org other than [org] and [space] is paired, and
    so is the sub-entry of every space the org lists, whatever its name. *)
Definition entry_paired (e : entry) : Prop :=
  (forall k v, In (k, v) e -> reserved k = false -> paired v)
  /\ (forall x, In x (org_spaces e) ->
                exists v, Py.find x e = Some v /\ paired v).

Definition cache_all (P : entry -> Prop) (c : cache_t) : Prop :=
  Forall (fun cr => Forall (fun re => P (snd re)) (snd cr)) c.

(** Lines 353-354 as one update of the org's container: the sub-entry of
    [space] (a fresh [dict] if there was none) gets the two fields. *)
Definition old_or_empty (e : entry) (space : pyval) : pyval :=
  match Py.find space e with
  | Some v => v
  | None => PDict false []
  end.

Definition with_pair (sub sec_dict spc_dict : pyval) : pyval :=
  match sub with
  | PDict vivify kv =>
      PDict vivify (Py.set (PStr "space_config") spc_dict
                           (Py.set (PStr "security") sec_dict kv))
  | _ => sub
  end.

Definition store_pair (e : entry) (space sec_dict spc_dict : pyval) : entry :=
  Py.set space (with_pair (old_or_empty e space) sec_dict spc_dict) e.

Definition is_dict (v : pyval) : bool :=
  match v with PDict _ _ => true | _ => false end.

(** A property of an org's container that no store of a pair breaks. *)
Definition step_closed (Inv : entry -> Prop) : Prop :=
  forall e space sec_dict spc_dict,
    Inv e ->
    Py.hashable space = true ->
    is_dict (old_or_empty e space) = true ->
    Py.is_none sec_dict = Py.is_none spc_dict ->
    Inv (store_pair e space sec_dict spc_dict).

(** The [n]-th, [n+1]-th ... GETs are answered 200 with [pages], asked
    for offset after offset, and none of them says [isLastPage]. *)
Fixpoint serves_open (w : world) (base_url tok : string) (n : nat) (start : Z)
         (pages : list (Z * list pyval)) : Prop :=
  match pages with
  | [] => True
  | (next, values) :: rest =>
      exists body rsp,
        requests_get w n (page_url w base_url start) tok = GetResponse 200 body
        /\ json_loads w body = Some rsp
        /\ is_page rsp false next values
        /\ serves_open w base_url tok (S n) next rest
  end.

(** The offset the loop asks for once it has walked through [pages]. *)
Fixpoint offset_after (start : Z) (pages : list (Z * list pyval)) : Z :=
  match pages with
  | [] => start
  | (next, _) :: rest => offset_after next rest
  end.

(** An outcome of [requests.get] that makes [_request] raise without a
    retry: an exception other than the SSL error, or a status other than
    200. *)
Definition plain_failure (o : get_outcome) : Prop :=
  match o with
  | GetSSLError => False
  | GetError => True
  | GetResponse status_code _ => status_code <> 200
  end.

(** A listing item with a display name and a slug, both strings. *)
Definition repo_fields (v : pyval) (name_slug : string * string) : Prop :=
  field v "name" = Some (PStr (fst name_slug))
  /\ field v "slug" = Some (PStr (snd name_slug)).

(** The keys of a cache, level by level: contexts and their org keys. *)
Definition shape (c : cache_t) : list (string * list string) :=
  map (fun cr => (fst cr, Cache.keys (snd cr))) c.

(** A method whose outcome does not depend on the published cache and
    its timestamp, and which leaves them as they are. *)
Definition ignores_published {A} (m : M A) : Prop :=
  forall c t s,
    m (set_cache c (set_cache_timestamp t s))
    = (fst (m s), set_cache c (set_cache_timestamp t (snd (m s)))).

(** The character [c] occurs in [s]. *)
Fixpoint occurs (c : ascii) (s : string) : bool :=
  match s with
  | EmptyString => false
  | String c' r => orb (Ascii.eqb c' c) (occurs c r)
  end.

(** What serving a query may do to the reader: nothing but hand-outs of
    empty values inside the cache.  No request, no token, no clock
    reading, the same timestamp and configuration - and, once a refresh
    has completed, the same contexts and org keys. *)
Definition quiet (s s' : reader) : Prop :=
  trace s' = trace s
  /\ _auth_token s' = _auth_token s
  /\ ticks s' = ticks s
  /\ _cache_timestamp s' = _cache_timestamp s
  /\ _contexts s' = _contexts s
  /\ _bb_rest s' = _bb_rest s
  /\ _bb_proj s' = _bb_proj s
  /\ (_cache_timestamp s <> None -> shape (_cache s') = shape (_cache s)).

Definition hquiet {A} (m : H A) : Prop := forall s, quiet s (snd (m s)).

(** An org's container once [[key]] has been read from it: a key that was
    missing is there, with an empty [dict]. *)
Definition handed_out (e : entry) (key : string) : entry :=
  match Py.find (PStr key) e with
  | Some _ => e
  | None => Py.set (PStr key) (PDict false []) e
  end.

(** What reading through [defaultdict]s may do to the cache.  A mapping
    grows when it keeps every binding and every new binding is an empty
    [dict]; a value grows when it stays what it is, or is a
    [defaultdict(dict)] whose mapping grows. *)
Definition dict_grows (kv kv' : list (pyval * pyval)) : Prop :=
  (forall k x, Py.find k kv = Some x -> Py.find k kv' = Some x)
  /\ (forall k x, Py.find k kv' = Some x ->
                  Py.find k kv = Some x \/ x = PDict false []).

Definition value_grows (v v' : pyval) : Prop :=
  v' = v
  \/ exists kv kv', v = PDict true kv /\ v' = PDict true kv' /\ dict_grows kv kv'.

(** The container of an org grows when every key keeps its value, grown
    at most, and every new key holds an empty [dict]. *)
Definition entry_grows (e e' : entry) : Prop :=
  (forall k v, Py.find k e = Some v ->
               exists v', Py.find k e' = Some v' /\ value_grows v v')
  /\ (forall k v', Py.find k e' = Some v' ->
                   (exists v, Py.find k e = Some v) \/ v' = PDict false []).

(** The cache grows when every context keeps its org keys, every new
    context has no org, and the container of every org grows. *)
Definition cache_grows (c c' : cache_t) : Prop :=
  (forall context repos,
      Cache.find context c = Some repos ->
      exists repos', Cache.find context c' = Some repos'
                     /\ Cache.keys repos' = Cache.keys repos)
  /\ (forall context repos',
         Cache.find context c' = Some repos' ->
         Cache.find context c = None -> repos' = [])
  /\ (forall context org e,
         Cache.get_entry c context org = Ok e ->
         exists e', Cache.get_entry c' context org = Ok e' /\ entry_grows e e').

Definition hgrows {A} (m : H A) : Prop :=
  forall s, cache_grows (_cache s) (_cache (snd (m s))).

(** The listings one run of [_make_cache] gets: one for each configured
    context, in order, each asked for in the state the one before left. *)
Fixpoint listings (w : world) (fuel : nat) (contexts : list string) (s : reader)
         (answers : list (list pyval)) (s' : reader) : Prop :=
  match contexts, answers with
  | [], [] => s' = s
  | ctxt :: rest, repo_vals :: more =>
      exists s1,
        _bb_rest_get w fuel (ctxt +s+ "/repos") s = (Ok repo_vals, s1)
        /\ listings w fuel rest s1 more s'
  | _, _ => False
  end.

(** [v] holds what the [try] of the space loop yielded on some slug of
    [context], for a space that is the key [x] ([x] itself when [x] is a
    string). *)
Definition yielded (w : world) (context : string) (x v : pyval) : Prop :=
  exists slug space s sec_dict spc_dict s',
    Py.key_eqb x space = true
    /\ load_space_pair w context slug space s = (Ok (sec_dict, spc_dict), s')
    /\ field v "security" = Some sec_dict
    /\ field v "space_config" = Some spc_dict.

(** Every space the org lists has a sub-entry with what the [try]
    yielded for it. *)
Definition entry_recorded (w : world) (context : string) (e : entry) : Prop :=
  forall x, In x (org_spaces e) ->
            exists v, Py.find x e = Some v /\ yielded w context x v.

(** A property of an org's container that no store of a pair the [try]
    yielded on [slug] breaks. *)
Definition step_closed_from (w : world) (context slug : string)
           (Inv : entry -> Prop) : Prop :=
  forall e space s sec_dict spc_dict s',
    Inv e ->
    Py.hashable space = true ->
    is_dict (old_or_empty e space) = true ->
    load_space_pair w context slug space s = (Ok (sec_dict, spc_dict), s') ->
    Inv (store_pair e space sec_dict spc_dict).

(* ================================================================= *)
(** * Properties *)

(** ** Counting the traffic *)

Lemma gets_add_get (s : reader) (url tok : string) :
  gets (add_event (EvGet url tok) s) = S (gets s).
Proof.
  unfold gets, add_event; simpl.
  rewrite filter_app, length_app; simpl; lia.
Qed.

Lemma gets_add_token (s : reader) : gets (add_event EvToken s) = gets s.
Proof.
  unfold gets, add_event; simpl.
  rewrite filter_app, length_app; simpl; lia.
Qed.

Lemma tokens_add_get (s : reader) (url tok : string) :
  tokens (add_event (EvGet url tok) s) = tokens s.
Proof.
  unfold tokens, add_event; simpl.
  rewrite filter_app, length_app; simpl; lia.
Qed.

Lemma tokens_add_token (s : reader) : tokens (add_event EvToken s) = S (tokens s).
Proof.
  unfold tokens, add_event; simpl.
  rewrite filter_app, length_app; simpl; lia.
Qed.

Lemma gets_set_auth_token (t : string) (s : reader) :
  gets (set_auth_token t s) = gets s.
Proof. reflexivity. Qed.

Lemma tokens_set_auth_token (t : string) (s : reader) :
  tokens (set_auth_token t s) = tokens s.
Proof. reflexivity. Qed.

Create Rewrite HintDb traffic.
#[local] Hint Rewrite gets_add_get gets_add_token tokens_add_get tokens_add_token
  gets_set_auth_token tokens_set_auth_token : traffic.

(** ** RequestExecutor *)

Section RequestExecutor.

Variable w : world.

Lemma read_response_returns (return_json : bool) (status_code : Z) (text : string) :
  read_response w return_json status_code text <> Diverge.
Proof.
  unfold read_response.
  destruct (Z.eqb status_code 200); [|discriminate].
  destruct return_json; [|discriminate].
  destruct (json_loads w text); discriminate.
Qed.

(** The activation entered with [_retry_=True], spelled out: it never
    calls [self]. *)
Lemma _request_body_retry (self : string -> bool -> bool -> M pyval)
      (url : string) (return_json : bool) (s : reader) :
  _request_body w self url return_json true s
  = (match requests_get w (gets s) url (_auth_token s) with
     | GetSSLError => Raise BBRequestAuthFail
     | GetError => Raise UnboundLocalError
     | GetResponse status_code text =>
         read_response w return_json status_code text
     end,
     add_event (EvGet url (_auth_token s)) s).
Proof.
  unfold _request_body, bind, requests_get_call.
  destruct (requests_get w (gets s) url (_auth_token s)); reflexivity.
Qed.

(** The outside call, spelled out. *)
Lemma _request_first (url : string) (return_json : bool) (s : reader) :
  _request w url return_json false s
  = let s1 := add_event (EvGet url (_auth_token s)) s in
    match requests_get w (gets s) url (_auth_token s) with
    | GetSSLError =>
        match fetch_token w (tokens s) with
        | Some tok =>
            _request w url return_json true
                     (set_auth_token tok (add_event EvToken s1))
        | None => (Raise TokenError, add_event EvToken s1)
        end
    | GetError => (Raise UnboundLocalError, s1)
    | GetResponse status_code text =>
        (read_response w return_json status_code text, s1)
    end.
Proof.
  cbv zeta. unfold _request. simpl _request_depth.
  unfold _request_body at 1. unfold bind at 1, requests_get_call at 1.
  destruct (requests_get w (gets s) url (_auth_token s)); try reflexivity.
  cbn [negb]. cbv beta iota. unfold bind at 1, _get_oauth_token.
  rewrite tokens_add_get.
  destruct (fetch_token w (tokens s)); [|reflexivity].
  unfold bind, modify. rewrite !_request_body_retry. reflexivity.
Qed.

(** Two activations are enough at every depth. *)
Lemma _request_depth_enough (d : nat) (url : string) (return_json _retry_ : bool)
      (s : reader) :
  _request_depth w (S (S d)) url return_json _retry_ s
  = _request w url return_json _retry_ s.
Proof.
  unfold _request. simpl.
  destruct _retry_.
  - rewrite !_request_body_retry. reflexivity.
  - unfold _request_body at 1 3. unfold bind at 1 4, requests_get_call.
    destruct (requests_get w (gets s) url (_auth_token s)); reflexivity.
Qed.

(** [_request] always comes back: with a value or with an exception. *)
Lemma _request_returns (url : string) (return_json _retry_ : bool) (s : reader) :
  fst (_request w url return_json _retry_ s) <> Diverge.
Proof.
  assert (R : forall s', fst (_request w url return_json true s') <> Diverge).
  { intros s'. unfold _request. simpl _request_depth.
    rewrite _request_body_retry. simpl.
    destruct (requests_get w _ url _); try discriminate.
    apply read_response_returns. }
  destruct _retry_; [apply R|].
  rewrite _request_first. cbv zeta.
  destruct (requests_get w (gets s) url (_auth_token s)); simpl;
    try discriminate.
  - destruct (fetch_token w (tokens s)); [apply R | discriminate].
  - apply read_response_returns.
Qed.

(** C6.  One call of [_request] (entered, as every outside call is, with
    [_retry_=False]) issues at most two GETs and asks for at most one new
    token.  When its first GET hits the SSL error it asks the token
    provider exactly once; given the new token it repeats the GET exactly
    once, under that token; and when this second GET hits the SSL error
    too, the call fails with [BBRequestAuthFail].  Without an SSL error on
    the first GET there is neither a retry nor a token exchange. *)
Theorem request_retries_at_most_once (url : string) (return_json : bool)
        (s : reader) :
  let out := _request w url return_json false s in
  let first := requests_get w (gets s) url (_auth_token s) in
  (gets (snd out) <= gets s + 2)%nat
  /\ (tokens (snd out) <= tokens s + 1)%nat
  /\ (first = GetSSLError ->
      tokens (snd out) = (tokens s + 1)%nat
      /\ forall tok,
          fetch_token w (tokens s) = Some tok ->
          trace (snd out)
          = trace s ++ [EvGet url (_auth_token s); EvToken; EvGet url tok]
          /\ gets (snd out) = (gets s + 2)%nat
          /\ (requests_get w (S (gets s)) url tok = GetSSLError ->
              fst out = Raise BBRequestAuthFail))
  /\ (first <> GetSSLError ->
      trace (snd out) = trace s ++ [EvGet url (_auth_token s)]).
Proof.
  cbv zeta. rewrite _request_first. cbv zeta.
  destruct (requests_get w (gets s) url (_auth_token s)) eqn:First.
  - destruct (fetch_token w (tokens s)) as [tok|] eqn:Tok.
    + unfold _request. simpl _request_depth. rewrite _request_body_retry.
      cbn [fst snd]. autorewrite with traffic. cbn [trace add_event set_auth_token _auth_token].
      split; [lia|]. split; [lia|]. split; [|congruence].
      intros _. split; [lia|].
      intros tok' E. injection E as <-.
      split; [rewrite <- !app_assoc; reflexivity|]. split; [lia|].
      intros Second. rewrite Second. reflexivity.
    + cbn [fst snd]. autorewrite with traffic.
      split; [lia|]. split; [lia|]. split; [|congruence].
      intros _. split; [lia|]. intros tok E. discriminate.
  - cbn [fst snd]. autorewrite with traffic.
    split; [lia|]. split; [lia|]. split; [discriminate|]. reflexivity.
  - cbn [fst snd]. autorewrite with traffic.
    split; [lia|]. split; [lia|]. split; [discriminate|]. reflexivity.
Qed.

End RequestExecutor.

(** ** What the methods leave alone *)

Lemma untouched_refl (s : reader) : untouched s s.
Proof. repeat split. Qed.

Lemma untouched_trans (s1 s2 s3 : reader) :
  untouched s1 s2 -> untouched s2 s3 -> untouched s1 s3.
Proof.
  unfold untouched. intros (A1 & A2 & A3 & A4 & A5) (B1 & B2 & B3 & B4 & B5).
  repeat split; congruence.
Qed.

Lemma keeps_ret {A} (a : A) : keeps (ret a).
Proof. intros s. apply untouched_refl. Qed.

Lemma keeps_raise {A} (e : exn) : keeps (@raise A e).
Proof. intros s. apply untouched_refl. Qed.

Lemma keeps_diverge {A} : keeps (@diverge A).
Proof. intros s. apply untouched_refl. Qed.

Lemma keeps_lift {A} (r : result A) : keeps (lift r).
Proof. intros s. apply untouched_refl. Qed.

Lemma keeps_get_self : keeps get_self.
Proof. intros s. apply untouched_refl. Qed.

Lemma keeps_bind {A B} (m : M A) (k : A -> M B) :
  keeps m -> (forall a, keeps (k a)) -> keeps (bind m k).
Proof.
  intros Hm Hk s. unfold bind.
  specialize (Hm s). destruct (m s) as [[a|e|] s1]; simpl in *; auto.
  eapply untouched_trans; [exact Hm | apply Hk].
Qed.

Lemma keeps_try_except {A} (m : M A) (handles : exn -> bool) (h : exn -> M A) :
  keeps m -> (forall e, keeps (h e)) -> keeps (try_except m handles h).
Proof.
  intros Hm Hh s. unfold try_except.
  specialize (Hm s). destruct (m s) as [[a|e|] s1]; simpl in *; auto.
  destruct (handles e); simpl; auto.
  eapply untouched_trans; [exact Hm | apply Hh].
Qed.

Lemma keeps_now (w : world) : keeps (now w).
Proof. intros s. repeat split. Qed.

Lemma keeps_set_auth_token (t : string) : keeps (modify (set_auth_token t)).
Proof. intros s. repeat split. Qed.

Lemma keeps__get_oauth_token (w : world) : keeps (_get_oauth_token w).
Proof.
  intros s. unfold _get_oauth_token.
  destruct (fetch_token w (tokens s)); repeat split.
Qed.

Lemma keeps_requests_get_call (w : world) (url : string) :
  keeps (requests_get_call w url).
Proof. intros s. repeat split. Qed.

Create HintDb keeps.
#[local] Hint Resolve keeps_ret keeps_raise keeps_diverge keeps_lift keeps_get_self
  keeps_now keeps_set_auth_token keeps__get_oauth_token keeps_requests_get_call
  : keeps.

(** Walk through a method: sequencing, handlers and case analyses. *)
Ltac keeps_step :=
  match goal with
  | |- keeps (bind _ _) => apply keeps_bind; [|intros]
  | |- keeps (try_except _ _ _) => apply keeps_try_except; [|intros]
  | |- keeps (match ?x with _ => _ end) => destruct x
  | |- keeps (if ?b then _ else _) => destruct b
  | |- keeps _ => solve [auto with keeps]
  end.

Ltac keeps_walk := repeat keeps_step.

Lemma keeps__request_body (w : world) (self : string -> bool -> bool -> M pyval)
      (url : string) (return_json _retry_ : bool) :
  (forall u j r, keeps (self u j r)) ->
  keeps (_request_body w self url return_json _retry_).
Proof. intros Hself. unfold _request_body. keeps_walk. Qed.

Lemma keeps__request (w : world) (url : string) (return_json _retry_ : bool) :
  keeps (_request w url return_json _retry_).
Proof.
  unfold _request. simpl.
  apply keeps__request_body. intros. apply keeps__request_body.
  intros. apply keeps_diverge.
Qed.

Lemma keeps__bb_get_file (w : world) (proj slug filename : string) :
  keeps (_bb_get_file w proj slug filename).
Proof.
  intros s. unfold _bb_get_file.
  pose proof (keeps__request w
    (_bb_proj s +s+ "/" +s+ proj +s+ "/repos/" +s+ slug +s+ "/raw/" +s+ filename)
    false false s) as H.
  destruct (_request w _ false false s) as [[v|e|] s1]; simpl in *; auto.
  destruct v; exact H.
Qed.

Lemma rest_loop_untouched (w : world) (fuel : nat) (base_url : string) :
  forall rsp rtn s,
    untouched s (snd (rest_loop w fuel base_url rsp rtn s)).
Proof.
  induction fuel as [|fuel IH]; intros rsp rtn s; simpl.
  - apply untouched_refl.
  - destruct (PyOps.getitem rsp "isLastPage") as [[last rsp1]|e|];
      simpl; try apply untouched_refl.
    destruct (Py.truthy last); simpl; try apply untouched_refl.
    destruct (PyOps.getitem rsp1 "nextPageStart") as [[start rsp2]|e|];
      simpl; try apply untouched_refl.
    pose proof (keeps__request w (base_url +s+ "?start=" +s+ py_str w start)
                               true false s) as H.
    destruct (_request w _ true false s) as [[rsp'|e|] s1]; simpl in *; auto.
    destruct (rbind (PyOps.getitem rsp' "values") _) as [[xs rsp'']|e|];
      simpl; auto.
    eapply untouched_trans; [exact H | apply IH].
Qed.

Lemma keeps__bb_rest_get (w : world) (fuel : nat) (command : string) :
  keeps (_bb_rest_get w fuel command).
Proof.
  intros s. unfold _bb_rest_get.
  pose proof (rest_loop_untouched w fuel (_bb_rest s +s+ "/" +s+ command)
                                  first_page [] s) as H.
  destruct (rest_loop w fuel _ first_page [] s) as [[[u|e|] rtn] s1];
    simpl in *; exact H.
Qed.

#[local] Hint Resolve keeps__request keeps__bb_get_file keeps__bb_rest_get : keeps.

Lemma keeps__get_repo_names (w : world) (fuel : nat) (proj : string) :
  keeps (_get_repo_names w fuel proj).
Proof. unfold _get_repo_names. keeps_walk. Qed.

#[local] Hint Resolve keeps__get_repo_names : keeps.

Lemma keeps_make_cache_loop (w : world) (fuel : nat) (contexts : list string) :
  forall cache_obj, keeps (make_cache_loop w fuel contexts cache_obj).
Proof.
  induction contexts as [|ctxt rest IH]; intros cache_obj; simpl.
  - auto with keeps.
  - keeps_walk.
Qed.

Lemma keeps__make_cache (w : world) (fuel : nat) : keeps (_make_cache w fuel).
Proof. unfold _make_cache. keeps_walk. apply keeps_make_cache_loop. Qed.

Lemma keeps__load_bb_file (w : world) (context slug filename : string)
      (json_content : bool) :
  keeps (_load_bb_file w context slug filename json_content).
Proof. unfold _load_bb_file. keeps_walk. Qed.

#[local] Hint Resolve keeps__make_cache keeps__load_bb_file : keeps.

Lemma keeps_load_org (w : world) (context slug : string) :
  keeps (load_org w context slug).
Proof. unfold load_org. keeps_walk. Qed.

Lemma keeps_load_spaces (w : world) (context slug : string) :
  keeps (load_spaces w context slug).
Proof. unfold load_spaces. keeps_walk. Qed.

Lemma keeps_load_space_pair (w : world) (context slug : string) (space : pyval) :
  keeps (load_space_pair w context slug space).
Proof. unfold load_space_pair. keeps_walk. Qed.

#[local] Hint Resolve keeps_load_org keeps_load_spaces keeps_load_space_pair : keeps.

Lemma keeps_refresh_spaces (w : world) (context slug repo : string)
      (spaces : list pyval) :
  forall new_cache, keeps (refresh_spaces w context slug repo spaces new_cache).
Proof.
  induction spaces as [|space rest IH]; intros new_cache; simpl.
  - auto with keeps.
  - keeps_walk.
Qed.

Lemma keeps_refresh_slug (w : world) (context slug : string) (new_cache : cache_t) :
  keeps (refresh_slug w context slug new_cache).
Proof. unfold refresh_slug. keeps_walk. apply keeps_refresh_spaces. Qed.

Lemma keeps_refresh_slugs (w : world) (context : string) (sluglist : list string) :
  forall new_cache, keeps (refresh_slugs w context sluglist new_cache).
Proof.
  induction sluglist as [|slug rest IH]; intros new_cache; simpl.
  - auto with keeps.
  - keeps_walk. apply keeps_refresh_slug.
Qed.

Lemma keeps_refresh_contexts (w : world) (contexts : list string) :
  forall new_cache, keeps (refresh_contexts w contexts new_cache).
Proof.
  induction contexts as [|context rest IH]; intros new_cache; simpl.
  - auto with keeps.
  - destruct (Cache.find context new_cache); [|apply IH].
    keeps_walk. apply keeps_refresh_slugs.
Qed.

Lemma keeps_build_new_cache (w : world) (fuel : nat) :
  keeps (build_new_cache w fuel).
Proof. unfold build_new_cache. keeps_walk. apply keeps_refresh_contexts. Qed.

(** ** CacheStore: the swap at the end of [refresh] *)

(** C1.  [refresh] assigns [_cache] and [_cache_timestamp] only after
    [new_cache] has been built and filled for every context and org.  When
    that build returns, nothing is published yet - the cache and the
    timestamp are still the old ones - and [refresh] goes on to return:
    [_cache] is that [new_cache], [_cache_timestamp] is the last reading
    of the clock, taken after the swap, and nothing else in the reader
    changes but the count of clock readings.  When the build raises (or
    a listing never ends), so does [refresh], in the state the build left,
    with the old cache and timestamp.  [__init__] returns when the token
    exchange and [_make_cache] do, and the reader it has built has no
    timestamp, so the timestamp stays [None] until a [refresh] returns. *)
Theorem refresh_publishes_at_the_end (w : world) (fuel : nat) (s : reader) :
  (forall new_cache s1,
      build_new_cache w fuel (tick s) = (Ok new_cache, s1) ->
      _cache s1 = _cache s
      /\ _cache_timestamp s1 = _cache_timestamp s
      /\ exists s',
          refresh w fuel s = (Ok tt, s')
          /\ _cache s' = new_cache
          /\ _cache_timestamp s' = Some (time_time w (ticks s1 + 2))
          /\ ticks s' = (ticks s1 + 3)%nat
          /\ trace s' = trace s1
          /\ _auth_token s' = _auth_token s1
          /\ _contexts s' = _contexts s
          /\ _bb_rest s' = _bb_rest s
          /\ _bb_proj s' = _bb_proj s)
  /\ (forall e s1,
         build_new_cache w fuel (tick s) = (Raise e, s1) ->
         refresh w fuel s = (Raise e, s1)
         /\ _cache s1 = _cache s
         /\ _cache_timestamp s1 = _cache_timestamp s)
  /\ (forall s1,
         build_new_cache w fuel (tick s) = (Diverge, s1) ->
         refresh w fuel s = (Diverge, s1)
         /\ _cache s1 = _cache s
         /\ _cache_timestamp s1 = _cache_timestamp s)
  /\ match refresh w fuel s with
     | (Ok _, s') =>
         exists new_cache s1,
           build_new_cache w fuel (tick s) = (Ok new_cache, s1)
           /\ _cache s' = new_cache
           /\ _cache_timestamp s' = Some (time_time w (ticks s1 + 2))
           /\ ticks s' = (ticks s1 + 3)%nat
     | (Raise _, s') | (Diverge, s') =>
         _cache s' = _cache s /\ _cache_timestamp s' = _cache_timestamp s
     end
  /\ (forall contexts s0,
         match init w fuel contexts s0 with
         | (Ok _, s1) => _cache_timestamp s1 = None
         | _ => True
         end)
  /\ (forall contexts s0 tok c s2,
         fetch_token w (tokens s0) = Some tok ->
         _make_cache w fuel
                     (set_cache_timestamp None
                        (set_contexts contexts
                           (set_auth_token tok (add_event EvToken s0))))
         = (Ok c, s2) ->
         init w fuel contexts s0 = (Ok tt, set_cache c s2)
         /\ _cache_timestamp (set_cache c s2) = None).
Proof.
  assert (U : refresh w fuel s
              = match build_new_cache w fuel (tick s) with
                | (Ok new_cache, s1) => publish w new_cache s1
                | (Raise e, s1) => (Raise e, s1)
                | (Diverge, s1) => (Diverge, s1)
                end) by reflexivity.
  pose proof (keeps_build_new_cache w fuel (tick s)) as K.
  split; [|split; [|split; [|split; [|split]]]].
  - intros nc s1 B. rewrite B in K. cbn [snd] in K.
    destruct K as (Kr & Kp & Kx & Kc & Kt). cbn [tick] in Kr, Kp, Kx, Kc, Kt.
    split; [exact Kc|]. split; [exact Kt|].
    rewrite U, B. unfold publish, bind, now, modify. cbn.
    eexists. split; [reflexivity|]. cbn.
    split; [reflexivity|]. split; [do 2 f_equal; lia|].
    split; [lia|]. auto.
  - intros e s1 B. rewrite B in K. cbn [snd] in K.
    destruct K as (_ & _ & _ & Kc & Kt). rewrite U, B. auto.
  - intros s1 B. rewrite B in K. cbn [snd] in K.
    destruct K as (_ & _ & _ & Kc & Kt). rewrite U, B. auto.
  - rewrite U.
    destruct (build_new_cache w fuel (tick s)) as [[nc|e|] s1] eqn:B;
      simpl in K; destruct K as (_ & _ & _ & Kc & Kt).
    + unfold publish, bind, now, modify. simpl.
      exists nc, s1. repeat split.
      * f_equal. f_equal. lia.
      * lia.
    + split; assumption.
    + split; assumption.
  - intros contexts s0. unfold init, bind at 1, _get_oauth_token.
    destruct (fetch_token w (tokens s0)) as [tok|]; [|exact I].
    unfold bind at 1 2 3 4, modify at 1 2 3.
    set (s1 := set_cache_timestamp None _).
    pose proof (keeps__make_cache w fuel s1) as K'.
    destruct (_make_cache w fuel s1) as [[c|e|] s2]; simpl in *; try exact I.
    destruct K' as (_ & _ & _ & _ & Kt). exact Kt.
  - intros contexts s0 tok c s2 F Mk.
    pose proof (keeps__make_cache w fuel
                  (set_cache_timestamp None
                     (set_contexts contexts
                        (set_auth_token tok (add_event EvToken s0))))) as K'.
    rewrite Mk in K'. destruct K' as (_ & _ & _ & _ & Kt). cbn [snd] in Kt.
    split; [|exact Kt].
    unfold init, bind at 1, _get_oauth_token. rewrite F.
    unfold bind at 1 2 3 4, modify at 1 2 3. cbn [fst snd].
    rewrite Mk. reflexivity.
Qed.

(** ** PaginatedClient *)

Section PaginatedClient.

Variable w : world.

Lemma or_empty_id (rtn : list pyval) : or_empty rtn = rtn.
Proof. destruct rtn; reflexivity. Qed.

Lemma first_page_continues : continues first_page 0.
Proof. exists [(PStr "isLastPage", PBool false); (PStr "nextPageStart", PInt 0)].
       repeat split. Qed.

Lemma is_page_continues (rsp : pyval) (next : Z) (values : list pyval) :
  is_page rsp false next values -> continues rsp next.
Proof. intros (kv & E & L & N & _). exists kv. auto. Qed.

(** A GET answered 200 with a body that parses. *)
Lemma _request_json_ok (url body : string) (rsp : pyval) (s : reader) :
  requests_get w (gets s) url (_auth_token s) = GetResponse 200 body ->
  json_loads w body = Some rsp ->
  _request w url true false s
  = (Ok rsp, add_event (EvGet url (_auth_token s)) s).
Proof.
  intros G J. rewrite _request_first. cbv zeta. rewrite G.
  unfold read_response. simpl. rewrite J. reflexivity.
Qed.

Lemma rest_loop_pages (base_url : string) :
  forall pages fuel rsp start rtn s,
    pages <> [] ->
    continues rsp start ->
    serves w base_url (_auth_token s) (gets s) start pages ->
    (List.length pages < fuel)%nat ->
    exists s',
      rest_loop w fuel base_url rsp rtn s
      = (Ok tt, rtn ++ List.concat (map snd pages), s')
      /\ trace s'
         = trace s ++ map (fun st => EvGet (page_url w base_url st) (_auth_token s))
                          (page_starts start pages)
      /\ _auth_token s' = _auth_token s.
Proof.
  induction pages as [|[next values] rest IH];
    intros fuel rsp start rtn s NE C Srv F; [congruence|].
  destruct fuel as [|fuel]; [simpl in F; lia|].
  destruct C as (kv & -> & L & N).
  destruct Srv as (body & rsp' & G & J & P & Srv).
  cbn [rest_loop]. unfold PyOps.getitem at 1. rewrite L.
  cbn [Py.truthy]. cbv iota.
  unfold PyOps.getitem at 1. rewrite N.
  fold (page_url w base_url start).
  rewrite (_request_json_ok _ _ _ _ G J).
  set (s1 := add_event (EvGet (page_url w base_url start) (_auth_token s)) s).
  pose proof P as (kv' & -> & L' & N' & V').
  unfold PyOps.getitem at 1. rewrite V'. cbn [rbind PyOps.iterate Py.iter].
  destruct rest as [|p rest'].
  - (* that was the last page *)
    destruct fuel as [|fuel]; [simpl in F; lia|].
    cbn [rest_loop]. unfold PyOps.getitem at 1. rewrite L'.
    cbn [Py.truthy is_last]. cbv iota.
    exists s1. simpl List.concat. rewrite app_nil_r. repeat split.
  - destruct (IH fuel (PDict false kv') next (rtn ++ values) s1) as (s' & R & T & A).
    + discriminate.
    + eapply is_page_continues. exact P.
    + unfold s1. rewrite gets_add_get. exact Srv.
    + simpl in F |- *. lia.
    + exists s'. rewrite R. split; [|split].
      * simpl List.concat. rewrite <- app_assoc. reflexivity.
      * rewrite T. unfold s1. simpl. rewrite <- app_assoc. reflexivity.
      * rewrite A. reflexivity.
Qed.

(** C5.  When the server answers with N >= 1 pages, all but the last
    saying [isLastPage=false], [_bb_rest_get] asks for offset 0 first and
    then for the [nextPageStart] of each page it got, in N GETs and no
    more, and returns the [values] of the pages joined in page order. *)
Theorem rest_get_concatenates_pages (fuel : nat) (command : string)
        (s : reader) (pages : list (Z * list pyval)) :
  let base_url := _bb_rest s +s+ "/" +s+ command in
  pages <> [] ->
  serves w base_url (_auth_token s) (gets s) 0 pages ->
  (List.length pages < fuel)%nat ->
  fst (_bb_rest_get w fuel command s) = Ok (List.concat (map snd pages))
  /\ trace (snd (_bb_rest_get w fuel command s))
     = trace s ++ map (fun st => EvGet (page_url w base_url st) (_auth_token s))
                      (page_starts 0 pages)
  /\ hd_error (page_starts 0 pages) = Some 0.
Proof.
  intros base_url NE Srv F.
  destruct (rest_loop_pages base_url pages fuel first_page 0 [] s NE
                            first_page_continues Srv F) as (s' & R & T & _).
  unfold _bb_rest_get. fold base_url. rewrite R. simpl.
  rewrite or_empty_id. repeat split; [exact T|].
  destruct pages as [|[next values] rest]; [congruence | reflexivity].
Qed.

(** Whatever happens, [_bb_rest_get] raises nothing. *)
Lemma rest_get_never_raises (fuel : nat) (command : string) (s : reader) (e : exn) :
  fst (_bb_rest_get w fuel command s) <> Raise e.
Proof.
  unfold _bb_rest_get.
  destruct (rest_loop w fuel _ first_page [] s) as [[[u|e'|] rtn] s'];
    discriminate.
Qed.

(** A failure of the very first request leaves nothing to return. *)
Lemma rest_get_first_request_fails (fuel : nat) (command : string) (s : reader)
      (e : exn) :
  fst (_request w (page_url w (_bb_rest s +s+ "/" +s+ command) 0) true false s)
  = Raise e ->
  fst (_bb_rest_get w (S fuel) command s) = Ok [].
Proof.
  intros R. unfold _bb_rest_get. simpl rest_loop.
  fold (page_url w (_bb_rest s +s+ "/" +s+ command) 0).
  destruct (_request w _ true false s) as [[v|e'|] s']; simpl in R; try discriminate.
  reflexivity.
Qed.

End PaginatedClient.

(** C3, on the code: the first page of a listing arrives with three items
    and [isLastPage=false]; the request for the second page is answered
    500, so [_request] raises [RequestNotOK].  [_bb_rest_get] raises
    nothing, but what it returns is the three items of the first page, not
    the empty list. *)
Theorem rest_get_returns_prefix_on_failure :
  let s := Examples.reader0 [] in
  let out := _bb_rest_get Examples.w_second_page_fails 5 "cmd" s in
  fst (_request Examples.w_second_page_fails "rest/cmd?start=10" true false
                (add_event (EvGet "rest/cmd?start=0" "token-1") s))
  = Raise RequestNotOK
  /\ fst out = Ok [PInt 1; PInt 2; PInt 3]
  /\ fst out <> Ok []
  /\ trace (snd out)
     = [EvGet "rest/cmd?start=0" "token-1"; EvGet "rest/cmd?start=10" "token-1"].
Proof.
  cbv zeta. split; [reflexivity|]. split; [reflexivity|].
  split; [discriminate | reflexivity].
Qed.

(** ** SkeletonBuilder *)

Lemma cache_find_set_same {V} (k : string) (v : V) (m : list (string * V)) :
  Cache.find k (Cache.set k v m) = Some v.
Proof.
  induction m as [|[k' v'] m IH]; simpl.
  - rewrite String.eqb_refl. reflexivity.
  - destruct (String.eqb k k') eqn:E; simpl; rewrite E; auto.
Qed.

Lemma cache_find_set_other {V} (k k' : string) (v : V) (m : list (string * V)) :
  k <> k' -> Cache.find k (Cache.set k' v m) = Cache.find k m.
Proof.
  intros NE. induction m as [|[k0 v0] m IH]; simpl.
  - destruct (String.eqb k k') eqn:E; [apply String.eqb_eq in E; congruence|].
    reflexivity.
  - destruct (String.eqb k' k0) eqn:E0; simpl.
    + apply String.eqb_eq in E0. subst k0.
      destruct (String.eqb k k') eqn:E; [apply String.eqb_eq in E; congruence|].
      reflexivity.
    + destruct (String.eqb k k0); auto.
Qed.

Lemma cache_keys_set {V} (k : string) (v : V) (m : list (string * V)) (k' : string) :
  In k' (Cache.keys (Cache.set k v m)) <-> k' = k \/ In k' (Cache.keys m).
Proof.
  unfold Cache.keys. induction m as [|[k0 v0] m IH]; simpl.
  - intuition.
  - destruct (String.eqb k k0) eqn:E; simpl.
    + apply String.eqb_eq in E. subst. intuition.
    + rewrite IH. intuition.
Qed.

Lemma cache_keys_set_nodup {V} (k : string) (v : V) (m : list (string * V)) :
  NoDup (Cache.keys m) -> NoDup (Cache.keys (Cache.set k v m)).
Proof.
  unfold Cache.keys. induction m as [|[k0 v0] m IH]; simpl; intros ND.
  - constructor; [intros []|constructor].
  - inversion ND as [|? ? NI ND']; subst.
    destruct (String.eqb k k0) eqn:E; simpl.
    + constructor; assumption.
    + constructor; [|auto].
      intros H. apply (cache_keys_set k v m k0) in H.
      destruct H as [->|H]; [rewrite String.eqb_refl in E; discriminate | auto].
Qed.

Lemma cache_set_values {V} (P : V -> Prop) (k : string) (v : V)
      (m : list (string * V)) :
  P v -> Forall (fun kv => P (snd kv)) m ->
  Forall (fun kv => P (snd kv)) (Cache.set k v m).
Proof.
  intros Pv. induction 1 as [|[k0 v0] m H0 H IH]; simpl.
  - repeat constructor. exact Pv.
  - destruct (String.eqb k k0); constructor; auto.
Qed.

(** The keys of the dict comprehension of [_make_cache]. *)
Lemma skeleton_spec (names : list string) :
  forall acc,
    NoDup (Cache.keys acc) ->
    Forall (fun kv => snd kv = []) acc ->
    NoDup (Cache.keys (skeleton names acc))
    /\ Forall (fun kv => snd kv = []) (skeleton names acc)
    /\ forall k, In k (Cache.keys (skeleton names acc)) <->
                 In k (Cache.keys acc)
                 \/ exists r, In r names /\ PyString.endswith r term = true
                              /\ k = org_key r.
Proof.
  induction names as [|r rest IH]; intros acc ND E; simpl.
  - split; [exact ND|]. split; [exact E|].
    intros k. split; [auto|]. intros [H|(r & [] & _)]. exact H.
  - destruct (PyString.endswith r term) eqn:M.
    + destruct (IH (Cache.set (org_key r) ([] : entry) acc)) as (ND' & E' & K').
      * apply cache_keys_set_nodup. exact ND.
      * apply (cache_set_values (fun e : entry => e = [])); auto.
      * split; [exact ND'|]. split; [exact E'|].
        intros k. rewrite K', cache_keys_set. split.
        -- intros [[->|H]|(r' & I & M' & ->)]; eauto 7.
        -- intros [H|(r' & [<-|I] & M' & ->)]; eauto 7.
    + destruct (IH acc ND E) as (ND' & E' & K').
      split; [exact ND'|]. split; [exact E'|].
      intros k. rewrite K'. split.
      * intros [H|(r' & I & M' & ->)]; eauto 7.
      * intros [H|(r' & [<-|I] & M' & ->)]; [auto|congruence|eauto 7].
Qed.

(** The slugs the list comprehension of [_get_repo_names] keeps. *)
Lemma org_slugs_spec (repo_vals : list pyval) :
  forall slugs names,
    org_slugs repo_vals = Ok slugs ->
    all_str slugs = Ok names ->
    forall g, In g names <->
              exists v name, In v repo_vals
                             /\ field v "name" = Some (PStr name)
                             /\ field v "slug" = Some (PStr g)
                             /\ PyString.endswith name term = true.
Proof.
  induction repo_vals as [|v rest IH]; intros slugs names O A g.
  - simpl in O. injection O as <-. simpl in A. injection A as <-.
    split; [intros [] | intros (v & n & [] & _)].
  - cbn [org_slugs] in O.
    destruct v as [| | | |xs|vivify kv]; try discriminate O.
    unfold PyOps.getitem at 1 in O.
    destruct (Py.find (PStr "name") kv) as [nv|] eqn:N.
    2:{ destruct vivify; discriminate O. }
    cbn [rbind] in O.
    destruct nv as [| | |name| |]; try discriminate O.
    cbn [PyOps.endswith rbind] in O.
    destruct (PyString.endswith name term) eqn:M.
    + unfold PyOps.getitem at 1 in O.
      destruct (Py.find (PStr "slug") kv) as [sv|] eqn:Sl.
      * cbn [rbind] in O.
        destruct (org_slugs rest) as [slugs'|e|] eqn:O'; try discriminate O.
        cbn [rbind] in O. injection O as <-.
        cbn [all_str] in A.
        destruct sv as [| | |g0| |]; try discriminate A.
        destruct (all_str slugs') as [names'|e|] eqn:A'; try discriminate A.
        cbn [rbind] in A. injection A as <-.
        specialize (IH slugs' names' eq_refl A' g).
        simpl In. rewrite IH. split.
        -- intros [<-|(v & n & I & Fn & Fs & Mn)].
           ++ exists (PDict vivify kv), name. simpl. auto.
           ++ exists v, n. auto.
        -- intros (v & n & [<-|I] & Fn & Fs & Mn).
           ++ left. simpl in Fs. congruence.
           ++ right. exists v, n. auto.
      * destruct vivify; [|discriminate O].
        cbn [rbind] in O.
        destruct (org_slugs rest) as [slugs'|e|]; try discriminate O.
        cbn [rbind] in O. injection O as <-. discriminate A.
    + specialize (IH slugs names O A g). rewrite IH. split.
      * intros (v & n & I & Fn & Fs & Mn). exists v, n. simpl. auto.
      * intros (v & n & [<-|I] & Fn & Fs & Mn).
        -- simpl in Fn. congruence.
        -- exists v, n. auto.
Qed.

Lemma bind_Ok_inv {A B} (m : M A) (k : A -> M B) (s s' : reader) (b : B) :
  bind m k s = (Ok b, s') ->
  exists a s1, m s = (Ok a, s1) /\ k a s1 = (Ok b, s').
Proof.
  unfold bind. destruct (m s) as [[a|e|] s1]; intros H; try discriminate.
  exists a, s1. auto.
Qed.

Lemma lift_Ok_inv {A} (r : result A) (s s' : reader) (a : A) :
  lift r s = (Ok a, s') -> r = Ok a /\ s' = s.
Proof. unfold lift. intros H. injection H as -> ->. auto. Qed.

Lemma _get_repo_names_spec (w : world) (fuel : nat) (proj : string)
      (s s' : reader) (names : list string) :
  _get_repo_names w fuel proj s = (Ok names, s') ->
  exists repo_vals slugs,
    _bb_rest_get w fuel (proj +s+ "/repos") s = (Ok repo_vals, s')
    /\ org_slugs repo_vals = Ok slugs
    /\ all_str slugs = Ok names.
Proof.
  unfold _get_repo_names. intros H.
  apply bind_Ok_inv in H as (repo_vals & s1 & R & H).
  apply bind_Ok_inv in H as (slugs & s2 & O & H).
  apply lift_Ok_inv in O as (O & ->).
  apply lift_Ok_inv in H as (A & ->).
  exists repo_vals, slugs. split; [exact R|]. split; [|exact A].
  destruct repo_vals; [simpl; exact O | exact O].
Qed.

Lemma make_cache_loop_spec (w : world) (fuel : nat) (contexts : list string) :
  forall cache_obj s c s',
    make_cache_loop w fuel contexts cache_obj s = (Ok c, s') ->
    (forall ctxt, ~ In ctxt contexts -> Cache.find ctxt c = Cache.find ctxt cache_obj)
    /\ (forall ctxt, In ctxt contexts ->
          exists s1 s2 names,
            _get_repo_names w fuel ctxt s1 = (Ok names, s2)
            /\ Cache.find ctxt c = Some (skeleton names [])).
Proof.
  induction contexts as [|c0 rest IH]; intros cache_obj s c s' H.
  - simpl in H. injection H as <- <-. split; [auto | intros ctxt []].
  - cbn [make_cache_loop] in H.
    apply bind_Ok_inv in H as (names & s1 & N & H).
    destruct (IH _ _ _ _ H) as (Out & Inn).
    split.
    + intros ctxt NI. rewrite Out by (intros I; apply NI; right; exact I).
      apply cache_find_set_other. intros ->. apply NI. left. reflexivity.
    + intros ctxt I.
      destruct (in_dec string_dec ctxt rest) as [Ir|NIr]; [auto|].
      destruct I as [<-|I]; [|contradiction].
      exists s, s1, names. split; [exact N|].
      rewrite Out by exact NIr. apply cache_find_set_same.
Qed.

Lemma org_names_of_fields (repo_vals : list pyval)
      (pairs : list (string * string)) :
  Forall2 repo_fields repo_vals pairs ->
  rbind (org_slugs repo_vals) all_str
  = Ok (map snd (filter (fun p => PyString.endswith (fst p) term) pairs)).
Proof.
  induction 1 as [|v [name slug] vals pairs (Fn & Fs) _ IH].
  - reflexivity.
  - cbn [fst snd] in Fn, Fs.
    destruct v as [| | | | |vivify kv]; try discriminate Fn.
    cbn [field] in Fn, Fs.
    cbn [org_slugs filter fst]. unfold PyOps.getitem at 1. rewrite Fn.
    cbn [rbind PyOps.endswith].
    destruct (PyString.endswith name term).
    + unfold PyOps.getitem at 1. rewrite Fs. cbn [rbind].
      destruct (org_slugs vals) as [slugs|e|]; cbn [rbind] in IH |- *;
        try discriminate IH.
      cbn [all_str]. rewrite IH. reflexivity.
    + exact IH.
Qed.

Lemma fields_of_items (repo_vals : list pyval) :
  Forall (fun v => exists name_slug, repo_fields v name_slug) repo_vals ->
  exists pairs, Forall2 repo_fields repo_vals pairs.
Proof.
  induction 1 as [|v vals (p & Fp) _ (pairs & IH)].
  - exists []. constructor.
  - exists (p :: pairs). constructor; assumption.
Qed.

(** A listing whose items all have a string name and a string slug is
    read without an exception. *)
Lemma _get_repo_names_returns (w : world) (fuel : nat) (proj : string)
      (s s1 : reader) (repo_vals : list pyval) :
  _bb_rest_get w fuel (proj +s+ "/repos") s = (Ok repo_vals, s1) ->
  Forall (fun v => exists name_slug, repo_fields v name_slug) repo_vals ->
  exists names, _get_repo_names w fuel proj s = (Ok names, s1).
Proof.
  intros R W. destruct (fields_of_items _ W) as (pairs & F2).
  pose proof (org_names_of_fields _ _ F2) as E.
  unfold _get_repo_names, bind. rewrite R.
  assert (O : match repo_vals with [] => Ok [] | _ => org_slugs repo_vals end
              = org_slugs repo_vals) by (destruct repo_vals; reflexivity).
  rewrite O. unfold lift.
  destruct (org_slugs repo_vals) as [slugs|e|]; cbn [rbind] in E;
    try discriminate E.
  rewrite E. eauto.
Qed.

Lemma make_cache_loop_listed (w : world) (fuel : nat) (contexts : list string) :
  forall answers cache_obj s s',
    listings w fuel contexts s answers s' ->
    (Forall (Forall (fun v => exists name_slug, repo_fields v name_slug)) answers ->
     exists c, make_cache_loop w fuel contexts cache_obj s = (Ok c, s'))
    /\ (forall c s'',
           make_cache_loop w fuel contexts cache_obj s = (Ok c, s'') ->
           s'' = s'
           /\ (forall ctxt, ~ In ctxt contexts ->
                            Cache.find ctxt c = Cache.find ctxt cache_obj)
           /\ forall pre ctxt post before repo_vals after,
               contexts = pre ++ ctxt :: post ->
               answers = before ++ repo_vals :: after ->
               List.length before = List.length pre ->
               ~ In ctxt post ->
               exists slugs names,
                 org_slugs repo_vals = Ok slugs
                 /\ all_str slugs = Ok names
                 /\ Cache.find ctxt c = Some (skeleton names [])).
Proof.
  induction contexts as [|c0 rest IH]; intros answers cache_obj s s' L.
  - destruct answers as [|a0 more]; [|contradiction]. simpl in L. subst s'.
    split.
    + intros _. exists cache_obj. reflexivity.
    + intros c s'' R. simpl in R. injection R as <- <-.
      split; [reflexivity|]. split; [auto|].
      intros pre ctxt post before repo_vals after E. destruct pre; discriminate E.
  - destruct answers as [|a0 more]; [contradiction|].
    destruct L as (s1 & R0 & L).
    split.
    + intros W. inversion W as [|? ? W0 Wm]; subst.
      destruct (_get_repo_names_returns w fuel c0 s s1 a0 R0 W0) as (names & N).
      destruct (IH more (Cache.set c0 (skeleton names []) cache_obj) s1 s' L)
        as (Total & _).
      destruct (Total Wm) as (c & Run). exists c.
      cbn [make_cache_loop]. unfold bind. rewrite N. exact Run.
    + intros c s'' Run. cbn [make_cache_loop] in Run.
      apply bind_Ok_inv in Run as (names & s1' & N & Run).
      destruct (_get_repo_names_spec _ _ _ _ _ _ N) as (vals & slugs & R & O & A).
      rewrite R0 in R. injection R as <- <-.
      destruct (IH more (Cache.set c0 (skeleton names []) cache_obj) s1 s' L)
        as (_ & Exact).
      destruct (Exact c s'' Run) as (-> & Out & Per).
      split; [reflexivity|]. split.
      * intros ctxt NI. rewrite Out by (intros I; apply NI; right; exact I).
        apply cache_find_set_other. intros ->. apply NI. left. reflexivity.
      * intros pre ctxt post before repo_vals after Ec Ea Len NI.
        destruct pre as [|p pre]; destruct before as [|b before];
          try discriminate Len.
        -- injection Ec as <- <-. injection Ea as <- <-.
           exists slugs, names. split; [exact O|]. split; [exact A|].
           rewrite Out by exact NI. apply cache_find_set_same.
        -- injection Ec as <- ->. injection Ea as <- ->.
           simpl in Len. injection Len as Len.
           exact (Per pre ctxt post before repo_vals after eq_refl eq_refl Len NI).
Qed.

(** C8, as the code has it.  [_make_cache] asks for one listing per
    configured context, in order.  When every item of every listing has a
    string name and a string slug, it returns.  Whenever it returns, the
    skeleton of a context maps exactly the keys [slug.lower()[:-4]] of
    the repositories in the listing of that context whose display name
    ends with [-org] and whose slug ends with [-org] too, each key once,
    each to an empty container (for a context configured twice, the
    listing is the one asked for last).  A repository is left out when
    its display name, or its slug, lacks the marker. *)
Theorem skeleton_keys_of_marked_repos (w : world) (fuel : nat)
        (s s' : reader) (answers : list (list pyval)) :
  listings w fuel (_contexts s) s answers s' ->
  (Forall (Forall (fun v => exists name_slug, repo_fields v name_slug)) answers ->
   exists c, _make_cache w fuel s = (Ok c, s'))
  /\ (forall c s'',
         _make_cache w fuel s = (Ok c, s'') ->
         s'' = s'
         /\ forall pre ctxt post before repo_vals after,
             _contexts s = pre ++ ctxt :: post ->
             answers = before ++ repo_vals :: after ->
             List.length before = List.length pre ->
             ~ In ctxt post ->
             exists repos,
               Cache.find ctxt c = Some repos
               /\ NoDup (Cache.keys repos)
               /\ Forall (fun kv => snd kv = []) repos
               /\ forall k,
                   In k (Cache.keys repos) <->
                   exists v name slug,
                     In v repo_vals
                     /\ field v "name" = Some (PStr name)
                     /\ field v "slug" = Some (PStr slug)
                     /\ PyString.endswith name term = true
                     /\ PyString.endswith slug term = true
                     /\ k = org_key slug).
Proof.
  intros L.
  destruct (make_cache_loop_listed w fuel (_contexts s) answers [] s s' L)
    as (Total & Exact).
  unfold _make_cache, bind, get_self. split; [exact Total|].
  intros c s'' Run. destruct (Exact c s'' Run) as (-> & _ & Per).
  split; [reflexivity|].
  intros pre ctxt post before repo_vals after Ec Ea Len NI.
  destruct (Per pre ctxt post before repo_vals after Ec Ea Len NI)
    as (slugs & names & O & A & F).
  destruct (skeleton_spec names [] (NoDup_nil _) (Forall_nil _)) as (ND & E & K).
  exists (skeleton names []).
  split; [exact F|]. split; [exact ND|]. split; [exact E|].
  intros k. rewrite K. split.
  - intros [[]|(r & Ir & Mr & ->)].
    apply (org_slugs_spec _ _ _ O A) in Ir as (v & name & Iv & Fn & Fs & Mn).
    exists v, name, r. auto 7.
  - intros (v & name & slug & Iv & Fn & Fs & Mn & Ms & ->).
    right. exists slug. split; [|auto].
    apply (org_slugs_spec _ _ _ O A). exists v, name. auto.
Qed.

(** C8, as stated, fails: the listing of [ctx] holds a repository whose
    display name [a-org] ends with the marker, and the skeleton of [ctx]
    has no key at all, because its slug is [a]. *)
Lemma skeleton_leaves_out_marked_name :
  let s := Examples.reader0 ["ctx"%string] in
  fst (_bb_rest_get Examples.w_unmarked_slug 5 "ctx/repos" s)
  = Ok [Examples.repo_val "a-org" "a"]
  /\ field (Examples.repo_val "a-org" "a") "name" = Some (PStr "a-org")
  /\ PyString.endswith "a-org" term = true
  /\ fst (_make_cache Examples.w_unmarked_slug 5 s) = Ok [("ctx"%string, [])].
Proof. cbv zeta. repeat split. Qed.

(** ** Running a method step by step *)

Lemma bind_Ok {A B} (m : M A) (k : A -> M B) (s s1 : reader) (a : A) :
  m s = (Ok a, s1) -> bind m k s = k a s1.
Proof. unfold bind. intros ->. reflexivity. Qed.

Lemma bind_Raise {A B} (m : M A) (k : A -> M B) (s s1 : reader) (e : exn) :
  m s = (Raise e, s1) -> bind m k s = (Raise e, s1).
Proof. unfold bind. intros ->. reflexivity. Qed.

Lemma try_except_Ok {A} (m : M A) (handles : exn -> bool) (h : exn -> M A)
      (s s1 : reader) (a : A) :
  m s = (Ok a, s1) -> try_except m handles h s = (Ok a, s1).
Proof. unfold try_except. intros ->. reflexivity. Qed.

Lemma try_except_caught {A} (m : M A) (handles : exn -> bool) (h : exn -> M A)
      (s s1 : reader) (e : exn) :
  m s = (Raise e, s1) -> handles e = true -> try_except m handles h s = h e s1.
Proof. unfold try_except. intros -> ->. reflexivity. Qed.

Lemma try_except_escapes {A} (m : M A) (handles : exn -> bool) (h : exn -> M A)
      (s s1 : reader) (e : exn) :
  m s = (Raise e, s1) -> handles e = false ->
  try_except m handles h s = (Raise e, s1).
Proof. unfold try_except. intros -> ->. reflexivity. Qed.

Lemma refresh_slugs_app (w : world) (context : string) (pre post : list string) :
  forall c s,
    refresh_slugs w context (pre ++ post) c s
    = bind (refresh_slugs w context pre c)
           (fun c' => refresh_slugs w context post c') s.
Proof.
  induction pre as [|slug pre IH]; intros c s.
  - reflexivity.
  - cbn [refresh_slugs app]. unfold bind.
    destruct (refresh_slug w context slug c s) as [[c1|e|] s1]; try reflexivity.
    rewrite IH. reflexivity.
Qed.

(** ** The first [try] of the slug loop *)

Section OrgConfig.

Variable w : world.

Lemma load_org_file_failure (context slug : string) (s s1 : reader) :
  _load_bb_file w context slug "orgConfig.yml" false s
  = (Raise BBFileLoadFailure, s1) ->
  load_org w context slug s = (Ok None, s1).
Proof.
  intros L. unfold load_org.
  erewrite try_except_caught;
    [reflexivity | apply bind_Raise; exact L | reflexivity].
Qed.

Lemma load_org_no_key (context slug : string) (s s1 : reader)
      (kv : list (pyval * pyval)) :
  _load_bb_file w context slug "orgConfig.yml" false s = (Ok (PDict false kv), s1) ->
  Py.find (PStr "org") kv = None ->
  load_org w context slug s = (Ok None, s1).
Proof.
  intros L F. unfold load_org.
  assert (E : bind (_load_bb_file w context slug "orgConfig.yml" false)
                   (fun odict =>
                      ' (org, odict1) <- lift (PyOps.getitem odict "org") ;;
                      repo <- lift (PyOps.lower org) ;;
                      ret (Some (odict1, repo))) s
              = (Raise KeyError, s1)).
  { erewrite bind_Ok by exact L.
    apply bind_Raise. unfold lift, PyOps.getitem. rewrite F. reflexivity. }
  erewrite try_except_caught; [reflexivity | exact E | reflexivity].
Qed.

Lemma load_org_declared (context slug : string) (s s1 : reader)
      (vivify : bool) (kv : list (pyval * pyval)) (name : string) :
  _load_bb_file w context slug "orgConfig.yml" false s
  = (Ok (PDict vivify kv), s1) ->
  Py.find (PStr "org") kv = Some (PStr name) ->
  load_org w context slug s
  = (Ok (Some (PDict vivify kv, PyString.lower name)), s1).
Proof.
  intros L F. unfold load_org.
  apply try_except_Ok.
  erewrite bind_Ok by exact L.
  unfold bind, lift, PyOps.getitem. rewrite F. reflexivity.
Qed.

(** C10.  When [orgConfig.yml] loads as a mapping that has no [org] key,
    the pass over that slug leaves [new_cache] as it was - no [org], no
    [space], no per-space entry - raises nothing, and the loop goes on to
    the slugs that remain. *)
Theorem org_config_without_org_key_is_skipped (context slug : string)
        (rest : list string) (c : cache_t) (s s1 : reader)
        (kv : list (pyval * pyval)) :
  _load_bb_file w context slug "orgConfig.yml" false s = (Ok (PDict false kv), s1) ->
  Py.find (PStr "org") kv = None ->
  refresh_slug w context slug c s = (Ok c, s1)
  /\ refresh_slugs w context (slug :: rest) c s
     = refresh_slugs w context rest c s1.
Proof.
  intros L F.
  assert (R : refresh_slug w context slug c s = (Ok c, s1)).
  { unfold refresh_slug.
    erewrite bind_Ok by (eapply load_org_no_key; eassumption). reflexivity. }
  split; [exact R|].
  cbn [refresh_slugs]. erewrite bind_Ok by exact R. reflexivity.
Qed.

(** The pass over a slug [X] whose [orgConfig.yml] fails to load leaves
    [new_cache] as it was - nothing is recorded for [X] - and raises
    nothing; the slugs before [X] keep what they stored, and the slugs
    after [X] are processed from that same cache, exactly as if [X] were
    not in the list. *)
Lemma failed_org_config_is_isolated (context X : string)
        (before after : list string) (c c' : cache_t) (s s' s1 : reader) :
  refresh_slugs w context before c s = (Ok c', s') ->
  _load_bb_file w context X "orgConfig.yml" false s'
  = (Raise BBFileLoadFailure, s1) ->
  refresh_slug w context X c' s' = (Ok c', s1)
  /\ refresh_slugs w context (before ++ X :: after) c s
     = refresh_slugs w context after c' s1.
Proof.
  intros B L.
  assert (R : refresh_slug w context X c' s' = (Ok c', s1)).
  { unfold refresh_slug.
    erewrite bind_Ok by (eapply load_org_file_failure; eassumption). reflexivity. }
  split; [exact R|].
  rewrite refresh_slugs_app. erewrite bind_Ok by exact B.
  cbn [refresh_slugs]. erewrite bind_Ok by exact R. reflexivity.
Qed.

End OrgConfig.

(** ** Dictionaries *)

Lemma key_eqb_refl (k : pyval) : Py.hashable k = true -> Py.key_eqb k k = true.
Proof.
  destruct k; simpl; try discriminate; intros _.
  - reflexivity.
  - apply Bool.eqb_reflx.
  - apply Z.eqb_refl.
  - apply String.eqb_refl.
Qed.

Lemma key_eqb_str (s : string) (k : pyval) :
  Py.key_eqb (PStr s) k = true -> k = PStr s.
Proof.
  destruct k; simpl; try discriminate.
  intros E. apply String.eqb_eq in E. congruence.
Qed.

Lemma key_eqb_str_r (s : string) (k : pyval) :
  Py.key_eqb k (PStr s) = true -> k = PStr s.
Proof.
  destruct k; simpl; try discriminate.
  intros E. apply String.eqb_eq in E. congruence.
Qed.

Lemma py_find_set_same (k v : pyval) (e : list (pyval * pyval)) :
  Py.hashable k = true -> Py.find k (Py.set k v e) = Some v.
Proof.
  intros H. induction e as [|[k0 v0] e IH]; simpl.
  - rewrite key_eqb_refl by exact H. reflexivity.
  - destruct (Py.key_eqb k k0) eqn:E; simpl; rewrite E; auto.
Qed.

Lemma py_set_set (k v1 v2 : pyval) (e : list (pyval * pyval)) :
  Py.hashable k = true -> Py.set k v2 (Py.set k v1 e) = Py.set k v2 e.
Proof.
  intros H. induction e as [|[k0 v0] e IH]; simpl.
  - rewrite key_eqb_refl by exact H. reflexivity.
  - destruct (Py.key_eqb k k0) eqn:E; simpl; rewrite E; [reflexivity|].
    f_equal. exact IH.
Qed.

Lemma py_find_set_str (a b : string) (v : pyval) (e : list (pyval * pyval)) :
  Py.find (PStr a) (Py.set (PStr b) v e)
  = if String.eqb a b then Some v else Py.find (PStr a) e.
Proof.
  induction e as [|[k0 v0] e IH].
  - reflexivity.
  - cbn [Py.set Py.find].
    destruct (Py.key_eqb (PStr b) k0) eqn:E.
    + apply key_eqb_str in E. subst k0. cbn [Py.find Py.key_eqb].
      destruct (String.eqb a b); reflexivity.
    + cbn [Py.find].
      destruct (Py.key_eqb (PStr a) k0) eqn:E'.
      * apply key_eqb_str in E'. subst k0. cbn [Py.key_eqb] in E.
        rewrite String.eqb_sym in E. rewrite E. reflexivity.
      * exact IH.
Qed.

Lemma cache_set_set {V} (k : string) (v1 v2 : V) (m : list (string * V)) :
  Cache.set k v2 (Cache.set k v1 m) = Cache.set k v2 m.
Proof.
  induction m as [|[k0 v0] m IH]; simpl.
  - rewrite String.eqb_refl. reflexivity.
  - destruct (String.eqb k k0) eqn:E; simpl; rewrite E; [reflexivity|].
    f_equal. exact IH.
Qed.

Lemma get_entry_inv (c : cache_t) (context repo : string) (e : entry) :
  Cache.get_entry c context repo = Ok e ->
  exists repos, Cache.find context c = Some repos /\ Cache.find repo repos = Some e.
Proof.
  unfold Cache.get_entry.
  destruct (Cache.find context c) as [repos|]; [|discriminate].
  destruct (Cache.find repo repos) as [e'|] eqn:Fr; [|discriminate].
  intros H. injection H as <-. exists repos. split; [reflexivity | exact Fr].
Qed.

Lemma get_entry_put_entry (c : cache_t) (context repo : string) (e e' : entry) :
  Cache.get_entry c context repo = Ok e ->
  Cache.get_entry (Cache.put_entry c context repo e') context repo = Ok e'.
Proof.
  intros G. apply get_entry_inv in G as (repos & Fc & Fr).
  unfold Cache.put_entry, Cache.get_entry. rewrite Fc.
  rewrite cache_find_set_same, cache_find_set_same. reflexivity.
Qed.

Lemma get_entry_put_entry_other (c : cache_t) (context org : string) (e' : entry)
      (context0 org0 : string) :
  context0 <> context \/ org0 <> org ->
  Cache.get_entry (Cache.put_entry c context org e') context0 org0
  = Cache.get_entry c context0 org0.
Proof.
  intros Other. unfold Cache.put_entry, Cache.get_entry.
  destruct (Cache.find context c) as [repos|] eqn:Fc; [|reflexivity].
  destruct (string_dec context0 context) as [->|NE].
  - rewrite cache_find_set_same, Fc.
    destruct Other as [O|O]; [congruence|].
    rewrite cache_find_set_other by exact O. reflexivity.
  - rewrite cache_find_set_other by exact NE. reflexivity.
Qed.

Lemma put_entry_put_entry (c : cache_t) (context repo : string) (e e1 e2 : entry) :
  Cache.get_entry c context repo = Ok e ->
  Cache.put_entry (Cache.put_entry c context repo e1) context repo e2
  = Cache.put_entry c context repo e2.
Proof.
  intros G. apply get_entry_inv in G as (repos & Fc & Fr).
  unfold Cache.put_entry. rewrite Fc.
  rewrite cache_find_set_same, !cache_set_set. reflexivity.
Qed.

(** ** FileLoader *)

Section FileLoader.

Variable w : world.

Lemma _bb_get_file_returns (proj slug filename : string) (s : reader) :
  exists text, fst (_bb_get_file w proj slug filename s) = Ok text.
Proof.
  unfold _bb_get_file.
  pose proof (_request_returns w
    (_bb_proj s +s+ "/" +s+ proj +s+ "/repos/" +s+ slug +s+ "/raw/" +s+ filename)
    false false s) as R.
  destruct (_request w _ false false s) as [[v|e|] s1]; simpl in *.
  - destruct v; simpl; eauto.
  - eauto.
  - congruence.
Qed.

(** [_load_bb_file] hands back a [dict] or a [list], or raises
    [BBFileLoadFailure]; nothing else. *)
Lemma _load_bb_file_outcome (context slug filename : string) (json_content : bool)
      (s : reader) :
  match fst (_load_bb_file w context slug filename json_content s) with
  | Ok v => Py.is_dict_or_list v = true
  | Raise e => e = BBFileLoadFailure
  | Diverge => False
  end.
Proof.
  unfold _load_bb_file, bind.
  destruct (_bb_get_file_returns context slug filename s) as (text & T).
  destruct (_bb_get_file w context slug filename s) as [r s1]. simpl in T. subst r.
  destruct (if json_content then json_loads w text else yaml_load w text)
    as [v|]; [|reflexivity].
  destruct (Py.is_dict_or_list v) eqn:D; [exact D | reflexivity].
Qed.

(** The second [try] never fails: it yields what [spaces.yml] holds, or
    the empty [defaultdict(dict)]. *)
Lemma load_spaces_returns (context slug : string) (s : reader) :
  exists sdict s',
    load_spaces w context slug s = (Ok sdict, s')
    /\ (sdict = PDict true []
        /\ fst (_load_bb_file w context slug "spaces.yml" false s)
           = Raise BBFileLoadFailure
        \/ fst (_load_bb_file w context slug "spaces.yml" false s) = Ok sdict).
Proof.
  unfold load_spaces, try_except.
  pose proof (_load_bb_file_outcome context slug "spaces.yml" false s) as O.
  destruct (_load_bb_file w context slug "spaces.yml" false s) as [[v|e|] s1];
    simpl in O.
  - exists v, s1. auto.
  - subst e. exists (PDict true []), s1. auto.
  - contradiction.
Qed.

End FileLoader.

(** ** The pass over one slug, once its two files are in *)

Lemma store_field_ok (c : cache_t) (context repo : string) (key v : pyval)
      (e : entry) :
  Cache.get_entry c context repo = Ok e ->
  Py.hashable key = true ->
  Cache.store_field c context repo key v
  = Ok (Cache.put_entry c context repo (Py.set key v e)).
Proof. intros G H. unfold Cache.store_field. rewrite G. simpl. rewrite H. reflexivity. Qed.

Lemma store_field_missing (c : cache_t) (context repo : string) (key v : pyval) :
  Cache.get_entry c context repo = Raise KeyError ->
  Cache.store_field c context repo key v = Raise KeyError.
Proof. intros G. unfold Cache.store_field. rewrite G. reflexivity. Qed.

Lemma read_subfield_found (c : cache_t) (context repo : string) (key : pyval)
      (field : string) (e : entry) (sub : pyval) :
  Cache.get_entry c context repo = Ok e ->
  Py.hashable key = true ->
  Py.find key e = Some sub ->
  Cache.read_subfield c context repo key field
  = rbind (PyOps.getitem sub field)
          (fun '(v, sub') =>
             Ok (v, Cache.put_entry c context repo (Py.set key sub' e))).
Proof.
  intros G H F. unfold Cache.read_subfield, Cache.entry_get.
  rewrite G. simpl. rewrite H, F. reflexivity.
Qed.

Section OneSlug.

Variable w : world.

Lemma refresh_slug_declared (context slug repo : string) (c : cache_t)
      (s s1 s2 : reader) (odict sdict : pyval) (e : entry) :
  load_org w context slug s = (Ok (Some (odict, repo)), s1) ->
  load_spaces w context slug s1 = (Ok sdict, s2) ->
  Cache.get_entry c context repo = Ok e ->
  refresh_slug w context slug c s
  = match PyOps.getitem sdict "spaces" with
    | Ok (spaces, sdict') =>
        match PyOps.iterate spaces with
        | Ok xs =>
            refresh_spaces w context slug repo xs
              (Cache.put_entry c context repo
                 (Py.set (PStr "space") sdict' (Py.set (PStr "org") odict e))) s2
        | Raise x => (Raise x, s2)
        | Diverge => (Diverge, s2)
        end
    | Raise x => (Raise x, s2)
    | Diverge => (Diverge, s2)
    end.
Proof.
  intros LO LS G. unfold refresh_slug.
  erewrite bind_Ok by exact LO. cbv beta iota.
  erewrite bind_Ok by exact LS.
  rewrite (store_field_ok c context repo (PStr "org") odict e G eq_refl).
  unfold bind at 1, lift at 1.
  pose proof (get_entry_put_entry c context repo e
                (Py.set (PStr "org") odict e) G) as G1.
  rewrite (store_field_ok _ context repo (PStr "space") sdict _ G1 eq_refl).
  rewrite (put_entry_put_entry _ _ _ _ _ _ G).
  unfold bind at 1, lift at 1.
  pose proof (get_entry_put_entry c context repo e
                (Py.set (PStr "space") sdict (Py.set (PStr "org") odict e)) G) as G2.
  rewrite (read_subfield_found _ context repo (PStr "space") "spaces" _ sdict
                               G2 eq_refl)
    by (apply py_find_set_same; reflexivity).
  unfold bind at 1, lift at 1.
  destruct (PyOps.getitem sdict "spaces") as [[spaces sdict']|x|]; try reflexivity.
  cbn [rbind]. cbv beta iota.
  rewrite (put_entry_put_entry _ _ _ _ _ _ G).
  rewrite py_set_set by reflexivity.
  unfold bind at 1, lift at 1.
  destruct (PyOps.iterate spaces); reflexivity.
Qed.

(** The declared key is looked up in a plain [dict]: one that the
    skeleton does not have is a [KeyError], which no handler of [refresh]
    catches. *)
Lemma refresh_slug_undeclared_key (context slug repo : string) (c : cache_t)
      (s s1 : reader) (odict : pyval) :
  load_org w context slug s = (Ok (Some (odict, repo)), s1) ->
  Cache.get_entry c context repo = Raise KeyError ->
  exists s2, refresh_slug w context slug c s = (Raise KeyError, s2).
Proof.
  intros LO G.
  destruct (load_spaces_returns w context slug s1) as (sdict & s2 & LS & _).
  exists s2. unfold refresh_slug.
  erewrite bind_Ok by exact LO. cbv beta iota.
  erewrite bind_Ok by exact LS.
  rewrite (store_field_missing _ _ _ _ _ G). reflexivity.
Qed.

(** When [spaces.yml] fails to load, the org gets its [org] data and a
    [space] value whose space list is empty; no per-space entry is added
    and nothing is raised. *)
Lemma refresh_slug_spaces_unloadable (context slug repo : string) (c : cache_t)
      (s s1 s2 : reader) (odict : pyval) (e : entry) :
  load_org w context slug s = (Ok (Some (odict, repo)), s1) ->
  _load_bb_file w context slug "spaces.yml" false s1
  = (Raise BBFileLoadFailure, s2) ->
  Cache.get_entry c context repo = Ok e ->
  refresh_slug w context slug c s
  = (Ok (Cache.put_entry c context repo
           (Py.set (PStr "space")
                   (PDict true [(PStr "spaces", PDict false [])])
                   (Py.set (PStr "org") odict e))),
     s2).
Proof.
  intros LO L G.
  assert (LS : load_spaces w context slug s1 = (Ok (PDict true []), s2)).
  { unfold load_spaces.
    erewrite try_except_caught; [reflexivity | exact L | reflexivity]. }
  rewrite (refresh_slug_declared _ _ _ _ _ _ _ _ _ _ LO LS G). reflexivity.
Qed.

(** When [spaces.yml] loads as a mapping without [spaces], the subscript
    on line 338 raises [KeyError], and nothing catches it. *)
Lemma refresh_slug_spaces_field_missing (context slug repo : string)
      (c : cache_t) (s s1 s2 : reader) (odict : pyval) (e : entry)
      (kv : list (pyval * pyval)) :
  load_org w context slug s = (Ok (Some (odict, repo)), s1) ->
  _load_bb_file w context slug "spaces.yml" false s1 = (Ok (PDict false kv), s2) ->
  Py.find (PStr "spaces") kv = None ->
  Cache.get_entry c context repo = Ok e ->
  refresh_slug w context slug c s = (Raise KeyError, s2).
Proof.
  intros LO L F G.
  assert (LS : load_spaces w context slug s1 = (Ok (PDict false kv), s2)).
  { unfold load_spaces. apply try_except_Ok. exact L. }
  rewrite (refresh_slug_declared _ _ _ _ _ _ _ _ _ _ LO LS G).
  unfold PyOps.getitem. rewrite F. reflexivity.
Qed.

End OneSlug.

(** C2, on the code: [repo1-org] has an [orgConfig.yml] declaring
    [org: repo1] and a [spaces.yml] that is a mapping without [spaces].
    [refresh] does not give the org an empty space list and go on: it
    raises [KeyError], and nothing is published. *)
Theorem refresh_aborts_without_spaces_field :
  let s := Examples.reader0 ["ctx"%string] in
  let out := refresh Examples.w_no_spaces_field 5 s in
  yaml_load Examples.w_no_spaces_field "owner: team"
  = Some (PDict false [(PStr "owner", PStr "team")])
  /\ fst (_make_cache Examples.w_no_spaces_field 5 s)
     = Ok [("ctx"%string, [("repo1"%string, [])])]
  /\ fst out = Raise KeyError
  /\ _cache (snd out) = _cache s
  /\ _cache_timestamp (snd out) = None.
Proof. cbv zeta. repeat split. Qed.

(** C7, on the code: the only repository of [ctx] is [a-org], and its
    [orgConfig.yml] declares [org: b].  The skeleton has the key [a]
    alone; [refresh] does not add an entry under [b]: the lookup of [b]
    raises [KeyError], and nothing is published. *)
Theorem refresh_aborts_on_key_outside_skeleton :
  let s := Examples.reader0 ["ctx"%string] in
  let out := refresh Examples.w_declares_other 5 s in
  fst (_make_cache Examples.w_declares_other 5 s)
  = Ok [("ctx"%string, [("a"%string, [])])]
  /\ fst (load_org Examples.w_declares_other "ctx" "a-org"
                  (snd (_make_cache Examples.w_declares_other 5 (tick s))))
     = Ok (Some (PDict false [(PStr "org", PStr "b")], "b"%string))
  /\ fst out = Raise KeyError
  /\ _cache (snd out) = _cache s
  /\ _cache_timestamp (snd out) = None.
Proof. cbv zeta. repeat split. Qed.

(** C9, on the code: [ctx] lists [x-org], [z-org] and [y-org], in this
    order.  The [orgConfig.yml] of [x-org] fails to load, and the pass over
    [x-org] records nothing and raises nothing.  Every file of [y-org]
    loads.  But the [spaces.yml] of [z-org] is a mapping without [spaces]:
    the pass over [z-org] raises [KeyError], [refresh] raises it too, and
    nothing is published - the container of [y] is as empty as [__init__]
    left it.  Without [z-org] the same cycle returns and publishes what
    [y-org] holds. *)
Theorem failed_org_config_then_abort :
  let w := Examples.w_failure_then_abort in
  let s := snd (init w 5 ["ctx"%string] (Examples.reader0 [])) in
  let out := refresh w 5 s in
  let y := [(PStr "org", PDict false [(PStr "org", PStr "y")]);
            (PStr "space", PDict false [(PStr "spaces", PList [PStr "s1"])]);
            (PStr "s1", PDict false [(PStr "security", PList [PInt 1]);
                                     (PStr "space_config",
                                      PDict false [(PStr "quota", PInt 1)])])] in
  _cache s = [("ctx"%string, [("x"%string, []); ("z"%string, []); ("y"%string, [])])]
  /\ fst (_load_bb_file w "ctx" "x-org" "orgConfig.yml" false s)
     = Raise BBFileLoadFailure
  /\ fst (refresh_slug w "ctx" "x-org" (_cache s) s) = Ok (_cache s)
  /\ fst (_load_bb_file w "ctx" "y-org" "orgConfig.yml" false s)
     = Ok (PDict false [(PStr "org", PStr "y")])
  /\ fst (_load_bb_file w "ctx" "y-org" "spaces.yml" false s)
     = Ok (PDict false [(PStr "spaces", PList [PStr "s1"])])
  /\ fst (_load_bb_file w "ctx" "y-org" "s1/security-group.json" true s)
     = Ok (PList [PInt 1])
  /\ fst (_load_bb_file w "ctx" "y-org" "s1/spaceConfig.yml" false s)
     = Ok (PDict false [(PStr "quota", PInt 1)])
  /\ Cache.get_entry
       (match fst (refresh_slug w "ctx" "y-org" (_cache s) s) with
        | Ok c => c
        | _ => []
        end) "ctx" "y" = Ok y
  /\ fst (refresh_slug w "ctx" "z-org" (_cache s) s) = Raise KeyError
  /\ fst out = Raise KeyError
  /\ _cache (snd out) = _cache s
  /\ Cache.get_entry (_cache (snd out)) "ctx" "y" = Ok []
  /\ _cache_timestamp (snd out) = None
  /\ (let w' := Examples.w_failure_only in
      let s' := snd (init w' 5 ["ctx"%string] (Examples.reader0 [])) in
      fst (refresh w' 5 s') = Ok tt
      /\ Cache.get_entry (_cache (snd (refresh w' 5 s'))) "ctx" "x" = Ok []
      /\ Cache.get_entry (_cache (snd (refresh w' 5 s'))) "ctx" "y" = Ok y).
Proof. cbv zeta. repeat split; vm_compute; reflexivity. Qed.

(** ** Keys that compare equal *)

Lemma key_eqb_sym (a b : pyval) : Py.key_eqb a b = Py.key_eqb b a.
Proof.
  destruct a, b; simpl; try reflexivity.
  - destruct b0, b; reflexivity.
  - apply Z.eqb_sym.
  - apply String.eqb_sym.
Qed.

Lemma key_eqb_right (a b k : pyval) :
  Py.key_eqb b k = true -> Py.key_eqb a k = Py.key_eqb a b.
Proof.
  destruct b, k; cbn [Py.key_eqb]; intros H; try discriminate H;
    try (apply Bool.eqb_prop in H); try (apply Z.eqb_eq in H);
    try (apply String.eqb_eq in H); subst; try reflexivity;
    destruct a; cbn [Py.key_eqb]; try reflexivity.
  all: repeat match goal with b : bool |- _ => destruct b end;
    try reflexivity; try apply Z.eqb_sym.
Qed.

Lemma key_eqb_left (a b k : pyval) :
  Py.key_eqb a b = true -> Py.key_eqb a k = Py.key_eqb b k.
Proof.
  intros H. rewrite (key_eqb_sym a k), (key_eqb_sym b k).
  symmetry. apply key_eqb_right. exact H.
Qed.

Lemma py_find_set (a b v : pyval) (e : list (pyval * pyval)) :
  Py.find a (Py.set b v e)
  = if Py.key_eqb a b then Some v else Py.find a e.
Proof.
  induction e as [|[k0 v0] e IH].
  - reflexivity.
  - cbn [Py.set Py.find].
    destruct (Py.key_eqb b k0) eqn:E; cbn [Py.find].
    + rewrite (key_eqb_right a b k0 E).
      destruct (Py.key_eqb a b); reflexivity.
    + destruct (Py.key_eqb a k0) eqn:E'.
      * destruct (Py.key_eqb a b) eqn:E''; [|reflexivity].
        rewrite (key_eqb_left a b k0 E'') in E'. congruence.
      * exact IH.
Qed.

Lemma reserved_eqb (k k0 : pyval) :
  Py.key_eqb k k0 = true -> reserved k0 = reserved k.
Proof.
  intros H. unfold reserved.
  rewrite (key_eqb_right (PStr "org") k k0 H).
  rewrite (key_eqb_right (PStr "space") k k0 H). reflexivity.
Qed.

(** What [d[k] = v] leaves in the list. *)
Lemma py_set_In (k v : pyval) (e : list (pyval * pyval)) (k0 v0 : pyval) :
  In (k0, v0) (Py.set k v e) ->
  In (k0, v0) e \/ (v0 = v /\ (k0 = k \/ Py.key_eqb k k0 = true)).
Proof.
  induction e as [|[k1 v1] e IH]; cbn [Py.set].
  - intros [H|[]]. injection H as <- <-. right. auto.
  - destruct (Py.key_eqb k k1) eqn:E.
    + intros [H|H].
      * injection H as <- <-. right. auto.
      * left. right. exact H.
    + intros [H|H].
      * left. left. exact H.
      * destruct (IH H) as [I|R]; [left; right; exact I | right; exact R].
Qed.

(** ** Properties of every org container of a cache *)

Lemma cache_find_In {V} (k : string) (v : V) (m : list (string * V)) :
  Cache.find k m = Some v -> exists k', In (k', v) m.
Proof.
  induction m as [|[k0 v0] m IH]; simpl; [discriminate|].
  destruct (String.eqb k k0).
  - intros H. injection H as <-. exists k0. left. reflexivity.
  - intros H. destruct (IH H) as (k' & I). exists k'. right. exact I.
Qed.

Lemma cache_all_get_entry (P : entry -> Prop) (c : cache_t)
      (context repo : string) (e : entry) :
  cache_all P c -> Cache.get_entry c context repo = Ok e -> P e.
Proof.
  intros A G. apply get_entry_inv in G as (repos & Fc & Fr).
  apply cache_find_In in Fc as (k1 & I1). apply cache_find_In in Fr as (k2 & I2).
  unfold cache_all in A. rewrite Forall_forall in A.
  specialize (A _ I1). simpl in A. rewrite Forall_forall in A.
  exact (A _ I2).
Qed.

Lemma cache_all_put_entry (P : entry -> Prop) (c : cache_t)
      (context repo : string) (e : entry) :
  cache_all P c -> P e -> cache_all P (Cache.put_entry c context repo e).
Proof.
  intros A Pe. unfold Cache.put_entry.
  destruct (Cache.find context c) as [repos|] eqn:Fc; [|exact A].
  apply (cache_set_values (fun rs : repo_map => Forall (fun re => P (snd re)) rs));
    [|exact A].
  apply (cache_set_values P); [exact Pe|].
  apply cache_find_In in Fc as (k1 & I1).
  unfold cache_all in A. rewrite Forall_forall in A. exact (A _ I1).
Qed.

Lemma cache_all_impl (P Q : entry -> Prop) (c : cache_t) :
  (forall e, P e -> Q e) -> cache_all P c -> cache_all Q c.
Proof.
  intros PQ A. unfold cache_all in *.
  eapply Forall_impl; [|exact A]. intros [k repos] H. simpl in *.
  eapply Forall_impl; [|exact H]. intros [k' e] He. apply PQ. exact He.
Qed.

Lemma get_entry_cases (c : cache_t) (context repo : string) :
  (exists e, Cache.get_entry c context repo = Ok e)
  \/ Cache.get_entry c context repo = Raise KeyError.
Proof.
  unfold Cache.get_entry.
  destruct (Cache.find context c) as [repos|]; [|auto].
  destruct (Cache.find repo repos) as [e|]; eauto.
Qed.

(** ** The space loop *)

Lemma paired_with_pair (sub sec_dict spc_dict : pyval) :
  is_dict sub = true ->
  Py.is_none sec_dict = Py.is_none spc_dict ->
  paired (with_pair sub sec_dict spc_dict).
Proof.
  destruct sub as [| | | | |vivify kv]; try discriminate. intros _ N.
  exists sec_dict, spc_dict. unfold with_pair, field.
  rewrite !py_find_set_str. simpl. auto.
Qed.

Lemma step_closed_has_pair (x : pyval) :
  step_closed (fun e => exists v, Py.find x e = Some v /\ paired v).
Proof.
  intros e space sec spc (v & F & Pv) H D N. unfold store_pair.
  rewrite py_find_set. destruct (Py.key_eqb x space).
  - eexists. split; [reflexivity|]. apply paired_with_pair; assumption.
  - exists v. auto.
Qed.

Lemma step_closed_sub_entries :
  step_closed (fun e => forall k v, In (k, v) e -> reserved k = false -> paired v).
Proof.
  intros e space sec spc Inv H D N k v I R. unfold store_pair in I.
  apply py_set_In in I as [I|(-> & _)].
  - exact (Inv k v I R).
  - apply paired_with_pair; assumption.
Qed.

Lemma step_closed_space_list (spaces : pyval) :
  step_closed (fun e => exists sd, Py.find (PStr "space") e = Some sd
                                   /\ field sd "spaces" = Some spaces).
Proof.
  intros e space sec spc (sd & F & Fs) H D N. unfold store_pair.
  rewrite py_find_set. destruct (Py.key_eqb (PStr "space") space) eqn:E.
  - apply key_eqb_str in E. subst space.
    unfold old_or_empty in *. rewrite F in *.
    destruct sd as [| | | | |vivify kv]; try discriminate.
    eexists. split; [reflexivity|]. unfold with_pair, field in *.
    rewrite !py_find_set_str. simpl. exact Fs.
  - exists sd. auto.
Qed.

Lemma org_spaces_of_list (e : entry) (sd spaces : pyval) :
  Py.find (PStr "space") e = Some sd ->
  field sd "spaces" = Some spaces ->
  org_spaces e = match Py.iter spaces with Some xs => xs | None => [] end.
Proof. intros F Fs. unfold org_spaces. rewrite F, Fs. reflexivity. Qed.

Lemma store_pair_eq (c c1 c2 : cache_t) (context repo : string) (e : entry)
      (space sec_dict spc_dict : pyval) :
  Cache.get_entry c context repo = Ok e ->
  Cache.store_subfield c context repo space "security" sec_dict = Ok c1 ->
  Cache.store_subfield c1 context repo space "space_config" spc_dict = Ok c2 ->
  Py.hashable space = true
  /\ is_dict (old_or_empty e space) = true
  /\ c2 = Cache.put_entry c context repo (store_pair e space sec_dict spc_dict).
Proof.
  intros G S1 S2.
  unfold Cache.store_subfield, Cache.entry_get in S1. rewrite G in S1.
  cbn [rbind] in S1.
  destruct (Py.hashable space) eqn:H; [|discriminate S1].
  assert (exists vivify kv,
             old_or_empty e space = PDict vivify kv
             /\ c1 = Cache.put_entry c context repo
                       (Py.set space
                          (PDict vivify (Py.set (PStr "security") sec_dict kv)) e))
    as (vivify & kv & O & ->).
  { unfold old_or_empty. destruct (Py.find space e) as [sub|] eqn:F.
    - cbn [rbind] in S1.
      destruct sub as [| | | | |vivify kv]; try discriminate S1.
      cbn [PyOps.setitem rbind] in S1. injection S1 as <-.
      exists vivify, kv. auto.
    - cbn [rbind PyOps.setitem] in S1. injection S1 as <-.
      exists false, []. rewrite py_set_set by exact H. auto. }
  pose proof (get_entry_put_entry c context repo e
                (Py.set space (PDict vivify (Py.set (PStr "security") sec_dict kv)) e)
                G) as G1.
  unfold Cache.store_subfield, Cache.entry_get in S2. rewrite G1 in S2.
  cbn [rbind] in S2. rewrite H in S2.
  rewrite (py_find_set_same _ _ _ H) in S2.
  cbn [rbind PyOps.setitem] in S2. injection S2 as <-.
  split; [reflexivity|]. split; [rewrite O; reflexivity|].
  rewrite (put_entry_put_entry _ _ _ _ _ _ G).
  rewrite py_set_set by exact H.
  unfold store_pair, with_pair. rewrite O. reflexivity.
Qed.

Section SpacePairs.

Variable w : world.

(** The [try] of the space loop, spelled out: both values when both files
    load, [(None, None)] as soon as one does not - and when the first does
    not, the second is not asked for. *)
Lemma load_space_pair_eq (context slug : string) (space : pyval) (s : reader) :
  load_space_pair w context slug space s
  = match _load_bb_file w context slug
                        (py_str w space +s+ "/security-group.json") true s with
    | (Ok sec_dict, s1) =>
        match _load_bb_file w context slug
                            (py_str w space +s+ "/spaceConfig.yml") false s1 with
        | (Ok spc_dict, s2) => (Ok (sec_dict, spc_dict), s2)
        | (_, s2) => (Ok (PNone, PNone), s2)
        end
    | (_, s1) => (Ok (PNone, PNone), s1)
    end.
Proof.
  unfold load_space_pair, try_except, bind.
  pose proof (_load_bb_file_outcome w context slug
                (py_str w space +s+ "/security-group.json") true s) as O1.
  destruct (_load_bb_file w context slug _ true s) as [[sec|e|] s1]; simpl in O1.
  - pose proof (_load_bb_file_outcome w context slug
                  (py_str w space +s+ "/spaceConfig.yml") false s1) as O2.
    destruct (_load_bb_file w context slug _ false s1) as [[spc|e|] s2];
      simpl in O2.
    + reflexivity.
    + subst e. reflexivity.
    + contradiction.
  - subst e. reflexivity.
  - contradiction.
Qed.

Lemma load_space_pair_outcome (context slug : string) (space : pyval) (s : reader) :
  exists sec_dict spc_dict s',
    load_space_pair w context slug space s = (Ok (sec_dict, spc_dict), s')
    /\ (sec_dict = PNone /\ spc_dict = PNone
        \/ Py.is_dict_or_list sec_dict = true
           /\ Py.is_dict_or_list spc_dict = true).
Proof.
  rewrite load_space_pair_eq.
  pose proof (_load_bb_file_outcome w context slug
                (py_str w space +s+ "/security-group.json") true s) as O1.
  destruct (_load_bb_file w context slug _ true s) as [[sec|e|] s1]; simpl in O1.
  - pose proof (_load_bb_file_outcome w context slug
                  (py_str w space +s+ "/spaceConfig.yml") false s1) as O2.
    destruct (_load_bb_file w context slug _ false s1) as [[spc|e|] s2];
      simpl in O2; eauto 7.
  - eauto 7.
  - eauto 7.
Qed.

Lemma pair_is_none (sec_dict spc_dict : pyval) :
  sec_dict = PNone /\ spc_dict = PNone
  \/ Py.is_dict_or_list sec_dict = true /\ Py.is_dict_or_list spc_dict = true ->
  Py.is_none sec_dict = Py.is_none spc_dict.
Proof.
  intros [(-> & ->)|(A & B)]; [reflexivity|].
  destruct sec_dict, spc_dict; simpl in *; congruence.
Qed.

Lemma refresh_spaces_spec (context slug repo : string) (c : cache_t) (e0 : entry) :
  Cache.get_entry c context repo = Ok e0 ->
  forall spaces e s c' s',
    refresh_spaces w context slug repo spaces (Cache.put_entry c context repo e) s
    = (Ok c', s') ->
    exists e',
      c' = Cache.put_entry c context repo e'
      /\ (forall Inv, step_closed Inv -> Inv e -> Inv e')
      /\ (forall x, In x spaces -> exists v, Py.find x e' = Some v /\ paired v).
Proof.
  intros G. induction spaces as [|space rest IH]; intros e s c' s' R.
  - simpl in R. injection R as <- <-. exists e.
    split; [reflexivity|]. split; [auto | intros x []].
  - cbn [refresh_spaces] in R.
    apply bind_Ok_inv in R as ([sec spc] & s1 & L & R).
    apply bind_Ok_inv in R as (c1 & s2 & S1 & R).
    apply lift_Ok_inv in S1 as (S1 & ->).
    apply bind_Ok_inv in R as (c2 & s3 & S2 & R).
    apply lift_Ok_inv in S2 as (S2 & ->).
    destruct (load_space_pair_outcome context slug space s)
      as (sec' & spc' & s1' & L' & Shape).
    rewrite L in L'. injection L' as <- <- <-.
    apply pair_is_none in Shape.
    destruct (store_pair_eq _ _ _ _ _ _ _ _ _
                (get_entry_put_entry c context repo e0 e G) S1 S2)
      as (H & D & ->).
    rewrite (put_entry_put_entry _ _ _ _ _ _ G) in R.
    destruct (IH _ _ _ _ R) as (e' & -> & Closed & Rest).
    exists e'. split; [reflexivity|]. split.
    + intros Inv C I. apply Closed; [exact C|]. apply C; assumption.
    + intros x [<-|I]; [|exact (Rest x I)].
      apply (Closed _ (step_closed_has_pair space)).
      unfold store_pair. rewrite (py_find_set_same _ _ _ H).
      eexists. split; [reflexivity|]. apply paired_with_pair; assumption.
Qed.

(** *** What lines 353-354 record *)

Lemma load_space_pair_noneness (context slug : string) (space : pyval)
      (s s' : reader) (sec_dict spc_dict : pyval) :
  load_space_pair w context slug space s = (Ok (sec_dict, spc_dict), s') ->
  Py.is_none sec_dict = Py.is_none spc_dict.
Proof.
  intros L.
  destruct (load_space_pair_outcome context slug space s)
    as (sec & spc & s1 & L' & Shape).
  rewrite L in L'. injection L' as <- <- <-.
  apply pair_is_none. exact Shape.
Qed.

Lemma step_closed_lift (context slug : string) (Inv : entry -> Prop) :
  step_closed Inv -> step_closed_from w context slug Inv.
Proof.
  intros C e space s sec spc s' I H D L.
  apply C; [exact I | exact H | exact D |].
  eapply load_space_pair_noneness. exact L.
Qed.

Lemma with_pair_fields (sub sec_dict spc_dict : pyval) :
  is_dict sub = true ->
  field (with_pair sub sec_dict spc_dict) "security" = Some sec_dict
  /\ field (with_pair sub sec_dict spc_dict) "space_config" = Some spc_dict.
Proof.
  destruct sub as [| | | | |vivify kv]; try discriminate. intros _.
  unfold with_pair, field. rewrite !py_find_set_str. simpl. auto.
Qed.

Lemma step_closed_from_has_record (context slug : string) (x : pyval) :
  step_closed_from w context slug
    (fun e => exists v, Py.find x e = Some v /\ yielded w context x v).
Proof.
  intros e space s sec spc s' (v & F & Y) H D L. unfold store_pair.
  rewrite py_find_set. destruct (Py.key_eqb x space) eqn:E.
  - eexists. split; [reflexivity|].
    destruct (with_pair_fields (old_or_empty e space) sec spc D) as (Fs & Fc).
    exists slug, space, s, sec, spc, s'. auto.
  - exists v. auto.
Qed.

Lemma store_subfield_returns (c : cache_t) (context repo : string)
      (e : entry) (key : pyval) (fld : string) (v : pyval) :
  Cache.get_entry c context repo = Ok e ->
  Py.hashable key = true ->
  is_dict (old_or_empty e key) = true ->
  exists e1,
    Cache.store_subfield c context repo key fld v
    = Ok (Cache.put_entry c context repo e1)
    /\ is_dict (old_or_empty e1 key) = true.
Proof.
  intros G H D. unfold Cache.store_subfield, Cache.entry_get.
  rewrite G. cbn [rbind]. rewrite H. unfold old_or_empty in D.
  destruct (Py.find key e) as [sub|] eqn:F.
  - destruct sub as [| | | | |vivify kv]; try discriminate D.
    cbn [rbind PyOps.setitem]. eexists. split; [reflexivity|].
    unfold old_or_empty. rewrite (py_find_set_same _ _ _ H). reflexivity.
  - cbn [rbind PyOps.setitem]. eexists. split; [reflexivity|].
    unfold old_or_empty. rewrite (py_find_set_same _ _ _ H). reflexivity.
Qed.

(** One round of the space loop: the pair the [try] yielded goes into the
    sub-entry of the space, and the loop goes on. *)
Lemma refresh_spaces_step (context slug repo : string) (space : pyval)
      (rest : list pyval) (c : cache_t) (e : entry) (s s1 : reader)
      (sec_dict spc_dict : pyval) :
  Cache.get_entry c context repo = Ok e ->
  load_space_pair w context slug space s = (Ok (sec_dict, spc_dict), s1) ->
  Py.hashable space = true ->
  is_dict (old_or_empty e space) = true ->
  refresh_spaces w context slug repo (space :: rest) c s
  = refresh_spaces w context slug repo rest
      (Cache.put_entry c context repo (store_pair e space sec_dict spc_dict)) s1.
Proof.
  intros G L H D.
  destruct (store_subfield_returns c context repo e space "security" sec_dict
              G H D) as (e1 & S1 & D1).
  destruct (store_subfield_returns (Cache.put_entry c context repo e1)
              context repo e1 space "space_config" spc_dict
              (get_entry_put_entry _ _ _ _ _ G) H D1) as (e2 & S2 & _).
  destruct (store_pair_eq _ _ _ _ _ _ _ _ _ G S1 S2) as (_ & _ & E).
  cbn [refresh_spaces]. unfold bind at 1. rewrite L.
  unfold bind at 1, lift at 1. rewrite S1.
  unfold bind at 1, lift at 1. rewrite S2, E. reflexivity.
Qed.

Lemma refresh_spaces_recorded (context slug repo : string) (c : cache_t)
      (e0 : entry) :
  Cache.get_entry c context repo = Ok e0 ->
  forall spaces e s c' s',
    refresh_spaces w context slug repo spaces (Cache.put_entry c context repo e) s
    = (Ok c', s') ->
    exists e',
      c' = Cache.put_entry c context repo e'
      /\ (forall Inv, step_closed_from w context slug Inv -> Inv e -> Inv e')
      /\ (forall x, In x spaces ->
                    exists v, Py.find x e' = Some v /\ yielded w context x v).
Proof.
  intros G. induction spaces as [|space rest IH]; intros e s c' s' R.
  - simpl in R. injection R as <- <-. exists e.
    split; [reflexivity|]. split; [auto | intros x []].
  - pose proof R as R0. cbn [refresh_spaces] in R0.
    apply bind_Ok_inv in R0 as ([sec spc] & s1 & L & R0).
    apply bind_Ok_inv in R0 as (c1 & s2 & S1 & R0).
    apply lift_Ok_inv in S1 as (S1 & ->).
    apply bind_Ok_inv in R0 as (c2 & s3 & S2 & R0).
    apply lift_Ok_inv in S2 as (S2 & ->).
    destruct (store_pair_eq _ _ _ _ _ _ _ _ _
                (get_entry_put_entry c context repo e0 e G) S1 S2)
      as (H & D & ->).
    rewrite (put_entry_put_entry _ _ _ _ _ _ G) in R0.
    destruct (IH _ _ _ _ R0) as (e' & -> & Closed & Rest).
    exists e'. split; [reflexivity|]. split.
    + intros Inv C I. apply Closed; [exact C|]. eapply C; eassumption.
    + intros x [<-|I]; [|exact (Rest x I)].
      apply (Closed _ (step_closed_from_has_record context slug space)).
      unfold store_pair. rewrite (py_find_set_same _ _ _ H).
      eexists. split; [reflexivity|].
      destruct (with_pair_fields (old_or_empty e space) sec spc D) as (Fs & Fc).
      exists slug, space, s, sec, spc, s1.
      split; [apply key_eqb_refl; exact H|]. auto.
Qed.

End SpacePairs.

(** ** Pairing, from one slug to the whole cycle *)

Lemma getitem_field (sd : pyval) (key : string) (v sd' : pyval) :
  PyOps.getitem sd key = Ok (v, sd') -> field sd' key = Some v.
Proof.
  destruct sd as [| | | | |vivify kv]; try discriminate.
  unfold PyOps.getitem.
  destruct (Py.find (PStr key) kv) as [v0|] eqn:F.
  - intros H. injection H as <- <-. exact F.
  - destruct vivify; [|discriminate].
    intros H. injection H as <- <-. simpl.
    apply py_find_set_same. reflexivity.
Qed.

Lemma entry_paired_nil : entry_paired [].
Proof. split; [intros k v [] | intros x []]. Qed.

Lemma reserved_space_key (k : pyval) (name : string) :
  name = "org"%string \/ name = "space"%string ->
  k = PStr name \/ Py.key_eqb (PStr name) k = true ->
  reserved k = true.
Proof.
  intros N [->|E].
  - destruct N as [->| ->]; reflexivity.
  - apply key_eqb_str in E. subst k. destruct N as [->| ->]; reflexivity.
Qed.

Section Pairing.

Variable w : world.

Lemma refresh_slug_paired (context slug : string) (c c' : cache_t) (s s' : reader) :
  cache_all entry_paired c ->
  refresh_slug w context slug c s = (Ok c', s') ->
  cache_all entry_paired c'.
Proof.
  intros A R.
  destruct (load_org w context slug s) as [[[[odict repo]|]|x|] s1] eqn:LO.
  - destruct (load_spaces_returns w context slug s1) as (sdict & s2 & LS & _).
    destruct (get_entry_cases c context repo) as [(e & G)|G].
    + rewrite (refresh_slug_declared w _ _ _ _ _ _ _ _ _ _ LO LS G) in R.
      destruct (PyOps.getitem sdict "spaces") as [[spaces sdict']|x|] eqn:GI;
        try discriminate R.
      destruct (PyOps.iterate spaces) as [xs|x|] eqn:IT; try discriminate R.
      apply (refresh_spaces_spec w _ _ _ _ e G) in R
        as (e' & -> & Closed & Listed).
      apply cache_all_put_entry; [exact A|].
      destruct (cache_all_get_entry _ _ _ _ _ A G) as (Sub & _).
      split.
      * apply (Closed _ step_closed_sub_entries).
        intros k v I Rk.
        apply py_set_In in I as [I|(-> & K)].
        -- apply py_set_In in I as [I|(-> & K)].
           ++ exact (Sub k v I Rk).
           ++ rewrite (reserved_space_key k "org") in Rk; auto. discriminate.
        -- rewrite (reserved_space_key k "space") in Rk; auto. discriminate.
      * assert (S0 : exists sd,
                   Py.find (PStr "space")
                           (Py.set (PStr "space") sdict'
                                   (Py.set (PStr "org") odict e)) = Some sd
                   /\ field sd "spaces" = Some spaces).
        { exists sdict'. split; [apply py_find_set_same; reflexivity|].
          eapply getitem_field. exact GI. }
        apply (Closed _ (step_closed_space_list spaces)) in S0 as (sd & F & Fs).
        intros x I. apply Listed.
        rewrite (org_spaces_of_list _ _ _ F Fs) in I.
        unfold PyOps.iterate in IT.
        destruct (Py.iter spaces) as [xs'|]; [|discriminate IT].
        injection IT as <-. exact I.
    + destruct (refresh_slug_undeclared_key w _ _ _ c _ _ _ LO G) as (s2' & E).
      rewrite E in R. discriminate R.
  - unfold refresh_slug in R. erewrite bind_Ok in R by exact LO.
    injection R as <- <-. exact A.
  - unfold refresh_slug, bind in R. rewrite LO in R. discriminate R.
  - unfold refresh_slug, bind in R. rewrite LO in R. discriminate R.
Qed.

Lemma refresh_slugs_paired (context : string) (sluglist : list string) :
  forall c c' s s',
    cache_all entry_paired c ->
    refresh_slugs w context sluglist c s = (Ok c', s') ->
    cache_all entry_paired c'.
Proof.
  induction sluglist as [|slug rest IH]; intros c c' s s' A R.
  - simpl in R. injection R as <- <-. exact A.
  - cbn [refresh_slugs] in R.
    apply bind_Ok_inv in R as (c1 & s1 & R1 & R).
    eapply IH; [|exact R]. eapply refresh_slug_paired; eassumption.
Qed.

Lemma refresh_contexts_paired (contexts : list string) :
  forall c c' s s',
    cache_all entry_paired c ->
    refresh_contexts w contexts c s = (Ok c', s') ->
    cache_all entry_paired c'.
Proof.
  induction contexts as [|context rest IH]; intros c c' s s' A R.
  - simpl in R. injection R as <- <-. exact A.
  - cbn [refresh_contexts] in R.
    destruct (Cache.find context c) as [repolist|]; [|eapply IH; eassumption].
    apply bind_Ok_inv in R as (c1 & s1 & R1 & R).
    eapply IH; [|exact R]. eapply refresh_slugs_paired; eassumption.
Qed.

Lemma make_cache_loop_empty (fuel : nat) (contexts : list string) :
  forall acc c s s',
    cache_all (fun e => e = []) acc ->
    make_cache_loop w fuel contexts acc s = (Ok c, s') ->
    cache_all (fun e => e = []) c.
Proof.
  induction contexts as [|ctxt rest IH]; intros acc c s s' A R.
  - simpl in R. injection R as <- <-. exact A.
  - cbn [make_cache_loop] in R.
    apply bind_Ok_inv in R as (names & s1 & N & R).
    eapply IH; [|exact R].
    apply (cache_set_values
             (fun rs : repo_map => Forall (fun re => snd re = []) rs));
      [|exact A].
    apply (skeleton_spec names [] (NoDup_nil _) (Forall_nil _)).
Qed.

Lemma _make_cache_paired (fuel : nat) (c : cache_t) (s s' : reader) :
  _make_cache w fuel s = (Ok c, s') -> cache_all entry_paired c.
Proof.
  unfold _make_cache, bind, get_self. intros R.
  apply (cache_all_impl (fun e => e = [])).
  - intros e ->. apply entry_paired_nil.
  - eapply make_cache_loop_empty; [|exact R]. constructor.
Qed.

Lemma build_new_cache_paired (fuel : nat) (c : cache_t) (s s' : reader) :
  build_new_cache w fuel s = (Ok c, s') -> cache_all entry_paired c.
Proof.
  unfold build_new_cache. intros R.
  apply bind_Ok_inv in R as (c0 & s0 & Mk & R).
  eapply refresh_contexts_paired; [|exact R].
  eapply _make_cache_paired. exact Mk.
Qed.

(** What a [refresh] that returns has published. *)
Lemma refresh_Ok_inv (fuel : nat) (s s' : reader) (u : unit) :
  refresh w fuel s = (Ok u, s') ->
  exists s1, build_new_cache w fuel (tick s) = (Ok (_cache s'), s1).
Proof.
  unfold refresh. intros R.
  apply bind_Ok_inv in R as (t0 & s0 & N & R).
  unfold now in N. injection N as _ <-.
  apply bind_Ok_inv in R as (nc & s1 & B & R).
  unfold publish, bind, now, modify in R. injection R as _ <-.
  exists s1. exact B.
Qed.

(** *** Recorded pairs, from one slug to the whole cycle *)

Lemma refresh_slug_recorded (context slug : string) (c c' : cache_t)
      (s s' : reader) :
  (forall context0 repo0 e0,
      Cache.get_entry c context0 repo0 = Ok e0 -> entry_recorded w context0 e0) ->
  refresh_slug w context slug c s = (Ok c', s') ->
  forall context0 repo0 e0,
    Cache.get_entry c' context0 repo0 = Ok e0 -> entry_recorded w context0 e0.
Proof.
  intros A R.
  destruct (load_org w context slug s) as [[[[odict repo]|]|x|] s1] eqn:LO.
  - destruct (load_spaces_returns w context slug s1) as (sdict & s2 & LS & _).
    destruct (get_entry_cases c context repo) as [(e & G)|G].
    + rewrite (refresh_slug_declared w _ _ _ _ _ _ _ _ _ _ LO LS G) in R.
      destruct (PyOps.getitem sdict "spaces") as [[spaces sdict']|x|] eqn:GI;
        try discriminate R.
      destruct (PyOps.iterate spaces) as [xs|x|] eqn:IT; try discriminate R.
      apply (refresh_spaces_recorded w _ _ _ _ e G) in R
        as (e' & -> & Closed & Listed).
      intros context0 repo0 e0 G0.
      destruct (string_dec context0 context) as [->|NEc];
        [destruct (string_dec repo0 repo) as [->|NEr]|].
      * rewrite (get_entry_put_entry _ _ _ _ _ G) in G0. injection G0 as <-.
        assert (S0 : exists sd,
                   Py.find (PStr "space")
                           (Py.set (PStr "space") sdict'
                                   (Py.set (PStr "org") odict e)) = Some sd
                   /\ field sd "spaces" = Some spaces).
        { exists sdict'. split; [apply py_find_set_same; reflexivity|].
          eapply getitem_field. exact GI. }
        apply (Closed _ (step_closed_lift w context slug _
                           (step_closed_space_list spaces)))
          in S0 as (sd & F & Fs).
        intros x I. apply Listed.
        rewrite (org_spaces_of_list _ _ _ F Fs) in I.
        unfold PyOps.iterate in IT.
        destruct (Py.iter spaces) as [xs'|]; [|discriminate IT].
        injection IT as <-. exact I.
      * rewrite get_entry_put_entry_other in G0 by (right; exact NEr).
        exact (A _ _ _ G0).
      * rewrite get_entry_put_entry_other in G0 by (left; exact NEc).
        exact (A _ _ _ G0).
    + destruct (refresh_slug_undeclared_key w _ _ _ c _ _ _ LO G) as (s2' & E).
      rewrite E in R. discriminate R.
  - unfold refresh_slug in R. erewrite bind_Ok in R by exact LO.
    injection R as <- <-. exact A.
  - unfold refresh_slug, bind in R. rewrite LO in R. discriminate R.
  - unfold refresh_slug, bind in R. rewrite LO in R. discriminate R.
Qed.

Lemma refresh_slugs_recorded (context : string) (sluglist : list string) :
  forall c c' s s',
    (forall context0 repo0 e0,
        Cache.get_entry c context0 repo0 = Ok e0 -> entry_recorded w context0 e0) ->
    refresh_slugs w context sluglist c s = (Ok c', s') ->
    forall context0 repo0 e0,
      Cache.get_entry c' context0 repo0 = Ok e0 -> entry_recorded w context0 e0.
Proof.
  induction sluglist as [|slug rest IH]; intros c c' s s' A R.
  - simpl in R. injection R as <- <-. exact A.
  - cbn [refresh_slugs] in R.
    apply bind_Ok_inv in R as (c1 & s1 & R1 & R).
    eapply IH; [|exact R]. eapply refresh_slug_recorded; eassumption.
Qed.

Lemma refresh_contexts_recorded (contexts : list string) :
  forall c c' s s',
    (forall context0 repo0 e0,
        Cache.get_entry c context0 repo0 = Ok e0 -> entry_recorded w context0 e0) ->
    refresh_contexts w contexts c s = (Ok c', s') ->
    forall context0 repo0 e0,
      Cache.get_entry c' context0 repo0 = Ok e0 -> entry_recorded w context0 e0.
Proof.
  induction contexts as [|context rest IH]; intros c c' s s' A R.
  - simpl in R. injection R as <- <-. exact A.
  - cbn [refresh_contexts] in R.
    destruct (Cache.find context c) as [repolist|]; [|eapply IH; eassumption].
    apply bind_Ok_inv in R as (c1 & s1 & R1 & R).
    eapply IH; [|exact R]. eapply refresh_slugs_recorded; eassumption.
Qed.

Lemma build_new_cache_recorded (fuel : nat) (c : cache_t) (s s' : reader) :
  build_new_cache w fuel s = (Ok c, s') ->
  forall context repo e,
    Cache.get_entry c context repo = Ok e -> entry_recorded w context e.
Proof.
  unfold build_new_cache. intros R.
  apply bind_Ok_inv in R as (c0 & s0 & Mk & R).
  eapply refresh_contexts_recorded; [|exact R].
  intros context0 repo0 e0 G0.
  unfold _make_cache, bind, get_self in Mk.
  assert (A : cache_all (fun e => e = []) c0).
  { eapply make_cache_loop_empty; [|exact Mk]. constructor. }
  pose proof (cache_all_get_entry _ _ _ _ _ A G0) as ->.
  intros x [].
Qed.

(** C4.  The [try] of the space loop yields both loaded values or
    [(None, None)]: when [security-group.json] fails to load, or when it
    loads and [spaceConfig.yml] fails, both are [None].  Lines 353-354
    record exactly the pair the [try] yielded: one round of the loop puts
    the two values under [security] and [space_config] of the space's
    sub-entry and goes on from there.  So in every cache that [refresh]
    publishes, every sub-entry of every org other than [org] and [space],
    and the sub-entry of every space the org lists, has [security] and
    [space_config] both present, both [None] or both loaded; and what the
    sub-entry of a listed space holds is what the [try] yielded for that
    space in its context - so both are [None] for a space one of whose
    two files fails to load. *)
Theorem space_pair_is_set_as_a_unit :
  (forall context slug space s,
      let sec_name := py_str w space +s+ "/security-group.json" in
      let spc_name := py_str w space +s+ "/spaceConfig.yml" in
      (fst (_load_bb_file w context slug sec_name true s) = Raise BBFileLoadFailure ->
       fst (load_space_pair w context slug space s) = Ok (PNone, PNone))
      /\ (forall sec_dict s1,
             _load_bb_file w context slug sec_name true s = (Ok sec_dict, s1) ->
             fst (_load_bb_file w context slug spc_name false s1)
             = Raise BBFileLoadFailure ->
             fst (load_space_pair w context slug space s) = Ok (PNone, PNone))
      /\ exists sec_dict spc_dict,
          fst (load_space_pair w context slug space s) = Ok (sec_dict, spc_dict)
          /\ Py.is_none sec_dict = Py.is_none spc_dict)
  /\ (forall context slug repo space rest c e s s1 sec_dict spc_dict,
         Cache.get_entry c context repo = Ok e ->
         load_space_pair w context slug space s = (Ok (sec_dict, spc_dict), s1) ->
         Py.hashable space = true ->
         is_dict (old_or_empty e space) = true ->
         refresh_spaces w context slug repo (space :: rest) c s
         = refresh_spaces w context slug repo rest
             (Cache.put_entry c context repo
                              (store_pair e space sec_dict spc_dict)) s1
         /\ exists v,
             Py.find space (store_pair e space sec_dict spc_dict) = Some v
             /\ field v "security" = Some sec_dict
             /\ field v "space_config" = Some spc_dict)
  /\ (forall fuel s s' context repo e,
         refresh w fuel s = (Ok tt, s') ->
         Cache.get_entry (_cache s') context repo = Ok e ->
         entry_paired e
         /\ forall x,
             In x (org_spaces e) ->
             exists v slug space s0 sec_dict spc_dict s1,
               Py.find x e = Some v
               /\ Py.key_eqb x space = true
               /\ load_space_pair w context slug space s0
                  = (Ok (sec_dict, spc_dict), s1)
               /\ field v "security" = Some sec_dict
               /\ field v "space_config" = Some spc_dict)
  /\ (forall fuel s s' context repo e x,
         refresh w fuel s = (Ok tt, s') ->
         Cache.get_entry (_cache s') context repo = Ok e ->
         In x (org_spaces e) ->
         (forall slug space s0,
             Py.key_eqb x space = true ->
             fst (_load_bb_file w context slug
                                (py_str w space +s+ "/security-group.json")
                                true s0) = Raise BBFileLoadFailure
             \/ fst (_load_bb_file w context slug
                                   (py_str w space +s+ "/spaceConfig.yml") false
                                   (snd (_load_bb_file w context slug
                                           (py_str w space
                                            +s+ "/security-group.json")
                                           true s0)))
                = Raise BBFileLoadFailure) ->
         exists v,
           Py.find x e = Some v
           /\ field v "security" = Some PNone
           /\ field v "space_config" = Some PNone).
Proof.
  split; [|split; [|split]].
  - intros context slug space s. cbv zeta. split; [|split].
    + intros F. rewrite load_space_pair_eq.
      destruct (_load_bb_file w context slug _ true s) as [[v|x|] s1];
        simpl in F; try discriminate F; reflexivity.
    + intros sec s1 L F. rewrite load_space_pair_eq, L.
      destruct (_load_bb_file w context slug _ false s1) as [[v|x|] s2];
        simpl in F; try discriminate F; reflexivity.
    + destruct (load_space_pair_outcome w context slug space s)
        as (sec & spc & s1 & L & Shape).
      exists sec, spc. rewrite L. split; [reflexivity|].
      apply pair_is_none. exact Shape.
  - intros context slug repo space rest c e s s1 sec spc G L H D. split.
    + apply (refresh_spaces_step w); assumption.
    + unfold store_pair. rewrite (py_find_set_same _ _ _ H).
      eexists. split; [reflexivity|].
      apply with_pair_fields. exact D.
  - intros fuel s s' context repo e R G.
    apply refresh_Ok_inv in R as (s1 & B). split.
    + apply build_new_cache_paired in B.
      eapply cache_all_get_entry; eassumption.
    + intros x I.
      destruct (build_new_cache_recorded _ _ _ _ B _ _ _ G x I)
        as (v & F & (slug & space & s0 & sec & spc & s2 & K & L & Fs & Fc)).
      exists v, slug, space, s0, sec, spc, s2. auto 6.
  - intros fuel s s' context repo e x R G I Fails.
    apply refresh_Ok_inv in R as (s1 & B).
    destruct (build_new_cache_recorded _ _ _ _ B _ _ _ G x I)
      as (v & F & (slug & space & s0 & sec & spc & s2 & K & L & Fs & Fc)).
    assert (N : sec = PNone /\ spc = PNone).
    { rewrite load_space_pair_eq in L.
      destruct (Fails slug space s0 K) as [F1|F2].
      - destruct (_load_bb_file w context slug _ true s0) as [[v1|x1|] t1];
          simpl in F1; try discriminate F1.
        injection L as <- <- _. auto.
      - destruct (_load_bb_file w context slug _ true s0) as [[v1|x1|] t1];
          cbn [snd] in F2.
        + destruct (_load_bb_file w context slug _ false t1) as [[v2|x2|] t2];
            simpl in F2; try discriminate F2.
          injection L as <- <- _. auto.
        + injection L as <- <- _. auto.
        + injection L as <- <- _. auto. }
    destruct N as (-> & ->). exists v. auto.
Qed.

End Pairing.

(* ================================================================= *)
(** * The repository's unit tests, replayed on the model *)

(** [testGetRepo]: only the repositories named [*-org] are returned. *)
Example test_get_repo :
  rbind (org_slugs (map (fun v => Examples.repo_val v v)
                        ["name1"; "name2"; "name3";
                         "name4-org"; "name5-org"; "name6-org"]%string))
        all_str
  = Ok ["name4-org"; "name5-org"; "name6-org"]%string.
Proof. reflexivity. Qed.

(** [testMakeCache]: the keys are lowercased and lose the suffix. *)
Example test_make_cache :
  skeleton ["orgA-org"; "orgB-org"; "orgC-org"; "not_an_org"]%string []
  = [("orga", []); ("orgb", []); ("orgc", [])]%string.
Proof. reflexivity. Qed.

(** The skeleton example of the specification. *)
Example test_skeleton_filtering :
  Cache.keys (skeleton ["a-org"; "b"; "c-org"]%string []) = ["a"; "c"]%string.
Proof. reflexivity. Qed.

(** [testRestGetTwoPages] *)
Example test_rest_get_two_pages :
  fst (_bb_rest_get Examples.w_two_pages 5 "cmd" (Examples.reader0 []))
  = Ok [PInt 1; PInt 2; PInt 3; PInt 4; PInt 5; PInt 6].
Proof. reflexivity. Qed.

(** [testRequestAuthFail]: SSL error, re-auth, SSL error, failure. *)
Example test_request_auth_fail :
  _request Examples.w_ssl "this/is/a/test" false false (Examples.reader0 [])
  = (Raise BBRequestAuthFail,
     mkReader "rest" "proj" [] "token-2" [] None
              [EvGet "this/is/a/test" "token-1"; EvToken;
               EvGet "this/is/a/test" "token-2"] 0).
Proof. reflexivity. Qed.

(** A whole cycle, in the manner of [testRefresh]: [x] and [z] stay
    empty, [y] gets its org, its space list and one entry per space. *)
Example test_refresh :
  let out := refresh Examples.w_orgs 5 (Examples.reader0 ["ctx"%string]) in
  fst out = Ok tt
  /\ _cache_timestamp (snd out) = Some 1003
  /\ _cache (snd out)
     = [("ctx"%string,
         [("x"%string, []); ("z"%string, []);
          ("y"%string,
           [(PStr "org", PDict false [(PStr "org", PStr "Y")]);
            (PStr "space",
             PDict false [(PStr "spaces", PList [PStr "s1"; PStr "s2"])]);
            (PStr "s1",
             PDict false [(PStr "security", PList [PInt 1]);
                          (PStr "space_config",
                           PDict false [(PStr "quota", PInt 1)])]);
            (PStr "s2",
             PDict false [(PStr "security", PNone);
                          (PStr "space_config", PNone)])])])].
Proof. cbv zeta. repeat split. Qed.

(* ================================================================= *)
(** * The theorems at work on the concrete worlds *)

(** C1 at [w_orgs]: the build returns, and [refresh] publishes what it
    built, with the third reading of the clock after the build. *)
Lemma refresh_publishes_at_the_end_witness :
  let s := Examples.reader0 ["ctx"%string] in
  let built := build_new_cache Examples.w_orgs 5 (tick s) in
  exists new_cache s',
    fst built = Ok new_cache
    /\ Cache.keys new_cache = ["ctx"%string]
    /\ refresh Examples.w_orgs 5 s = (Ok tt, s')
    /\ _cache s' = new_cache
    /\ _cache_timestamp s'
       = Some (time_time Examples.w_orgs (ticks (snd built) + 2)).
Proof.
  intros s built.
  assert (B : build_new_cache Examples.w_orgs 5 (tick s)
              = (Ok (match fst built with Ok c => c | _ => [] end), snd built))
    by (vm_compute; reflexivity).
  destruct (refresh_publishes_at_the_end Examples.w_orgs 5 s) as (Returns & _).
  destruct (Returns _ _ B) as (_ & _ & s' & R & C & T & _).
  exists (match fst built with Ok c => c | _ => [] end), s'.
  split; [vm_compute; reflexivity|]. split; [vm_compute; reflexivity|].
  split; [exact R|]. split; [exact C | exact T].
Defined.

(** C6 at [w_ssl]: both GETs hit the SSL error, one token is fetched in
    between, and the call fails with [BBRequestAuthFail]. *)
Lemma request_retries_at_most_once_witness :
  let s := Examples.reader0 [] in
  let out := _request Examples.w_ssl "u" false false s in
  fst out = Raise BBRequestAuthFail
  /\ trace (snd out) = [EvGet "u" "token-1"; EvToken; EvGet "u" "token-2"].
Proof.
  cbv zeta.
  destruct (request_retries_at_most_once Examples.w_ssl "u" false
                                         (Examples.reader0 []))
    as (_ & _ & Ssl & _).
  destruct (Ssl eq_refl) as (_ & Retry).
  destruct (Retry "token-2"%string eq_refl) as (Tr & _ & Fail).
  split; [apply Fail; reflexivity | exact Tr].
Defined.

(** C5 at [w_two_pages]: offsets 0 and 10 are asked for, and the six
    items come back in page order. *)
Lemma rest_get_concatenates_pages_witness :
  let s := Examples.reader0 [] in
  let out := _bb_rest_get Examples.w_two_pages 5 "cmd" s in
  fst out = Ok [PInt 1; PInt 2; PInt 3; PInt 4; PInt 5; PInt 6]
  /\ trace (snd out)
     = [EvGet "rest/cmd?start=0" "token-1"; EvGet "rest/cmd?start=10" "token-1"].
Proof.
  cbv zeta.
  assert (Srv : serves Examples.w_two_pages "rest/cmd" "token-1" 0 0
                       Examples.two_pages).
  { exists "page-0"%string, (Examples.page_val false 10 [PInt 1; PInt 2; PInt 3]).
    split; [reflexivity|]. split; [reflexivity|]. split.
    { eexists. repeat split. }
    exists "page-1"%string, (Examples.page_val true 0 [PInt 4; PInt 5; PInt 6]).
    split; [reflexivity|]. split; [reflexivity|]. split.
    { eexists. repeat split. }
    exact I. }
  destruct (rest_get_concatenates_pages Examples.w_two_pages 5 "cmd"
              (Examples.reader0 []) Examples.two_pages)
    as (V & T & _).
  - discriminate.
  - exact Srv.
  - simpl. lia.
  - split; [exact V | exact T].
Defined.

(** C8 at [w_orgs]: the three repositories of [ctx] have a string name
    and a string slug, both with the marker; [_make_cache] returns, and
    the skeleton of [ctx] has the keys [x], [z] and [y]. *)
Lemma skeleton_keys_of_marked_repos_witness :
  _make_cache Examples.w_orgs 5 (Examples.reader0 ["ctx"%string])
  = (Ok Examples.skeleton_xzy,
     snd (_bb_rest_get Examples.w_orgs 5 ("ctx" +s+ "/repos")
                       (Examples.reader0 ["ctx"%string])))
  /\ exists repos,
      Cache.find "ctx" Examples.skeleton_xzy = Some repos
      /\ NoDup (Cache.keys repos)
      /\ Forall (fun kv => snd kv = []) repos
      /\ forall k,
          In k (Cache.keys repos) <->
          exists v name slug,
            In v [Examples.repo_val "x-org" "x-org";
                  Examples.repo_val "z-org" "z-org";
                  Examples.repo_val "y-org" "y-org"]
            /\ field v "name" = Some (PStr name)
            /\ field v "slug" = Some (PStr slug)
            /\ PyString.endswith name term = true
            /\ PyString.endswith slug term = true
            /\ k = org_key slug.
Proof.
  assert (L : listings Examples.w_orgs 5
                       (_contexts (Examples.reader0 ["ctx"%string]))
                       (Examples.reader0 ["ctx"%string])
                       [[Examples.repo_val "x-org" "x-org";
                         Examples.repo_val "z-org" "z-org";
                         Examples.repo_val "y-org" "y-org"]]
                       (snd (_bb_rest_get Examples.w_orgs 5 ("ctx" +s+ "/repos")
                                          (Examples.reader0 ["ctx"%string])))).
  { eexists. split; [vm_compute; reflexivity | vm_compute; reflexivity]. }
  destruct (skeleton_keys_of_marked_repos Examples.w_orgs 5 _ _ _ L)
    as (Returns & Exact).
  assert (W : Forall (Forall (fun v => exists name_slug, repo_fields v name_slug))
                     [[Examples.repo_val "x-org" "x-org";
                       Examples.repo_val "z-org" "z-org";
                       Examples.repo_val "y-org" "y-org"]]).
  { repeat constructor.
    - exists ("x-org", "x-org")%string. split; reflexivity.
    - exists ("z-org", "z-org")%string. split; reflexivity.
    - exists ("y-org", "y-org")%string. split; reflexivity. }
  destruct (Returns W) as (c & Mk).
  assert (E : c = Examples.skeleton_xzy).
  { assert (V : fst (_make_cache Examples.w_orgs 5
                                 (Examples.reader0 ["ctx"%string]))
                = Ok Examples.skeleton_xzy) by (vm_compute; reflexivity).
    rewrite Mk in V. injection V as ->. reflexivity. }
  subst c. split; [exact Mk|].
  destruct (Exact _ _ Mk) as (_ & Per).
  apply (Per [] "ctx"%string [] [] _ []); try reflexivity. intros [].
Defined.

(** The same at [w_orgs], with the slugs in the order [y-org], [x-org],
    [z-org]: [x-org] has no [orgConfig.yml]; what [y-org] stored is kept
    and the loop goes on to [z-org]. *)
Lemma failed_org_config_is_isolated_witness :
  let c := Examples.skeleton_xzy in
  let s := Examples.reader0 ["ctx"%string] in
  let after_y := refresh_slugs Examples.w_orgs "ctx" ["y-org"%string] c s in
  let c' := match fst after_y with Ok c' => c' | _ => [] end in
  let s1 := snd (_load_bb_file Examples.w_orgs "ctx" "x-org" "orgConfig.yml" false
                               (snd after_y)) in
  refresh_slug Examples.w_orgs "ctx" "x-org" c' (snd after_y) = (Ok c', s1)
  /\ refresh_slugs Examples.w_orgs "ctx"
                   (["y-org"%string] ++ "x-org"%string :: ["z-org"%string]) c s
     = refresh_slugs Examples.w_orgs "ctx" ["z-org"%string] c' s1.
Proof.
  intros c s after_y c' s1.
  assert (Before : refresh_slugs Examples.w_orgs "ctx" ["y-org"%string] c s
                   = (Ok c', snd after_y)) by (vm_compute; reflexivity).
  assert (Fails : _load_bb_file Examples.w_orgs "ctx" "x-org" "orgConfig.yml" false
                                (snd after_y)
                  = (Raise BBFileLoadFailure, s1)) by (vm_compute; reflexivity).
  exact (failed_org_config_is_isolated Examples.w_orgs "ctx" "x-org"
           ["y-org"%string] ["z-org"%string] c c' s (snd after_y) s1
           Before Fails).
Defined.

(** C10 at [w_orgs]: the [orgConfig.yml] of [z-org] is [name: z]. *)
Lemma org_config_without_org_key_is_skipped_witness :
  let c := Examples.skeleton_xzy in
  let s := Examples.reader0 ["ctx"%string] in
  let s1 := snd (_load_bb_file Examples.w_orgs "ctx" "z-org" "orgConfig.yml" false s) in
  refresh_slug Examples.w_orgs "ctx" "z-org" c s = (Ok c, s1)
  /\ refresh_slugs Examples.w_orgs "ctx" ["z-org"%string; "y-org"%string] c s
     = refresh_slugs Examples.w_orgs "ctx" ["y-org"%string] c s1.
Proof.
  intros c s s1.
  assert (Loads : _load_bb_file Examples.w_orgs "ctx" "z-org" "orgConfig.yml" false s
                  = (Ok (PDict false [(PStr "name", PStr "z")]), s1))
    by (vm_compute; reflexivity).
  exact (org_config_without_org_key_is_skipped Examples.w_orgs "ctx" "z-org"
           ["y-org"%string] c s s1 [(PStr "name", PStr "z")] Loads eq_refl).
Defined.

(** C4 at [w_orgs]: [s2/security-group.json] of [y-org] loads and
    [s2/spaceConfig.yml] does not, so the pair of [s2] is [(None, None)];
    the container that [refresh] publishes for [y] is paired, and what it
    holds for each of its spaces is what the [try] yielded. *)
Lemma space_pair_is_set_as_a_unit_witness :
  let s := Examples.reader0 ["ctx"%string] in
  let e := [(PStr "org", PDict false [(PStr "org", PStr "Y")]);
            (PStr "space", PDict false [(PStr "spaces", PList [PStr "s1"; PStr "s2"])]);
            (PStr "s1", PDict false [(PStr "security", PList [PInt 1]);
                                     (PStr "space_config",
                                      PDict false [(PStr "quota", PInt 1)])]);
            (PStr "s2", PDict false [(PStr "security", PNone);
                                     (PStr "space_config", PNone)])] in
  fst (load_space_pair Examples.w_orgs "ctx" "y-org" (PStr "s2") s)
  = Ok (PNone, PNone)
  /\ Cache.get_entry (_cache (snd (refresh Examples.w_orgs 5 s))) "ctx" "y" = Ok e
  /\ entry_paired e
  /\ forall x,
      In x (org_spaces e) ->
      exists v slug space s0 sec_dict spc_dict s1,
        Py.find x e = Some v
        /\ Py.key_eqb x space = true
        /\ load_space_pair Examples.w_orgs "ctx" slug space s0
           = (Ok (sec_dict, spc_dict), s1)
        /\ field v "security" = Some sec_dict
        /\ field v "space_config" = Some spc_dict.
Proof.
  intros s e.
  destruct (space_pair_is_set_as_a_unit Examples.w_orgs)
    as (Pair & _ & Published & _).
  split.
  - destruct (Pair "ctx"%string "y-org"%string (PStr "s2") s) as (_ & Second & _).
    assert (Sec : _load_bb_file Examples.w_orgs "ctx" "y-org"
                    (py_str Examples.w_orgs (PStr "s2") +s+ "/security-group.json")
                    true s
                  = (Ok (PList [PInt 2]),
                     snd (_load_bb_file Examples.w_orgs "ctx" "y-org"
                            "s2/security-group.json" true s)))
      by (vm_compute; reflexivity).
    apply (Second _ _ Sec). vm_compute. reflexivity.
  - assert (R : refresh Examples.w_orgs 5 s
                = (Ok tt, snd (refresh Examples.w_orgs 5 s)))
      by (vm_compute; reflexivity).
    assert (G : Cache.get_entry (_cache (snd (refresh Examples.w_orgs 5 s)))
                                "ctx" "y" = Ok e)
      by (vm_compute; reflexivity).
    split; [exact G|].
    exact (Published 5%nat s _ "ctx"%string "y"%string e R G).
Defined.

(* ================================================================= *)
(** * Further properties of the reader *)

(** ** RequestExecutor: values and tokens *)

Section RequestValues.

Variable w : world.

Lemma read_response_Ok_inv (return_json : bool) (status_code : Z) (text : string)
      (v : pyval) :
  read_response w return_json status_code text = Ok v ->
  status_code = 200
  /\ (if return_json then json_loads w text = Some v else v = PStr text).
Proof.
  unfold read_response.
  destruct (Z.eqb status_code 200) eqn:E; [|discriminate].
  apply Z.eqb_eq in E. intros H. split; [exact E|].
  destruct return_json.
  - destruct (json_loads w text); [|discriminate]. congruence.
  - congruence.
Qed.

Lemma _request_retry_Ok_inv (url : string) (return_json : bool) (s : reader)
      (v : pyval) :
  fst (_request w url return_json true s) = Ok v ->
  exists text,
    requests_get w (gets s) url (_auth_token s) = GetResponse 200 text
    /\ (if return_json then json_loads w text = Some v else v = PStr text).
Proof.
  unfold _request. simpl _request_depth. rewrite _request_body_retry.
  cbn [fst].
  destruct (requests_get w (gets s) url (_auth_token s)); try discriminate.
  intros H. apply read_response_Ok_inv in H as (-> & H). eauto.
Qed.

Lemma _request_Ok_inv (url : string) (return_json _retry_ : bool) (s : reader)
      (v : pyval) :
  fst (_request w url return_json _retry_ s) = Ok v ->
  exists n tok text,
    (gets s <= n < gets (snd (_request w url return_json _retry_ s)))%nat
    /\ requests_get w n url tok = GetResponse 200 text
    /\ (if return_json then json_loads w text = Some v else v = PStr text).
Proof.
  destruct _retry_.
  - intros H. apply _request_retry_Ok_inv in H as (text & G & V).
    exists (gets s), (_auth_token s), text. split; [|auto].
    unfold _request. simpl _request_depth. rewrite _request_body_retry.
    cbn [snd]. rewrite gets_add_get. lia.
  - rewrite _request_first. cbv zeta.
    destruct (requests_get w (gets s) url (_auth_token s)) eqn:First.
    + destruct (fetch_token w (tokens s)) as [tok|]; [|discriminate].
      intros H. pose proof H as H'.
      apply _request_retry_Ok_inv in H' as (text & G & V).
      autorewrite with traffic in G. cbn [_auth_token set_auth_token] in G.
      exists (S (gets s)), tok, text. split; [|auto].
      unfold _request. simpl _request_depth. rewrite _request_body_retry.
      cbn [snd]. autorewrite with traffic. lia.
    + discriminate.
    + cbn [fst snd]. intros H. apply read_response_Ok_inv in H as (-> & H).
      exists (gets s), (_auth_token s), text. rewrite gets_add_get.
      split; [lia|]. auto.
Qed.

(** X1.  [_request] hands back a value only from a GET of that URL that
    was answered 200, made during the call: the text of the answer, or
    what [json] reads from it.  An answer with any other status never
    becomes a value. *)
Theorem request_value_comes_from_a_200 (url : string) (return_json _retry_ : bool)
        (s : reader) (v : pyval) :
  fst (_request w url return_json _retry_ s) = Ok v ->
  exists n tok text,
    (gets s <= n < gets (snd (_request w url return_json _retry_ s)))%nat
    /\ requests_get w n url tok = GetResponse 200 text
    /\ (if return_json then json_loads w text = Some v else v = PStr text).
Proof.
  intros Value.
  destruct (_request_Ok_inv url return_json _retry_ s v Value)
    as (n & tok & text & During & Answer & Read).
  exists n, tok, text. split; [exact During|]. split; [exact Answer | exact Read].
Qed.

(** X2.  The token after a call of [_request].  After an SSL error and a
    successful exchange the new token stays in the reader, whatever the
    second GET brings.  When the exchange itself fails, its exception is
    what the call raises, no second GET is made and the old token stays.
    Without an SSL error the token is not touched. *)
Theorem request_token_afterwards (url : string) (return_json : bool) (s : reader) :
  let out := _request w url return_json false s in
  let first := requests_get w (gets s) url (_auth_token s) in
  (first = GetSSLError ->
   forall tok, fetch_token w (tokens s) = Some tok ->
               _auth_token (snd out) = tok)
  /\ (first = GetSSLError ->
      fetch_token w (tokens s) = None ->
      fst out = Raise TokenError
      /\ _auth_token (snd out) = _auth_token s
      /\ gets (snd out) = S (gets s))
  /\ (first <> GetSSLError ->
      _auth_token (snd out) = _auth_token s /\ tokens (snd out) = tokens s).
Proof.
  cbv zeta. rewrite _request_first. cbv zeta.
  destruct (requests_get w (gets s) url (_auth_token s)) eqn:First.
  - split; [|split].
    + intros _ tok T. rewrite T.
      unfold _request. simpl _request_depth. rewrite _request_body_retry.
      reflexivity.
    + intros _ T. rewrite T. cbn [fst snd]. autorewrite with traffic.
      repeat split.
    + congruence.
  - split; [discriminate|]. split; [discriminate|].
    intros _. cbn [snd]. autorewrite with traffic. split; reflexivity.
  - split; [discriminate|]. split; [discriminate|].
    intros _. cbn [snd]. autorewrite with traffic. split; reflexivity.
Qed.

(** X3.  [_bb_get_file] raises nothing and always yields a string.  A
    string that is not empty is the text of a 200 answer to a GET of
    [<projects url>/<proj>/repos/<slug>/raw/<filename>]; whenever
    [_request] raises, the string is empty. *)
Theorem get_file_text_or_empty (proj slug filename : string) (s : reader) :
  let url := _bb_proj s +s+ "/" +s+ proj +s+ "/repos/" +s+ slug
             +s+ "/raw/" +s+ filename in
  exists text,
    fst (_bb_get_file w proj slug filename s) = Ok text
    /\ snd (_bb_get_file w proj slug filename s)
       = snd (_request w url false false s)
    /\ (text <> EmptyString ->
        exists n tok, requests_get w n url tok = GetResponse 200 text)
    /\ (forall e, fst (_request w url false false s) = Raise e ->
                  text = EmptyString).
Proof.
  cbv zeta. unfold _bb_get_file.
  pose proof (_request_returns w
    (_bb_proj s +s+ "/" +s+ proj +s+ "/repos/" +s+ slug +s+ "/raw/" +s+ filename)
    false false s) as R.
  pose proof (_request_Ok_inv
    (_bb_proj s +s+ "/" +s+ proj +s+ "/repos/" +s+ slug +s+ "/raw/" +s+ filename)
    false false s) as V.
  destruct (_request w _ false false s) as [[v|e|] s1]; cbn [fst snd] in *.
  - destruct (V v eq_refl) as (n & tok & text & _ & G & ->).
    exists text. cbn [fst snd].
    split; [reflexivity|]. split; [reflexivity|]. split.
    + intros _. eauto.
    + intros e H. discriminate H.
  - exists EmptyString. cbn [fst snd]. repeat split; congruence.
  - congruence.
Qed.

(** X4.  [_load_bb_file] yields a [dict] or a [list] and raises nothing but
    [BBFileLoadFailure]: no transport, status or token error comes out of
    it.  A file whose request failed is read as the empty text: the
    outcome is that of parsing [''], a mapping or sequence if the parser
    makes one of it, [BBFileLoadFailure] otherwise. *)
Theorem load_bb_file_outcomes (context slug filename : string)
        (json_content : bool) (s : reader) :
  let url := _bb_proj s +s+ "/" +s+ context +s+ "/repos/" +s+ slug
             +s+ "/raw/" +s+ filename in
  let out := fst (_load_bb_file w context slug filename json_content s) in
  match out with
  | Ok v => Py.is_dict_or_list v = true
  | Raise e => e = BBFileLoadFailure
  | Diverge => False
  end
  /\ (forall e, fst (_request w url false false s) = Raise e ->
        out = match (if json_content then json_loads w EmptyString
                     else yaml_load w EmptyString) with
              | Some v => if Py.is_dict_or_list v then Ok v
                          else Raise BBFileLoadFailure
              | None => Raise BBFileLoadFailure
              end).
Proof.
  cbv zeta. split; [apply _load_bb_file_outcome|].
  intros e R. unfold _load_bb_file, bind, _bb_get_file.
  destruct (_request w _ false false s) as [[v|e'|] s1]; cbn [fst] in R;
    try discriminate R.
  destruct (if json_content then json_loads w EmptyString
            else yaml_load w EmptyString) as [v|]; [|reflexivity].
  destruct (Py.is_dict_or_list v); reflexivity.
Qed.

End RequestValues.

(** ** PaginatedClient: failures and endless listings *)

Section PaginatedEdges.

Variable w : world.

Lemma _request_plain_failure (url : string) (return_json : bool) (s : reader) :
  plain_failure (requests_get w (gets s) url (_auth_token s)) ->
  exists e,
    _request w url return_json false s
    = (Raise e, add_event (EvGet url (_auth_token s)) s).
Proof.
  intros F. rewrite _request_first. cbv zeta.
  destruct (requests_get w (gets s) url (_auth_token s)); simpl in F.
  - contradiction.
  - eauto.
  - unfold read_response.
    destruct (Z.eqb status_code 200) eqn:E; [apply Z.eqb_eq in E; contradiction|].
    eauto.
Qed.

Lemma rest_loop_open_pages (base_url : string) :
  forall pages fuel rsp start rtn s,
    continues rsp start ->
    serves_open w base_url (_auth_token s) (gets s) start pages ->
    (List.length pages < fuel)%nat ->
    plain_failure
      (requests_get w (gets s + List.length pages)
                    (page_url w base_url (offset_after start pages))
                    (_auth_token s)) ->
    exists e s',
      rest_loop w fuel base_url rsp rtn s
      = (Raise e, rtn ++ List.concat (map snd pages), s')
      /\ gets s' = (gets s + List.length pages + 1)%nat.
Proof.
  induction pages as [|[next values] rest IH];
    intros fuel rsp start rtn s C Srv F Fail.
  - destruct fuel as [|fuel]; [simpl in F; lia|].
    destruct C as (kv & -> & L & N).
    cbn [rest_loop]. unfold PyOps.getitem at 1. rewrite L.
    cbn [Py.truthy]. cbv iota.
    unfold PyOps.getitem at 1. rewrite N.
    fold (page_url w base_url start).
    simpl in Fail. rewrite Nat.add_0_r in Fail.
    destruct (_request_plain_failure _ true _ Fail) as (e & ->).
    exists e. eexists. simpl List.concat. rewrite app_nil_r.
    split; [reflexivity|]. rewrite gets_add_get. simpl. lia.
  - destruct fuel as [|fuel]; [simpl in F; lia|].
    destruct C as (kv & -> & L & N).
    destruct Srv as (body & rsp' & G & J & P & Srv).
    cbn [rest_loop]. unfold PyOps.getitem at 1. rewrite L.
    cbn [Py.truthy]. cbv iota.
    unfold PyOps.getitem at 1. rewrite N.
    fold (page_url w base_url start).
    rewrite (_request_json_ok w _ _ _ _ G J).
    set (s1 := add_event (EvGet (page_url w base_url start) (_auth_token s)) s).
    pose proof P as (kv' & -> & L' & N' & V').
    unfold PyOps.getitem at 1. rewrite V'. cbn [rbind PyOps.iterate Py.iter].
    destruct (IH fuel (PDict false kv') next (rtn ++ values) s1)
      as (e & s' & R & Gs).
    + eapply is_page_continues. exact P.
    + unfold s1. rewrite gets_add_get. exact Srv.
    + simpl in F. lia.
    + unfold s1. rewrite gets_add_get. cbn [add_event _auth_token].
      simpl in Fail. replace (S (gets s) + List.length rest)%nat
        with (gets s + S (List.length rest))%nat by lia. exact Fail.
    + exists e, s'. rewrite R. split.
      * simpl List.concat. rewrite <- app_assoc. reflexivity.
      * rewrite Gs. unfold s1. rewrite gets_add_get. simpl. lia.
Qed.

(** X5.  When [k >= 0] pages have arrived, none of them the last, and the
    next GET ends in an exception other than the SSL error or in a status
    other than 200, [_bb_rest_get] raises nothing and returns the items of
    those [k] pages, in order; it has made [k + 1] GETs. *)
Theorem rest_get_keeps_pages_before_failure (fuel : nat) (command : string)
        (s : reader) (pages : list (Z * list pyval)) :
  let base_url := _bb_rest s +s+ "/" +s+ command in
  serves_open w base_url (_auth_token s) (gets s) 0 pages ->
  plain_failure
    (requests_get w (gets s + List.length pages)
                  (page_url w base_url (offset_after 0 pages)) (_auth_token s)) ->
  (List.length pages < fuel)%nat ->
  fst (_bb_rest_get w fuel command s) = Ok (List.concat (map snd pages))
  /\ gets (snd (_bb_rest_get w fuel command s))
     = (gets s + List.length pages + 1)%nat.
Proof.
  intros base_url Srv Fail F.
  destruct (rest_loop_open_pages base_url pages fuel first_page 0 [] s
              first_page_continues Srv F Fail) as (e & s' & R & G).
  unfold _bb_rest_get. fold base_url. rewrite R. cbn [fst snd].
  rewrite or_empty_id. split; [reflexivity | exact G].
Qed.

Lemma rest_loop_endless (base_url : string) :
  (forall n url tok,
      exists body rsp next values,
        requests_get w n url tok = GetResponse 200 body
        /\ json_loads w body = Some rsp
        /\ is_page rsp false next values) ->
  forall fuel rsp start rtn s,
    continues rsp start ->
    fst (fst (rest_loop w fuel base_url rsp rtn s)) = Diverge.
Proof.
  intros Endless. induction fuel as [|fuel IH]; intros rsp start rtn s C.
  - reflexivity.
  - destruct C as (kv & -> & L & N).
    cbn [rest_loop]. unfold PyOps.getitem at 1. rewrite L.
    cbn [Py.truthy]. cbv iota.
    unfold PyOps.getitem at 1. rewrite N.
    destruct (Endless (gets s)
                      (base_url +s+ "?start=" +s+ py_str w (PInt start))
                      (_auth_token s))
      as (body & rsp' & next & values & G & J & P).
    rewrite (_request_json_ok w _ _ _ _ G J).
    pose proof P as (kv' & -> & L' & N' & V').
    unfold PyOps.getitem at 1. rewrite V'. cbn [rbind PyOps.iterate Py.iter].
    apply (IH _ next). eapply is_page_continues. exact P.
Qed.

(** X6.  The loop of [_bb_rest_get] has no bound of its own: against a
    server that answers every request with a page that does not say
    [isLastPage], it never comes to an end, however long it runs. *)
Theorem rest_get_never_ends_without_last_page (command : string) (s : reader) :
  (forall n url tok,
      exists body rsp next values,
        requests_get w n url tok = GetResponse 200 body
        /\ json_loads w body = Some rsp
        /\ is_page rsp false next values) ->
  forall fuel, fst (_bb_rest_get w fuel command s) = Diverge.
Proof.
  intros Endless fuel. unfold _bb_rest_get.
  pose proof (rest_loop_endless (_bb_rest s +s+ "/" +s+ command) Endless
                                fuel first_page 0 [] s first_page_continues) as D.
  destruct (rest_loop w fuel _ first_page [] s) as [[[u|e|] rtn] s'];
    simpl in D; try discriminate D. reflexivity.
Qed.

End PaginatedEdges.

(** ** SkeletonBuilder: the names and the contexts *)

Lemma org_slugs_nameless (pre post : list pyval) (kv : list (pyval * pyval)) :
  Forall (fun v => exists p, repo_fields v p) pre ->
  Py.find (PStr "name") kv = None ->
  org_slugs (pre ++ PDict false kv :: post) = Raise KeyError.
Proof.
  intros W N. induction W as [|v pre ([name slug] & Fn & Fs) _ IH].
  - cbn [app org_slugs]. unfold PyOps.getitem. rewrite N. reflexivity.
  - cbn [fst snd] in Fn, Fs.
    destruct v as [| | | | |vivify kv0]; try discriminate Fn.
    cbn [field] in Fn, Fs.
    cbn [app org_slugs]. unfold PyOps.getitem at 1. rewrite Fn.
    cbn [rbind PyOps.endswith].
    destruct (PyString.endswith name term); [|exact IH].
    unfold PyOps.getitem at 1. rewrite Fs. cbn [rbind].
    rewrite IH. reflexivity.
Qed.

Lemma make_cache_loop_keys (w : world) (fuel : nat) (contexts : list string) :
  forall acc c s s',
    make_cache_loop w fuel contexts acc s = (Ok c, s') ->
    NoDup (Cache.keys acc) ->
    NoDup (Cache.keys c)
    /\ forall k, In k (Cache.keys c) <-> In k (Cache.keys acc) \/ In k contexts.
Proof.
  induction contexts as [|ctxt rest IH]; intros acc c s s' R ND.
  - simpl in R. injection R as <- <-. split; [exact ND|]. intros k. simpl. tauto.
  - cbn [make_cache_loop] in R.
    apply bind_Ok_inv in R as (names & s1 & N & R).
    destruct (IH _ _ _ _ R (cache_keys_set_nodup _ _ _ ND)) as (ND' & K).
    split; [exact ND'|]. intros k. rewrite K, cache_keys_set. simpl.
    intuition (subst; auto).
Qed.

Section SkeletonEdges.

Variable w : world.

(** X7.  When every item of the listing is a mapping with a string [name]
    and a string [slug], [_get_repo_names] returns the slugs of the items
    whose name ends with [-org], in the order of the listing, and nothing
    else. *)
Theorem get_repo_names_filters_by_name (fuel : nat) (proj : string)
        (s s' : reader) (repo_vals : list pyval) (pairs : list (string * string)) :
  _bb_rest_get w fuel (proj +s+ "/repos") s = (Ok repo_vals, s') ->
  Forall2 repo_fields repo_vals pairs ->
  _get_repo_names w fuel proj s
  = (Ok (map snd (filter (fun p => PyString.endswith (fst p) term) pairs)), s').
Proof.
  intros R W. unfold _get_repo_names.
  erewrite bind_Ok by exact R.
  pose proof (org_names_of_fields _ _ W) as E.
  assert (O : match repo_vals with [] => Ok [] | _ => org_slugs repo_vals end
              = org_slugs repo_vals) by (destruct repo_vals; reflexivity).
  rewrite O. unfold bind, lift.
  destruct (org_slugs repo_vals) as [slugs|e|]; cbn [rbind] in E;
    try discriminate E.
  rewrite E. reflexivity.
Qed.

(** X8.  A listing item that is a mapping without [name], after items that
    are well formed, makes [_get_repo_names] raise [KeyError]: the listing
    itself never raises, but reading it does.  When that listing is the one
    of the first configured context, [refresh] raises [KeyError] and the
    published cache and its timestamp stay as they were. *)
Theorem nameless_repo_aborts_refresh (fuel : nat) (ctxt : string)
        (others : list string) (s s' : reader)
        (pre post : list pyval) (kv : list (pyval * pyval)) :
  _contexts s = ctxt :: others ->
  _bb_rest_get w fuel (ctxt +s+ "/repos") (tick s)
  = (Ok (pre ++ PDict false kv :: post), s') ->
  Forall (fun v => exists p, repo_fields v p) pre ->
  Py.find (PStr "name") kv = None ->
  _get_repo_names w fuel ctxt (tick s) = (Raise KeyError, s')
  /\ fst (refresh w fuel s) = Raise KeyError
  /\ _cache (snd (refresh w fuel s)) = _cache s
  /\ _cache_timestamp (snd (refresh w fuel s)) = _cache_timestamp s.
Proof.
  intros C R W N.
  assert (G : _get_repo_names w fuel ctxt (tick s) = (Raise KeyError, s')).
  { unfold _get_repo_names. erewrite bind_Ok by exact R.
    apply bind_Raise. unfold lift.
    rewrite <- (org_slugs_nameless pre post kv W N).
    destruct pre; reflexivity. }
  split; [exact G|].
  assert (B : build_new_cache w fuel (tick s) = (Raise KeyError, s')).
  { unfold build_new_cache. apply bind_Raise.
    unfold _make_cache, bind, get_self. cbn [_contexts tick]. rewrite C.
    cbn [make_cache_loop]. unfold bind. rewrite G. reflexivity. }
  assert (E : refresh w fuel s = (Raise KeyError, s')).
  { unfold refresh. unfold bind at 1, now at 1. apply bind_Raise. exact B. }
  rewrite E. cbn [fst snd]. split; [reflexivity|].
  pose proof (keeps_build_new_cache w fuel (tick s)) as K.
  rewrite B in K. destruct K as (_ & _ & _ & Kc & Kt). auto.
Qed.

(** X9.  The cache [_make_cache] builds has the configured contexts as its
    keys, each once, and every org container in it is empty.  A context
    whose listing comes back empty - as it does when the listing request
    fails - is there all the same, with no org. *)
Theorem make_cache_has_the_contexts (fuel : nat) (s s' : reader) (c : cache_t) :
  _make_cache w fuel s = (Ok c, s') ->
  NoDup (Cache.keys c)
  /\ (forall ctxt, In ctxt (Cache.keys c) <-> In ctxt (_contexts s))
  /\ cache_all (fun e => e = []) c
  /\ (forall ctxt,
         In ctxt (_contexts s) ->
         (forall s1, fst (_bb_rest_get w fuel (ctxt +s+ "/repos") s1) = Ok []) ->
         Cache.find ctxt c = Some []).
Proof.
  unfold _make_cache, bind, get_self. intros R.
  destruct (make_cache_loop_keys _ _ _ _ _ _ _ R (NoDup_nil _)) as (ND & K).
  split; [exact ND|]. split; [|split].
  - intros ctxt. rewrite K. simpl. tauto.
  - eapply make_cache_loop_empty; [|exact R]. constructor.
  - intros ctxt I Empty.
    destruct (make_cache_loop_spec _ _ _ _ _ _ _ R) as (_ & Inn).
    destruct (Inn ctxt I) as (s1 & s2 & names & N & F).
    destruct (_get_repo_names_spec _ _ _ _ _ _ N)
      as (repo_vals & slugs & L & O & A).
    specialize (Empty s1). rewrite L in Empty. cbn [fst] in Empty.
    injection Empty as ->. simpl in O. injection O as <-.
    simpl in A. injection A as <-. exact F.
Qed.

End SkeletonEdges.

(** ** Lowercase keys *)

Lemma lower_ascii_idem (c : ascii) :
  PyString.lower_ascii (PyString.lower_ascii c) = PyString.lower_ascii c.
Proof. destruct c as [[] [] [] [] [] [] [] []]; reflexivity. Qed.

Lemma lower_idem (s : string) :
  PyString.lower (PyString.lower s) = PyString.lower s.
Proof.
  induction s as [|c s IH]; simpl; [reflexivity|].
  rewrite lower_ascii_idem, IH. reflexivity.
Qed.

Lemma lower_length (s : string) :
  String.length (PyString.lower s) = String.length s.
Proof. induction s as [|c s IH]; simpl; congruence. Qed.

Lemma lower_substring (s : string) :
  forall n m,
    PyString.lower (substring n m s) = substring n m (PyString.lower s).
Proof.
  induction s as [|c s IH]; intros n m.
  - destruct n, m; reflexivity.
  - destruct n as [|n].
    + destruct m as [|m]; simpl; [reflexivity|]. rewrite IH. reflexivity.
    + simpl. apply IH.
Qed.

Lemma org_key_lower (r : string) : PyString.lower (org_key r) = org_key r.
Proof.
  unfold org_key, PyString.drop_last.
  rewrite lower_substring, lower_idem. reflexivity.
Qed.

(** ** The keys of the cache through a cycle *)

Lemma cache_keys_set_existing {V} (k : string) (v v0 : V) (m : list (string * V)) :
  Cache.find k m = Some v0 -> Cache.keys (Cache.set k v m) = Cache.keys m.
Proof.
  unfold Cache.keys. induction m as [|[k1 v1] m IH]; simpl; [discriminate|].
  destruct (String.eqb k k1); simpl; [reflexivity|].
  intros F. rewrite (IH F). reflexivity.
Qed.

Lemma shape_set (c : cache_t) (context : string) (repos repos' : repo_map) :
  Cache.find context c = Some repos ->
  Cache.keys repos' = Cache.keys repos ->
  shape (Cache.set context repos' c) = shape c.
Proof.
  unfold shape. induction c as [|[k1 r1] c IH]; simpl; [discriminate|].
  destruct (String.eqb context k1); simpl.
  - intros F K. injection F as ->. rewrite K. reflexivity.
  - intros F K. rewrite (IH F K). reflexivity.
Qed.

Lemma shape_put_entry (c : cache_t) (context repo : string) (e e' : entry) :
  Cache.get_entry c context repo = Ok e ->
  shape (Cache.put_entry c context repo e') = shape c.
Proof.
  intros G. apply get_entry_inv in G as (repos & Fc & Fr).
  unfold Cache.put_entry. rewrite Fc.
  apply (shape_set _ _ repos); [exact Fc|].
  eapply cache_keys_set_existing. exact Fr.
Qed.

Lemma store_field_shape (c c' : cache_t) (context repo : string) (key v : pyval) :
  Cache.store_field c context repo key v = Ok c' -> shape c' = shape c.
Proof.
  unfold Cache.store_field.
  destruct (Cache.get_entry c context repo) as [e|x|] eqn:G; try discriminate.
  cbn [rbind]. destruct (Py.hashable key); [|discriminate].
  intros H. injection H as <-. eapply shape_put_entry. exact G.
Qed.

Lemma store_subfield_shape (c c' : cache_t) (context repo : string)
      (key : pyval) (fld : string) (v : pyval) :
  Cache.store_subfield c context repo key fld v = Ok c' -> shape c' = shape c.
Proof.
  unfold Cache.store_subfield.
  destruct (Cache.get_entry c context repo) as [e|x|] eqn:G; try discriminate.
  cbn [rbind].
  destruct (Cache.entry_get e key) as [[sub e1]|x|]; try discriminate.
  cbn [rbind].
  destruct (PyOps.setitem sub fld v) as [sub'|x|]; try discriminate.
  cbn [rbind]. intros H. injection H as <-. eapply shape_put_entry. exact G.
Qed.

Lemma read_subfield_shape (c c' : cache_t) (context repo : string)
      (key : pyval) (fld : string) (v : pyval) :
  Cache.read_subfield c context repo key fld = Ok (v, c') -> shape c' = shape c.
Proof.
  unfold Cache.read_subfield.
  destruct (Cache.get_entry c context repo) as [e|x|] eqn:G; try discriminate.
  cbn [rbind].
  destruct (Cache.entry_get e key) as [[sub e1]|x|]; try discriminate.
  cbn [rbind].
  destruct (PyOps.getitem sub fld) as [[v' sub']|x|]; try discriminate.
  cbn [rbind]. intros H. injection H as <- <-. eapply shape_put_entry. exact G.
Qed.

Section Shape.

Variable w : world.

Lemma refresh_spaces_shape (context slug repo : string) (spaces : list pyval) :
  forall c c' s s',
    refresh_spaces w context slug repo spaces c s = (Ok c', s') ->
    shape c' = shape c.
Proof.
  induction spaces as [|space rest IH]; intros c c' s s' R.
  - simpl in R. injection R as <- <-. reflexivity.
  - cbn [refresh_spaces] in R.
    apply bind_Ok_inv in R as ([sec spc] & s1 & L & R).
    apply bind_Ok_inv in R as (c1 & s2 & S1 & R).
    apply lift_Ok_inv in S1 as (S1 & ->).
    apply bind_Ok_inv in R as (c2 & s3 & S2 & R).
    apply lift_Ok_inv in S2 as (S2 & ->).
    rewrite (IH _ _ _ _ R).
    rewrite (store_subfield_shape _ _ _ _ _ _ _ S2).
    exact (store_subfield_shape _ _ _ _ _ _ _ S1).
Qed.

Lemma refresh_slug_shape (context slug : string) (c c' : cache_t) (s s' : reader) :
  refresh_slug w context slug c s = (Ok c', s') -> shape c' = shape c.
Proof.
  unfold refresh_slug. intros R.
  apply bind_Ok_inv in R as (loaded & s1 & LO & R).
  destruct loaded as [[odict repo]|].
  - apply bind_Ok_inv in R as (sdict & s2 & LS & R).
    apply bind_Ok_inv in R as (c1 & s3 & S1 & R).
    apply lift_Ok_inv in S1 as (S1 & ->).
    apply bind_Ok_inv in R as (c2 & s4 & S2 & R).
    apply lift_Ok_inv in S2 as (S2 & ->).
    apply bind_Ok_inv in R as ([spaces c3] & s5 & S3 & R).
    apply lift_Ok_inv in S3 as (S3 & ->).
    apply bind_Ok_inv in R as (xs & s6 & It & R).
    apply lift_Ok_inv in It as (It & ->).
    rewrite (refresh_spaces_shape _ _ _ _ _ _ _ _ R).
    rewrite (read_subfield_shape _ _ _ _ _ _ _ S3).
    rewrite (store_field_shape _ _ _ _ _ _ S2).
    exact (store_field_shape _ _ _ _ _ _ S1).
  - injection R as <- <-. reflexivity.
Qed.

Lemma refresh_slugs_shape (context : string) (sluglist : list string) :
  forall c c' s s',
    refresh_slugs w context sluglist c s = (Ok c', s') -> shape c' = shape c.
Proof.
  induction sluglist as [|slug rest IH]; intros c c' s s' R.
  - simpl in R. injection R as <- <-. reflexivity.
  - cbn [refresh_slugs] in R.
    apply bind_Ok_inv in R as (c1 & s1 & R1 & R).
    rewrite (IH _ _ _ _ R). eapply refresh_slug_shape. exact R1.
Qed.

Lemma refresh_contexts_shape (contexts : list string) :
  forall c c' s s',
    refresh_contexts w contexts c s = (Ok c', s') -> shape c' = shape c.
Proof.
  induction contexts as [|context rest IH]; intros c c' s s' R.
  - simpl in R. injection R as <- <-. reflexivity.
  - cbn [refresh_contexts] in R.
    destruct (Cache.find context c) as [repolist|]; [|eapply IH; exact R].
    apply bind_Ok_inv in R as (c1 & s1 & R1 & R).
    rewrite (IH _ _ _ _ R). eapply refresh_slugs_shape. exact R1.
Qed.

Lemma build_new_cache_shape (fuel : nat) (c : cache_t) (s s' : reader) :
  build_new_cache w fuel s = (Ok c, s') ->
  exists c0 s0, _make_cache w fuel s = (Ok c0, s0) /\ shape c = shape c0.
Proof.
  unfold build_new_cache. intros R.
  apply bind_Ok_inv in R as (c0 & s0 & Mk & R).
  exists c0, s0. split; [exact Mk|]. eapply refresh_contexts_shape. exact R.
Qed.

Lemma make_cache_loop_lower (fuel : nat) (contexts : list string) :
  forall acc c s s',
    Forall (fun cr => forall k, In k (Cache.keys (snd cr)) ->
                                PyString.lower k = k) acc ->
    make_cache_loop w fuel contexts acc s = (Ok c, s') ->
    Forall (fun cr => forall k, In k (Cache.keys (snd cr)) ->
                                PyString.lower k = k) c.
Proof.
  induction contexts as [|ctxt rest IH]; intros acc c s s' A R.
  - simpl in R. injection R as <- <-. exact A.
  - cbn [make_cache_loop] in R.
    apply bind_Ok_inv in R as (names & s1 & N & R).
    eapply IH; [|exact R].
    apply (cache_set_values
             (fun rs : repo_map => forall k, In k (Cache.keys rs) ->
                                             PyString.lower k = k));
      [|exact A].
    intros k I.
    destruct (skeleton_spec names [] (NoDup_nil _) (Forall_nil _)) as (_ & _ & K).
    apply K in I as [[]|(r & _ & _ & ->)]. apply org_key_lower.
Qed.

(** X10.  Filling the cache adds and removes no key: a cache that
    [refresh] publishes has the contexts and, under each, the org keys of
    the skeleton built at the start of that cycle.  An org whose files did
    not load is still there, and no org appears under a key the skeleton
    did not have. *)
Theorem refresh_keeps_the_skeleton_keys (fuel : nat) (s s' : reader) :
  refresh w fuel s = (Ok tt, s') ->
  exists c0 s0,
    _make_cache w fuel (tick s) = (Ok c0, s0)
    /\ shape (_cache s') = shape c0.
Proof.
  intros R. apply refresh_Ok_inv in R as (s1 & B).
  eapply build_new_cache_shape. exact B.
Qed.

Lemma refresh_org_keys_lower (fuel : nat) (s s' : reader)
      (context : string) (repos : repo_map) (k : string) :
  refresh w fuel s = (Ok tt, s') ->
  In (context, repos) (_cache s') ->
  In k (Cache.keys repos) ->
  PyString.lower k = k.
Proof.
  intros R Ic Ik. apply refresh_Ok_inv in R as (s1 & B).
  apply build_new_cache_shape in B as (c0 & s0 & Mk & Sh).
  assert (Is : In (context, Cache.keys repos) (shape (_cache s'))).
  { unfold shape. apply in_map_iff. exists (context, repos). auto. }
  rewrite Sh in Is. unfold shape in Is.
  apply in_map_iff in Is as ([ctx0 repos0] & E & I0).
  cbn [fst snd] in E. injection E as -> E.
  unfold _make_cache, bind, get_self in Mk.
  pose proof (make_cache_loop_lower _ _ _ _ _ _ (Forall_nil _) Mk) as L.
  rewrite Forall_forall in L. specialize (L _ I0). cbn [snd] in L.
  apply L. rewrite E. exact Ik.
Qed.

(** X11.  Every org key of a cache that [refresh] publishes is in lower
    case: lowering it again gives the same key. *)
Theorem published_org_keys_are_lowercase (fuel : nat) (s s' : reader)
        (context : string) (repos : repo_map) (k : string) :
  refresh w fuel s = (Ok tt, s') ->
  In (context, repos) (_cache s') ->
  In k (Cache.keys repos) ->
  PyString.lower k = k.
Proof.
  intros Returned Context Key.
  exact (refresh_org_keys_lower fuel s s' context repos k Returned Context Key).
Qed.

End Shape.

(** ** Each cycle starts from scratch *)

Lemma ignores_ret {A} (a : A) : ignores_published (ret a).
Proof. intros c t s. reflexivity. Qed.

Lemma ignores_raise {A} (e : exn) : ignores_published (@raise A e).
Proof. intros c t s. reflexivity. Qed.

Lemma ignores_diverge {A} : ignores_published (@diverge A).
Proof. intros c t s. reflexivity. Qed.

Lemma ignores_lift {A} (r : result A) : ignores_published (lift r).
Proof. intros c t s. reflexivity. Qed.

Lemma ignores_bind {A B} (m : M A) (k : A -> M B) :
  ignores_published m -> (forall a, ignores_published (k a)) ->
  ignores_published (bind m k).
Proof.
  intros Hm Hk c t s. unfold bind. rewrite Hm.
  destruct (m s) as [[a|e|] s1]; cbn [fst snd]; [apply Hk | reflexivity..].
Qed.

Lemma ignores_try_except {A} (m : M A) (handles : exn -> bool) (h : exn -> M A) :
  ignores_published m -> (forall e, ignores_published (h e)) ->
  ignores_published (try_except m handles h).
Proof.
  intros Hm Hh c t s. unfold try_except. rewrite Hm.
  destruct (m s) as [[a|e|] s1]; cbn [fst snd]; try reflexivity.
  destruct (handles e); [apply Hh | reflexivity].
Qed.

Lemma ignores_now (w : world) : ignores_published (now w).
Proof. intros c t s. reflexivity. Qed.

Lemma ignores_set_auth_token (tok : string) :
  ignores_published (modify (set_auth_token tok)).
Proof. intros c t s. reflexivity. Qed.

Lemma ignores__get_oauth_token (w : world) : ignores_published (_get_oauth_token w).
Proof.
  intros c t s. unfold _get_oauth_token.
  change (tokens (set_cache c (set_cache_timestamp t s))) with (tokens s).
  destruct (fetch_token w (tokens s)); reflexivity.
Qed.

Lemma ignores_requests_get_call (w : world) (url : string) :
  ignores_published (requests_get_call w url).
Proof. intros c t s. reflexivity. Qed.

Create HintDb ignores.
#[local] Hint Resolve ignores_ret ignores_raise ignores_diverge ignores_lift
  ignores_now ignores_set_auth_token ignores__get_oauth_token
  ignores_requests_get_call : ignores.

Ltac ignores_step :=
  match goal with
  | |- ignores_published (bind _ _) => apply ignores_bind; [|intros]
  | |- ignores_published (try_except _ _ _) => apply ignores_try_except; [|intros]
  | |- ignores_published (match ?x with _ => _ end) => destruct x
  | |- ignores_published (if ?b then _ else _) => destruct b
  | |- ignores_published _ => solve [auto with ignores]
  end.

Ltac ignores_walk := repeat ignores_step.

Section FromScratch.

Variable w : world.

Lemma ignores__request_body (self : string -> bool -> bool -> M pyval)
      (url : string) (return_json _retry_ : bool) :
  (forall u j r, ignores_published (self u j r)) ->
  ignores_published (_request_body w self url return_json _retry_).
Proof. intros Hself. unfold _request_body. ignores_walk. Qed.

Lemma ignores__request (url : string) (return_json _retry_ : bool) :
  ignores_published (_request w url return_json _retry_).
Proof.
  unfold _request. simpl.
  apply ignores__request_body. intros. apply ignores__request_body.
  intros. apply ignores_diverge.
Qed.

Lemma ignores__bb_get_file (proj slug filename : string) :
  ignores_published (_bb_get_file w proj slug filename).
Proof.
  intros c t s. unfold _bb_get_file.
  change (_bb_proj (set_cache c (set_cache_timestamp t s))) with (_bb_proj s).
  rewrite ignores__request.
  destruct (_request w _ false false s) as [[v|e|] s1]; cbn [fst snd];
    try reflexivity.
  destruct v; reflexivity.
Qed.

Lemma rest_loop_ignores (fuel : nat) (base_url : string) :
  forall rsp rtn c t s,
    rest_loop w fuel base_url rsp rtn (set_cache c (set_cache_timestamp t s))
    = (fst (rest_loop w fuel base_url rsp rtn s),
       set_cache c (set_cache_timestamp t (snd (rest_loop w fuel base_url rsp rtn s)))).
Proof.
  induction fuel as [|fuel IH]; intros rsp rtn c t s; cbn [rest_loop].
  - reflexivity.
  - destruct (PyOps.getitem rsp "isLastPage") as [[last rsp1]|e|];
      try reflexivity.
    destruct (Py.truthy last); try reflexivity.
    destruct (PyOps.getitem rsp1 "nextPageStart") as [[start rsp2]|e|];
      try reflexivity.
    rewrite ignores__request.
    destruct (_request w _ true false s) as [[rsp'|e|] s1]; cbn [fst snd];
      try reflexivity.
    destruct (rbind (PyOps.getitem rsp' "values") _) as [[xs rsp'']|e|];
      try reflexivity.
    apply IH.
Qed.

Lemma ignores__bb_rest_get (fuel : nat) (command : string) :
  ignores_published (_bb_rest_get w fuel command).
Proof.
  intros c t s. unfold _bb_rest_get.
  change (_bb_rest (set_cache c (set_cache_timestamp t s))) with (_bb_rest s).
  rewrite rest_loop_ignores.
  destruct (rest_loop w fuel _ first_page [] s) as [[[u|e|] rtn] s1];
    reflexivity.
Qed.

#[local] Hint Resolve ignores__request ignores__bb_get_file ignores__bb_rest_get
  : ignores.

Lemma ignores__get_repo_names (fuel : nat) (proj : string) :
  ignores_published (_get_repo_names w fuel proj).
Proof. unfold _get_repo_names. ignores_walk. Qed.

#[local] Hint Resolve ignores__get_repo_names : ignores.

Lemma ignores_make_cache_loop (fuel : nat) (contexts : list string) :
  forall cache_obj, ignores_published (make_cache_loop w fuel contexts cache_obj).
Proof.
  induction contexts as [|ctxt rest IH]; intros cache_obj; simpl.
  - auto with ignores.
  - ignores_walk.
Qed.

Lemma ignores__make_cache (fuel : nat) : ignores_published (_make_cache w fuel).
Proof.
  intros c t s. unfold _make_cache, bind, get_self.
  change (_contexts (set_cache c (set_cache_timestamp t s))) with (_contexts s).
  apply ignores_make_cache_loop.
Qed.

Lemma ignores__load_bb_file (context slug filename : string) (json_content : bool) :
  ignores_published (_load_bb_file w context slug filename json_content).
Proof. unfold _load_bb_file. ignores_walk. Qed.

#[local] Hint Resolve ignores__make_cache ignores__load_bb_file : ignores.

Lemma ignores_load_org (context slug : string) :
  ignores_published (load_org w context slug).
Proof. unfold load_org. ignores_walk. Qed.

Lemma ignores_load_spaces (context slug : string) :
  ignores_published (load_spaces w context slug).
Proof. unfold load_spaces. ignores_walk. Qed.

Lemma ignores_load_space_pair (context slug : string) (space : pyval) :
  ignores_published (load_space_pair w context slug space).
Proof. unfold load_space_pair. ignores_walk. Qed.

#[local] Hint Resolve ignores_load_org ignores_load_spaces ignores_load_space_pair
  : ignores.

Lemma ignores_refresh_spaces (context slug repo : string) (spaces : list pyval) :
  forall new_cache,
    ignores_published (refresh_spaces w context slug repo spaces new_cache).
Proof.
  induction spaces as [|space rest IH]; intros new_cache; simpl.
  - auto with ignores.
  - ignores_walk.
Qed.

Lemma ignores_refresh_slug (context slug : string) (new_cache : cache_t) :
  ignores_published (refresh_slug w context slug new_cache).
Proof. unfold refresh_slug. ignores_walk. apply ignores_refresh_spaces. Qed.

Lemma ignores_refresh_slugs (context : string) (sluglist : list string) :
  forall new_cache, ignores_published (refresh_slugs w context sluglist new_cache).
Proof.
  induction sluglist as [|slug rest IH]; intros new_cache; simpl.
  - auto with ignores.
  - ignores_walk. apply ignores_refresh_slug.
Qed.

Lemma ignores_refresh_contexts (contexts : list string) :
  forall new_cache, ignores_published (refresh_contexts w contexts new_cache).
Proof.
  induction contexts as [|context rest IH]; intros new_cache; simpl.
  - auto with ignores.
  - destruct (Cache.find context new_cache); [|apply IH].
    ignores_walk. apply ignores_refresh_slugs.
Qed.

Lemma ignores_build_new_cache (fuel : nat) :
  ignores_published (build_new_cache w fuel).
Proof. unfold build_new_cache. ignores_walk. apply ignores_refresh_contexts. Qed.

Lemma refresh_unfold (fuel : nat) (s : reader) :
  refresh w fuel s
  = match build_new_cache w fuel (tick s) with
    | (Ok new_cache, s1) => publish w new_cache s1
    | (Raise e, s1) => (Raise e, s1)
    | (Diverge, s1) => (Diverge, s1)
    end.
Proof. reflexivity. Qed.

(** X12.  A cycle never reads what is published: whatever cache and
    timestamp the reader holds, [refresh] has the same outcome, and when
    it returns, the same cache is published - nothing of the old cache
    survives, not even for an org whose files failed this time. *)
Theorem refresh_starts_from_scratch (fuel : nat) (s : reader)
        (old_cache : cache_t) (old_stamp : option Z) :
  let s0 := set_cache old_cache (set_cache_timestamp old_stamp s) in
  fst (refresh w fuel s0) = fst (refresh w fuel s)
  /\ (fst (refresh w fuel s) = Ok tt ->
      refresh w fuel s0 = refresh w fuel s).
Proof.
  cbv zeta. rewrite !refresh_unfold.
  change (tick (set_cache old_cache (set_cache_timestamp old_stamp s)))
    with (set_cache old_cache (set_cache_timestamp old_stamp (tick s))).
  rewrite ignores_build_new_cache.
  destruct (build_new_cache w fuel (tick s)) as [[nc|e|] s1]; cbn [fst snd].
  - split; [reflexivity|]. intros _. reflexivity.
  - split; [reflexivity | discriminate].
  - split; [reflexivity | discriminate].
Qed.

End FromScratch.

(** ** The contexts given as one string *)

Lemma str_split_cons (sep : ascii) (s : string) :
  exists piece pieces, str_split sep s = piece :: pieces.
Proof.
  induction s as [|c s (piece & pieces & IH)]; simpl.
  - eauto.
  - destruct (Ascii.eqb c sep); [eauto|]. rewrite IH. eauto.
Qed.

Lemma str_join_cons (sep p q : string) (rest : list string) :
  str_join sep (p :: q :: rest) = p +s+ sep +s+ str_join sep (q :: rest).
Proof. reflexivity. Qed.

Lemma str_join_split (sep : ascii) (s : string) :
  str_join (String sep EmptyString) (str_split sep s) = s.
Proof.
  induction s as [|c s IH]; [reflexivity|].
  cbn [str_split].
  destruct (str_split_cons sep s) as (piece & pieces & E).
  rewrite E in IH |- *.
  destruct (Ascii.eqb c sep) eqn:C.
  - apply Ascii.eqb_eq in C. subst c.
    rewrite str_join_cons, IH. reflexivity.
  - destruct pieces as [|p2 pieces].
    + simpl in IH |- *. rewrite IH. reflexivity.
    + rewrite str_join_cons in IH |- *. rewrite <- IH. reflexivity.
Qed.

Lemma str_split_no_sep (sep : ascii) (s : string) :
  Forall (fun piece => occurs sep piece = false) (str_split sep s).
Proof.
  induction s as [|c s IH]; cbn [str_split].
  - repeat constructor.
  - destruct (Ascii.eqb c sep) eqn:C.
    + constructor; [reflexivity | exact IH].
    + destruct (str_split sep s) as [|piece pieces].
      * repeat constructor. simpl. rewrite C. reflexivity.
      * inversion IH as [|? ? P Ps]; subst.
        constructor; [|exact Ps]. simpl. rewrite C. exact P.
Qed.

Lemma str_split_keeps_absent (c sep : ascii) (s : string) :
  occurs c s = false ->
  Forall (fun piece => occurs c piece = false) (str_split sep s).
Proof.
  induction s as [|c0 s IH]; cbn [str_split occurs]; intros O.
  - repeat constructor.
  - apply Bool.orb_false_iff in O as (O1 & O2). specialize (IH O2).
    destruct (Ascii.eqb c0 sep).
    + constructor; [reflexivity | exact IH].
    + destruct (str_split sep s) as [|piece pieces].
      * repeat constructor. simpl. rewrite O1. reflexivity.
      * inversion IH as [|? ? P Ps]; subst.
        constructor; [|exact Ps]. simpl. rewrite O1. exact P.
Qed.

Lemma str_replace_removes (old new : ascii) (s : string) :
  old <> new -> occurs old (str_replace old new s) = false.
Proof.
  intros NE. induction s as [|c s IH]; simpl; [reflexivity|].
  rewrite IH, Bool.orb_false_r.
  destruct (Ascii.eqb c old) eqn:C.
  - apply Ascii.eqb_neq. congruence.
  - exact C.
Qed.

Lemma str_replace_absent (old new : ascii) (s : string) :
  occurs old s = false -> str_replace old new s = s.
Proof.
  induction s as [|c s IH]; simpl; [reflexivity|]. intros O.
  apply Bool.orb_false_iff in O as (O1 & O2).
  rewrite O1, (IH O2). reflexivity.
Qed.

Lemma str_split_absent (sep : ascii) (s : string) :
  occurs sep s = false -> str_split sep s = [s].
Proof.
  induction s as [|c s IH]; simpl; [reflexivity|]. intros O.
  apply Bool.orb_false_iff in O as (O1 & O2).
  rewrite O1, (IH O2). reflexivity.
Qed.

(** X13.  A string of contexts is cut at every comma and every colon:
    there is always at least one name, no name holds a comma or a colon,
    and the names joined by colons give the string back with its commas
    turned into colons - so nothing but the separators is lost, and two
    separators in a row, or one at either end, give an empty name.  A
    string without separators is one context. *)
Theorem contexts_of_string (text : string) :
  let names := contexts_of (inl text) in
  names <> []
  /\ Forall (fun name => occurs comma name = false /\ occurs colon name = false)
            names
  /\ str_join ":" names = str_replace comma colon text
  /\ (occurs comma text = false -> occurs colon text = false -> names = [text]).
Proof.
  cbv zeta. unfold contexts_of. split; [|split; [|split]].
  - destruct (str_split_cons colon (str_replace comma colon text))
      as (piece & pieces & E).
    rewrite E. discriminate.
  - pose proof (str_split_no_sep colon (str_replace comma colon text)) as A.
    pose proof (str_split_keeps_absent comma colon _
                  (str_replace_removes comma colon text ltac:(discriminate))) as B.
    rewrite Forall_forall in *. intros name I. split; [apply B | apply A]; exact I.
  - apply (str_join_split colon).
  - intros Oc Ol. rewrite (str_replace_absent _ _ _ Oc).
    apply str_split_absent. exact Ol.
Qed.

(** ** The periodic worker *)

Section Worker.

Variable w : world.

Lemma refresh_raise_untouched (fuel : nat) (s : reader) (e : exn) :
  fst (refresh w fuel s) = Raise e ->
  _cache (snd (refresh w fuel s)) = _cache s
  /\ _cache_timestamp (snd (refresh w fuel s)) = _cache_timestamp s.
Proof.
  rewrite refresh_unfold.
  pose proof (keeps_build_new_cache w fuel (tick s)) as K.
  destruct (build_new_cache w fuel (tick s)) as [[nc|x|] s1]; cbn [fst snd] in *.
  - unfold publish, bind, now, modify. cbn [fst]. discriminate.
  - intros _. destruct K as (_ & _ & _ & Kc & Kt). auto.
  - discriminate.
Qed.

(** X14.  [bb_thread_worker] lets no exception of [refresh] through: it
    starts the next timer exactly when the period is positive, after a
    cycle that failed as after one that returned, and after a failed
    cycle the published cache and timestamp are the old ones.  Only a
    period that cannot be read makes the worker raise, before it tries
    anything. *)
Theorem worker_survives_a_failed_refresh (fuel : nat) (period : Z) (s : reader) :
  let out := bb_thread_worker w fuel (Ok period) s in
  (forall e, fst out <> Raise e)
  /\ snd out = snd (refresh w fuel s)
  /\ (fst (refresh w fuel s) <> Diverge ->
      fst out = Ok (if Z.ltb 0 period then Some period else None))
  /\ (forall e, fst (refresh w fuel s) = Raise e ->
                _cache (snd out) = _cache s
                /\ _cache_timestamp (snd out) = _cache_timestamp s)
  /\ (forall e, bb_thread_worker w fuel (Raise e) s = (Raise e, s)).
Proof.
  cbv zeta.
  assert (E : bb_thread_worker w fuel (Ok period) s
              = (match fst (refresh w fuel s) with
                 | Diverge => Diverge
                 | _ => Ok (if Z.ltb 0 period then Some period else None)
                 end, snd (refresh w fuel s))).
  { unfold bb_thread_worker, bind, lift, try_except.
    destruct (refresh w fuel s) as [[u|e|] s1]; cbn [fst snd];
      destruct (Z.ltb 0 period); reflexivity. }
  rewrite E. cbn [fst snd].
  split; [|split; [|split; [|split]]].
  - intros e. destruct (fst (refresh w fuel s)); discriminate.
  - reflexivity.
  - intros ND. destruct (fst (refresh w fuel s)); congruence.
  - intros e R. apply (refresh_raise_untouched fuel s e R).
  - intros e. reflexivity.
Qed.

End Worker.

(* ================================================================= *)
(** * The presentation layer *)

(** ** [sorted] on strings *)

Lemma insert_sorted_perm (x : string) (l : list string) :
  Permutation (x :: l) (insert_sorted x l).
Proof.
  induction l as [|y l IH]; simpl; [reflexivity|].
  destruct (String.leb x y); [reflexivity|].
  rewrite perm_swap. constructor. exact IH.
Qed.

Lemma sort_strings_perm (l : list string) : Permutation l (sort_strings l).
Proof.
  induction l as [|x l IH]; simpl; [reflexivity|].
  rewrite <- insert_sorted_perm. constructor. exact IH.
Qed.

Lemma insert_sorted_sorted (x : string) (l : list string) :
  Sorted (fun a b => String.leb a b = true) l ->
  Sorted (fun a b => String.leb a b = true) (insert_sorted x l).
Proof.
  induction 1 as [|y l Sl IH Hd]; simpl.
  - repeat constructor.
  - destruct (String.leb x y) eqn:E.
    + constructor; [constructor; assumption|]. constructor. exact E.
    + assert (Lyx : String.leb y x = true).
      { destruct (String.leb_total x y) as [L|L]; congruence. }
      constructor; [exact IH|].
      destruct l as [|z l]; simpl.
      * constructor. exact Lyx.
      * inversion Hd; subst.
        destruct (String.leb x z); constructor; assumption.
Qed.

Lemma sort_strings_sorted (l : list string) :
  Sorted (fun a b => String.leb a b = true) (sort_strings l).
Proof.
  induction l as [|x l IH]; simpl; [constructor|].
  apply insert_sorted_sorted. exact IH.
Qed.

(** ** Looking up what a cycle published *)

Lemma cache_org_found (context org : string) (s : reader) (e : entry) :
  Cache.get_entry (_cache s) context org = Ok e ->
  cache_org context org s = (ROk e, s).
Proof.
  intros G. apply get_entry_inv in G as (repos & Fc & Fr).
  unfold cache_org, hbind, cache_context. rewrite Fc, Fr. reflexivity.
Qed.

Lemma cache_org_missing (context org : string) (s : reader) :
  _cache_timestamp s <> None ->
  Cache.get_entry (_cache s) context org = Raise KeyError ->
  cache_org context org s = (RRaise (Builtin KeyError), s).
Proof.
  intros T G. unfold cache_org, hbind, cache_context, cache_is_cache_object.
  unfold Cache.get_entry in G.
  destruct (Cache.find context (_cache s)) as [repos|].
  - destruct (Cache.find org repos); [discriminate G | reflexivity].
  - destruct (_cache_timestamp s); [reflexivity | congruence].
Qed.

Lemma cache_field_found (context org key fld : string) (s : reader) (e : entry)
      (vivify : bool) (kv : list (pyval * pyval)) (v : pyval) :
  Cache.get_entry (_cache s) context org = Ok e ->
  Py.find (PStr key) e = Some (PDict vivify kv) ->
  Py.find (PStr fld) kv = Some v ->
  cache_field context org key fld s = (ROk v, s).
Proof.
  intros G Fk Ff. unfold cache_field, cache_sub, hbind.
  rewrite (cache_org_found _ _ _ _ G), Fk. cbn [hret]. rewrite Ff. reflexivity.
Qed.

(** ** What [jsonify] takes *)

Lemma jsonifiable_str_list (names : list string) :
  jsonifiable (str_list names) = true.
Proof.
  unfold str_list. cbn [jsonifiable].
  induction names as [|name names IH]; [reflexivity | exact IH].
Qed.

Lemma jsonify_org_list (context : string) (names : list string) :
  jsonify (dict_of [("context", PStr context); ("orgs", str_list names)]%string)
  = Json (dict_of [("context", PStr context); ("orgs", str_list names)]%string).
Proof.
  unfold jsonify.
  assert (J : jsonifiable (dict_of [("context", PStr context);
                                    ("orgs", str_list names)]%string) = true).
  { cbn [dict_of map fst snd jsonifiable keys_sortable forallb is_str orb andb].
    fold (str_list names). rewrite jsonifiable_str_list. reflexivity. }
  rewrite J. reflexivity.
Qed.

Section Presenter.

Variable w : world.
Variable py_sorted : list pyval -> option (list pyval).
Variable cache_refresh : bool.

(** X15.  In a [/contexts/<context>/orgs/<org>...] or
    [.../orgs_metadata/<org>] path the org is read in lower case, so every
    spelling of it is answered like the lowered one; and what follows a
    space name, [director] or the org of [orgs_metadata] is not looked
    at. *)
Theorem v1_path_is_normalised (context org : string) (more : list string)
        (s : reader) :
  _version_1 py_sorted cache_refresh
             ("contexts" :: context :: "orgs" :: org :: more)%string s
  = _version_1 py_sorted cache_refresh
               ("contexts" :: context :: "orgs" :: PyString.lower org :: more)%string s
  /\ _version_1 py_sorted cache_refresh
                ("contexts" :: context :: "orgs_metadata" :: org :: more)%string s
     = _version_1 py_sorted cache_refresh
                  ["contexts"; context; "orgs_metadata"; PyString.lower org]%string s
  /\ (forall space,
         _version_1 py_sorted cache_refresh
                    ("contexts" :: context :: "orgs" :: org :: "spaces"
                                :: space :: more)%string s
         = _version_1 py_sorted cache_refresh
                      ["contexts"; context; "orgs"; org; "spaces"; space]%string s)
  /\ _version_1 py_sorted cache_refresh
                ("contexts" :: context :: "orgs" :: org :: "director" :: more)%string s
     = _version_1 py_sorted cache_refresh
                  ["contexts"; context; "orgs"; org; "director"]%string s.
Proof.
  split; [|split; [|split]].
  - cbn [_version_1 String.eqb Ascii.eqb Bool.eqb andb negb is_empty].
    rewrite lower_idem. reflexivity.
  - cbn [_version_1 String.eqb Ascii.eqb Bool.eqb andb negb is_empty].
    rewrite lower_idem. reflexivity.
  - intros space. reflexivity.
  - reflexivity.
Qed.

(** X16.  A context the cache does not have, asked for as
    [/contexts/<context>].  Before the first refresh has completed the
    cache is the [CacheObject] of [__init__]: the answer is an empty org
    list, and the context is in the cache from then on.  Once a refresh
    has completed the cache is a plain [dict]: the answer is the 400 of
    [RequestError], and the cache is as it was. *)
Theorem unknown_context_before_and_after_refresh (context : string) (s : reader) :
  Cache.find context (_cache s) = None ->
  (_cache_timestamp s = None ->
   _version_1 py_sorted cache_refresh ["contexts"; context]%string s
   = (Json (dict_of [("context", PStr context); ("orgs", str_list [])]%string),
      set_cache (Cache.set context [] (_cache s)) s)
   /\ In context
         (Cache.keys (_cache (snd (_version_1 py_sorted cache_refresh
                                              ["contexts"; context]%string s)))))
  /\ (_cache_timestamp s <> None ->
      _version_1 py_sorted cache_refresh ["contexts"; context]%string s
      = (Abort400 RequestError, s)).
Proof.
  intros F.
  assert (E : _version_1 py_sorted cache_refresh ["contexts"; context]%string s
              = respond (_list_orgs context) s) by reflexivity.
  rewrite E. unfold respond, _list_orgs, except_key_error, hbind, cache_context,
    cache_is_cache_object.
  rewrite F. split.
  - intros T. rewrite T. cbn [hret fst snd]. split; [reflexivity|].
    cbn [_cache set_cache]. apply cache_keys_set. left. reflexivity.
  - intros T. destruct (_cache_timestamp s); [reflexivity | congruence].
Qed.

(** X17.  What a cycle stored for a space is what the presenter serves for
    it: after a [refresh] that returned, for every org of the cache, in
    whatever spelling, and every space the org lists by a string name,
    [/contexts/<context>/orgs/<org>/spaces/<space>] hands to [jsonify] the
    [space_config] and [security] the cache holds for the space, which are
    both [None] or both loaded, and leaves the reader as it was.  The
    answer is their JSON, unless one of them holds a mapping whose keys
    do not sort: then the [TypeError] of [jsonify] is caught by
    nothing. *)
Theorem get_space_serves_the_pair (fuel : nat) (s0 s : reader)
        (context org space : string) (e : entry) :
  refresh w fuel s0 = (Ok tt, s) ->
  Cache.get_entry (_cache s) context (PyString.lower org) = Ok e ->
  In (PStr space) (org_spaces e) ->
  exists sub space_config security,
    Py.find (PStr space) e = Some sub
    /\ field sub "space_config" = Some space_config
    /\ field sub "security" = Some security
    /\ Py.is_none space_config = Py.is_none security
    /\ (jsonifiable space_config = true ->
        jsonifiable security = true ->
        _version_1 py_sorted cache_refresh
                   ["contexts"; context; "orgs"; org; "spaces"; space]%string s
        = (Json (dict_of [("context", PStr context);
                          ("org", PStr (PyString.lower org));
                          ("space", PStr space);
                          ("space_config", space_config);
                          ("security_group", security)]%string),
           s))
    /\ (jsonifiable space_config = false \/ jsonifiable security = false ->
        _version_1 py_sorted cache_refresh
                   ["contexts"; context; "orgs"; org; "spaces"; space]%string s
        = (Uncaught (Builtin TypeError), s)).
Proof.
  intros R G I.
  apply refresh_Ok_inv in R as (s1 & B).
  apply build_new_cache_paired in B.
  destruct (cache_all_get_entry _ _ _ _ _ B G) as (_ & Listed).
  destruct (Listed _ I) as (v & Fv & (sec & spc & Fsec & Fspc & N)).
  destruct v as [| | | | |vivify kv]; try discriminate Fsec.
  exists (PDict vivify kv), spc, sec.
  split; [exact Fv|]. split; [exact Fspc|]. split; [exact Fsec|].
  split; [congruence|].
  cbn [field] in Fsec, Fspc.
  assert (E : _version_1 py_sorted cache_refresh
                ["contexts"; context; "orgs"; org; "spaces"; space]%string s
              = (jsonify (dict_of [("context", PStr context);
                                   ("org", PStr (PyString.lower org));
                                   ("space", PStr space);
                                   ("space_config", spc);
                                   ("security_group", sec)]%string), s)).
  { change (_version_1 py_sorted cache_refresh
              ["contexts"; context; "orgs"; org; "spaces"; space]%string s)
      with (respond (_get_space context (PyString.lower org) space) s).
    unfold respond, _get_space, except_key_error, hbind.
    rewrite (cache_field_found _ _ _ _ _ _ _ _ _ G Fv Fspc).
    rewrite (cache_field_found _ _ _ _ _ _ _ _ _ G Fv Fsec).
    reflexivity. }
  rewrite E. unfold jsonify.
  assert (J : jsonifiable (dict_of [("context", PStr context);
                                    ("org", PStr (PyString.lower org));
                                    ("space", PStr space);
                                    ("space_config", spc);
                                    ("security_group", sec)]%string)
              = andb (jsonifiable spc) (jsonifiable sec)).
  { cbn [dict_of map fst snd jsonifiable keys_sortable forallb is_str is_number
         orb andb]. rewrite Bool.andb_true_r. reflexivity. }
  rewrite J. split.
  - intros -> ->. reflexivity.
  - intros [-> | ->]; [reflexivity|]. rewrite Bool.andb_false_r. reflexivity.
Qed.

(** X18.  An org (or a context) that the published cache does not have:
    [/contexts/<c>/orgs/<org>], [.../director] and [.../spaces/<space>]
    are answered with the 400 of [RequestError]; [.../spaces] is not -
    [_list_spaces] builds the [RequestError] without raising it, and the
    [UnboundLocalError] of its [return rtn] is caught by nothing. *)
Theorem unknown_org_in_the_four_handlers (context org space : string) (s : reader) :
  _cache_timestamp s <> None ->
  Cache.get_entry (_cache s) context (PyString.lower org) = Raise KeyError ->
  _version_1 py_sorted cache_refresh
             ["contexts"; context; "orgs"; org]%string s
  = (Abort400 RequestError, s)
  /\ _version_1 py_sorted cache_refresh
                ["contexts"; context; "orgs"; org; "director"]%string s
     = (Abort400 RequestError, s)
  /\ _version_1 py_sorted cache_refresh
                ["contexts"; context; "orgs"; org; "spaces"; space]%string s
     = (Abort400 RequestError, s)
  /\ _version_1 py_sorted cache_refresh
                ["contexts"; context; "orgs"; org; "spaces"]%string s
     = (Uncaught (Builtin UnboundLocalError), s).
Proof.
  intros T G. pose proof (cache_org_missing _ _ _ T G) as M.
  repeat split.
  - change (respond (_get_org context (PyString.lower org)) s
            = (Abort400 RequestError, s)).
    unfold respond, _get_org, except_key_error, hbind, cache_sub, hbind.
    rewrite M. reflexivity.
  - change (respond (_get_director context (PyString.lower org)) s
            = (Abort400 RequestError, s)).
    unfold respond, _get_director, except_key_error, hbind, cache_sub, hbind.
    rewrite M. reflexivity.
  - change (respond (_get_space context (PyString.lower org) space) s
            = (Abort400 RequestError, s)).
    unfold respond, _get_space, except_key_error, hbind, cache_field, cache_sub,
      hbind.
    rewrite M. reflexivity.
  - change (respond (_list_spaces py_sorted context (PyString.lower org)) s
            = (Uncaught (Builtin UnboundLocalError), s)).
    unfold respond, _list_spaces, except_key_error, hbind, cache_sub, hbind.
    rewrite M. reflexivity.
Qed.

(** ** Serving a query only reads *)

Lemma quiet_refl (s : reader) : quiet s s.
Proof. unfold quiet. repeat split; reflexivity. Qed.

Lemma quiet_trans (s1 s2 s3 : reader) : quiet s1 s2 -> quiet s2 s3 -> quiet s1 s3.
Proof.
  unfold quiet.
  intros (A1 & A2 & A3 & A4 & A5 & A6 & A7 & A8) (B1 & B2 & B3 & B4 & B5 & B6 & B7 & B8).
  repeat split; try congruence.
  intros T. rewrite B8; [apply A8; exact T | congruence].
Qed.

Lemma quiet_set_cache (s : reader) (c : cache_t) :
  (_cache_timestamp s <> None -> shape c = shape (_cache s)) ->
  quiet s (set_cache c s).
Proof. intros Sh. unfold quiet. repeat split. exact Sh. Qed.

Lemma hquiet_hret {A} (a : A) : hquiet (hret a).
Proof. intros s. apply quiet_refl. Qed.

Lemma hquiet_hraise {A} (e : rest_exn) : hquiet (@hraise A e).
Proof. intros s. apply quiet_refl. Qed.

Lemma hquiet_hbind {A B} (m : H A) (k : A -> H B) :
  hquiet m -> (forall a, hquiet (k a)) -> hquiet (hbind m k).
Proof.
  intros Qm Qk s. unfold hbind. specialize (Qm s).
  destruct (m s) as [[a|e] s1]; simpl in *; [|exact Qm].
  eapply quiet_trans; [exact Qm | apply Qk].
Qed.

Lemma hquiet_except_key_error {A} (m h : H A) :
  hquiet m -> hquiet h -> hquiet (except_key_error m h).
Proof.
  intros Qm Qh s. unfold except_key_error. specialize (Qm s).
  destruct (m s) as [[a|e] s1]; simpl in *; [exact Qm|].
  destruct (is_key_error e); [|exact Qm].
  eapply quiet_trans; [exact Qm | apply Qh].
Qed.

Lemma hquiet_cache_context (context : string) : hquiet (cache_context context).
Proof.
  intros s. unfold cache_context, cache_is_cache_object.
  destruct (Cache.find context (_cache s)); [apply quiet_refl|].
  destruct (_cache_timestamp s) eqn:T; [apply quiet_refl|].
  simpl. apply quiet_set_cache. congruence.
Qed.

Lemma hquiet_cache_org (context org : string) : hquiet (cache_org context org).
Proof.
  unfold cache_org. apply hquiet_hbind; [apply hquiet_cache_context|].
  intros repos. destruct (Cache.find org repos);
    [apply hquiet_hret | apply hquiet_hraise].
Qed.

(** After [cache[context][org]] returned, the org is in the cache. *)
Lemma cache_org_Ok_inv (context org : string) (s s1 : reader) (e : entry) :
  cache_org context org s = (ROk e, s1) ->
  Cache.get_entry (_cache s1) context org = Ok e.
Proof.
  unfold cache_org, hbind, cache_context, cache_is_cache_object, Cache.get_entry.
  destruct (Cache.find context (_cache s)) as [repos|] eqn:Fc.
  - destruct (Cache.find org repos) as [e'|] eqn:Fr; [|discriminate].
    intros E. injection E as <- <-. rewrite Fc, Fr. reflexivity.
  - destruct (_cache_timestamp s); discriminate.
Qed.

Lemma hquiet_cache_sub (context org key : string) :
  hquiet (cache_sub context org key).
Proof.
  intros s. unfold cache_sub, hbind.
  pose proof (hquiet_cache_org context org s) as Q.
  destruct (cache_org context org s) as [[e|x] s1] eqn:E; simpl in Q; [|exact Q].
  apply cache_org_Ok_inv in E.
  destruct (Py.find (PStr key) e); [exact Q|].
  simpl. eapply quiet_trans; [exact Q|].
  apply quiet_set_cache. intros _. eapply shape_put_entry. exact E.
Qed.

Lemma hquiet_cache_field (context org key fld : string) :
  hquiet (cache_field context org key fld).
Proof.
  unfold cache_field. apply hquiet_hbind; [apply hquiet_cache_sub|].
  intros [| | | | |vivify kv]; try apply hquiet_hraise.
  destruct (Py.find (PStr fld) kv); [apply hquiet_hret|].
  destruct vivify; [|apply hquiet_hraise].
  intros s. simpl.
  destruct (Cache.get_entry (_cache s) context org) as [e| |] eqn:G;
    try apply quiet_refl.
  apply quiet_set_cache. intros _. eapply shape_put_entry. exact G.
Qed.

Lemma hquiet_py_get (v : pyval) (key : string) (default : pyval) :
  hquiet (py_get v key default).
Proof. destruct v; simpl; try apply hquiet_hraise. apply hquiet_hret. Qed.

Lemma hquiet_metadata_of (context : string) (orgs : list string)
      (rtn : list (pyval * pyval)) :
  hquiet (metadata_of context orgs rtn).
Proof.
  revert rtn. induction orgs as [|org orgs IH]; intros rtn; simpl.
  - apply hquiet_hret.
  - apply hquiet_hbind; [apply hquiet_cache_sub|]. intros org_config.
    apply hquiet_hbind; [apply hquiet_py_get|]. intros metadata. apply IH.
Qed.

Lemma hquiet__org_metadata (context : string) (org_name : option string) :
  hquiet (_org_metadata context org_name).
Proof.
  intros s. unfold _org_metadata.
  match goal with
  | |- quiet _ (snd (match ?m s with _ => _ end)) =>
      assert (Q : hquiet m); [|specialize (Q s); destruct (m s) as [[orgs|e] s1]]
  end; simpl in *.
  { destruct org_name as [name|]; [destruct (negb (String.eqb name EmptyString))|].
    - apply hquiet_hret.
    - apply hquiet_hbind; [apply hquiet_cache_context|]. intros. apply hquiet_hret.
    - apply hquiet_hbind; [apply hquiet_cache_context|]. intros. apply hquiet_hret. }
  - eapply quiet_trans; [exact Q|].
    apply hquiet_except_key_error;
      [apply hquiet_metadata_of | apply hquiet_hraise].
  - destruct (is_key_error e); exact Q.
Qed.

Lemma hquiet__list_orgs (context : string) : hquiet (_list_orgs context).
Proof.
  unfold _list_orgs. apply hquiet_except_key_error; [|apply hquiet_hraise].
  apply hquiet_hbind; [apply hquiet_cache_context|]. intros. apply hquiet_hret.
Qed.

Lemma hquiet__list_spaces (context org : string) :
  hquiet (_list_spaces py_sorted context org).
Proof.
  unfold _list_spaces. apply hquiet_except_key_error; [|apply hquiet_hraise].
  apply hquiet_hbind; [apply hquiet_cache_sub|]. intros space.
  apply hquiet_hbind; [apply hquiet_py_get|]. intros listed.
  destruct (Py.iter listed) as [spaces|]; [|apply hquiet_hraise].
  destruct (py_sorted spaces); [apply hquiet_hret | apply hquiet_hraise].
Qed.

Lemma hquiet__get_director (context org : string) :
  hquiet (_get_director context org).
Proof.
  unfold _get_director. apply hquiet_except_key_error; [|apply hquiet_hraise].
  apply hquiet_hbind; [apply hquiet_cache_sub|]. intros org_config.
  apply hquiet_hbind; [apply hquiet_py_get|]. intros metadata.
  apply hquiet_hbind; [apply hquiet_py_get|]. intros dirnm. apply hquiet_hret.
Qed.

Lemma hquiet__get_org (context org : string) : hquiet (_get_org context org).
Proof.
  unfold _get_org. apply hquiet_except_key_error; [|apply hquiet_hraise].
  apply hquiet_hbind; [apply hquiet_cache_sub|]. intros space.
  apply hquiet_hbind; [apply hquiet_cache_sub|]. intros org_config.
  apply hquiet_hret.
Qed.

Lemma hquiet__get_space (context org space : string) :
  hquiet (_get_space context org space).
Proof.
  unfold _get_space. apply hquiet_except_key_error; [|apply hquiet_hraise].
  apply hquiet_hbind; [apply hquiet_cache_field|]. intros space_config.
  apply hquiet_hbind; [apply hquiet_cache_field|]. intros security.
  apply hquiet_hret.
Qed.

Lemma quiet_respond (m : H pyval) (s : reader) :
  hquiet m -> quiet s (snd (respond m s)).
Proof.
  intros Q. specialize (Q s). unfold respond.
  destruct (m s) as [[v|[| | |e]] s1]; exact Q.
Qed.

(** ** Serving a query hands out empty values, and changes nothing else *)

Lemma dict_grows_refl (kv : list (pyval * pyval)) : dict_grows kv kv.
Proof. split; auto. Qed.

Lemma dict_grows_trans (a b c : list (pyval * pyval)) :
  dict_grows a b -> dict_grows b c -> dict_grows a c.
Proof.
  intros (K1 & N1) (K2 & N2). split.
  - intros k x F. apply K2, K1, F.
  - intros k x F. destruct (N2 k x F) as [F'|E]; [|auto]. apply N1, F'.
Qed.

Lemma value_grows_refl (v : pyval) : value_grows v v.
Proof. left. reflexivity. Qed.

Lemma value_grows_trans (a b c : pyval) :
  value_grows a b -> value_grows b c -> value_grows a c.
Proof.
  intros [->|(kv & kv' & -> & -> & G1)] [->|(kv1 & kv2 & E & -> & G2)].
  - left. reflexivity.
  - right. eauto.
  - right. eauto.
  - injection E as <-. right. exists kv, kv2.
    split; [reflexivity|]. split; [reflexivity|].
    eapply dict_grows_trans; eassumption.
Qed.

Lemma value_grows_empty (v' : pyval) :
  value_grows (PDict false []) v' -> v' = PDict false [].
Proof. intros [E|(kv & kv' & E & _)]; [exact E | discriminate E]. Qed.

Lemma entry_grows_refl (e : entry) : entry_grows e e.
Proof.
  split.
  - intros k v F. exists v. split; [exact F | apply value_grows_refl].
  - intros k v' F. left. eauto.
Qed.

Lemma entry_grows_trans (a b c : entry) :
  entry_grows a b -> entry_grows b c -> entry_grows a c.
Proof.
  intros (K1 & N1) (K2 & N2). split.
  - intros k v F. destruct (K1 k v F) as (v1 & F1 & G1).
    destruct (K2 k v1 F1) as (v2 & F2 & G2).
    exists v2. split; [exact F2|]. eapply value_grows_trans; eassumption.
  - intros k v2 F2. destruct (N2 k v2 F2) as [(v1 & F1)|E]; [|auto].
    destruct (N1 k v1 F1) as [Old|E]; [left; exact Old|].
    right. subst v1. destruct (K2 k _ F1) as (v2' & F2' & G).
    rewrite F2 in F2'. injection F2' as <-.
    apply value_grows_empty. exact G.
Qed.

Lemma cache_keys_nil {V} (m : list (string * V)) : Cache.keys m = [] -> m = [].
Proof. destruct m; [reflexivity | discriminate]. Qed.

Lemma cache_grows_refl (c : cache_t) : cache_grows c c.
Proof.
  split; [|split].
  - intros context repos F. eauto.
  - intros context repos' F N. congruence.
  - intros context org e G. exists e. split; [exact G | apply entry_grows_refl].
Qed.

Lemma cache_grows_trans (a b c : cache_t) :
  cache_grows a b -> cache_grows b c -> cache_grows a c.
Proof.
  intros (K1 & N1 & E1) (K2 & N2 & E2). split; [|split].
  - intros context repos F. destruct (K1 _ _ F) as (r1 & F1 & Keys1).
    destruct (K2 _ _ F1) as (r2 & F2 & Keys2).
    exists r2. split; [exact F2 | congruence].
  - intros context r2 F2 Na.
    destruct (Cache.find context b) as [r1|] eqn:F1; [|exact (N2 _ _ F2 F1)].
    pose proof (N1 _ _ F1 Na) as ->.
    destruct (K2 _ _ F1) as (r2' & F2' & Keys).
    rewrite F2 in F2'. injection F2' as <-.
    apply cache_keys_nil. exact Keys.
  - intros context org e G. destruct (E1 _ _ _ G) as (e1 & G1 & Gr1).
    destruct (E2 _ _ _ G1) as (e2 & G2 & Gr2).
    exists e2. split; [exact G2|]. eapply entry_grows_trans; eassumption.
Qed.

Lemma cache_grows_put_entry (c : cache_t) (context org : string) (e e' : entry) :
  Cache.get_entry c context org = Ok e ->
  entry_grows e e' ->
  cache_grows c (Cache.put_entry c context org e').
Proof.
  intros G Gr. pose proof G as G0.
  apply get_entry_inv in G0 as (repos & Fc & Fr).
  split; [|split].
  - intros context0 repos0 F0. unfold Cache.put_entry. rewrite Fc.
    destruct (string_dec context0 context) as [->|NE].
    + rewrite cache_find_set_same. rewrite Fc in F0. injection F0 as <-.
      eexists. split; [reflexivity|].
      eapply cache_keys_set_existing. exact Fr.
    + rewrite cache_find_set_other by exact NE. eauto.
  - intros context0 repos' F' N. exfalso. unfold Cache.put_entry in F'.
    rewrite Fc in F'.
    destruct (string_dec context0 context) as [->|NE]; [congruence|].
    rewrite cache_find_set_other in F' by exact NE. congruence.
  - intros context0 org0 e0 G0.
    destruct (string_dec context0 context) as [->|NEc].
    + destruct (string_dec org0 org) as [->|NEo].
      * rewrite G in G0. injection G0 as <-.
        exists e'. split; [|exact Gr]. eapply get_entry_put_entry. exact G.
      * exists e0. rewrite get_entry_put_entry_other by (right; exact NEo).
        split; [exact G0 | apply entry_grows_refl].
    + exists e0. rewrite get_entry_put_entry_other by (left; exact NEc).
      split; [exact G0 | apply entry_grows_refl].
Qed.

Lemma cache_grows_new_context (c : cache_t) (context : string) :
  Cache.find context c = None ->
  cache_grows c (Cache.set context [] c).
Proof.
  intros N. split; [|split].
  - intros context0 repos F.
    rewrite cache_find_set_other by congruence. eauto.
  - intros context0 repos' F' N0.
    destruct (string_dec context0 context) as [->|NE].
    + rewrite cache_find_set_same in F'. injection F' as <-. reflexivity.
    + rewrite cache_find_set_other in F' by exact NE. congruence.
  - intros context0 org e G. exists e. split; [|apply entry_grows_refl].
    unfold Cache.get_entry in *.
    destruct (string_dec context0 context) as [->|NE].
    + rewrite N in G. discriminate G.
    + rewrite cache_find_set_other by exact NE. exact G.
Qed.

(** A key that was missing gets an empty [dict]. *)
Lemma entry_grows_new_key (e : entry) (key : string) :
  Py.find (PStr key) e = None ->
  entry_grows e (Py.set (PStr key) (PDict false []) e).
Proof.
  intros N. split.
  - intros k v F. exists v. split; [|apply value_grows_refl].
    rewrite py_find_set. destruct (Py.key_eqb k (PStr key)) eqn:E; [|exact F].
    apply key_eqb_str_r in E. subst k. congruence.
  - intros k v' F. rewrite py_find_set in F.
    destruct (Py.key_eqb k (PStr key)).
    + right. congruence.
    + left. eauto.
Qed.

(** A [defaultdict] under a key gets an empty [dict] for a field that was
    missing. *)
Lemma entry_grows_new_field (e : entry) (key fld : string)
      (kv : list (pyval * pyval)) :
  Py.find (PStr key) e = Some (PDict true kv) ->
  Py.find (PStr fld) kv = None ->
  entry_grows e (Py.set (PStr key)
                        (PDict true (Py.set (PStr fld) (PDict false []) kv)) e).
Proof.
  intros F N. split.
  - intros k v Fk. rewrite py_find_set.
    destruct (Py.key_eqb k (PStr key)) eqn:E.
    + apply key_eqb_str_r in E. subst k. rewrite F in Fk. injection Fk as <-.
      eexists. split; [reflexivity|]. right. exists kv. eexists.
      split; [reflexivity|]. split; [reflexivity|]. split.
      * intros k x Fx. rewrite py_find_set.
        destruct (Py.key_eqb k (PStr fld)) eqn:E; [|exact Fx].
        apply key_eqb_str_r in E. subst k. congruence.
      * intros k x Fx. rewrite py_find_set in Fx.
        destruct (Py.key_eqb k (PStr fld)); [right; congruence | left; exact Fx].
    + exists v. split; [exact Fk | apply value_grows_refl].
  - intros k v' Fk. left. rewrite py_find_set in Fk.
    destruct (Py.key_eqb k (PStr key)) eqn:E; [|eauto].
    apply key_eqb_str_r in E. subst k. eauto.
Qed.

Lemma hgrows_hret {A} (a : A) : hgrows (hret a).
Proof. intros s. apply cache_grows_refl. Qed.

Lemma hgrows_hraise {A} (e : rest_exn) : hgrows (@hraise A e).
Proof. intros s. apply cache_grows_refl. Qed.

Lemma hgrows_hbind {A B} (m : H A) (k : A -> H B) :
  hgrows m -> (forall a, hgrows (k a)) -> hgrows (hbind m k).
Proof.
  intros Qm Qk s. unfold hbind. specialize (Qm s).
  destruct (m s) as [[a|e] s1]; simpl in *; [|exact Qm].
  eapply cache_grows_trans; [exact Qm | apply Qk].
Qed.

Lemma hgrows_except_key_error {A} (m h : H A) :
  hgrows m -> hgrows h -> hgrows (except_key_error m h).
Proof.
  intros Qm Qh s. unfold except_key_error. specialize (Qm s).
  destruct (m s) as [[a|e] s1]; simpl in *; [exact Qm|].
  destruct (is_key_error e); [|exact Qm].
  eapply cache_grows_trans; [exact Qm | apply Qh].
Qed.

Lemma hgrows_cache_context (context : string) : hgrows (cache_context context).
Proof.
  intros s. unfold cache_context.
  destruct (Cache.find context (_cache s)) eqn:F; [apply cache_grows_refl|].
  destruct (cache_is_cache_object s); [|apply cache_grows_refl].
  cbn [snd _cache set_cache]. apply cache_grows_new_context. exact F.
Qed.

Lemma hgrows_cache_org (context org : string) : hgrows (cache_org context org).
Proof.
  unfold cache_org. apply hgrows_hbind; [apply hgrows_cache_context|].
  intros repos. destruct (Cache.find org repos);
    [apply hgrows_hret | apply hgrows_hraise].
Qed.

(** After [cache[context][org][key]] returned, the org's container holds
    what was returned under the key. *)
Lemma cache_sub_Ok_inv (context org key : string) (s s1 : reader) (v : pyval) :
  cache_sub context org key s = (ROk v, s1) ->
  exists e1, Cache.get_entry (_cache s1) context org = Ok e1
             /\ Py.find (PStr key) e1 = Some v.
Proof.
  unfold cache_sub, hbind.
  destruct (cache_org context org s) as [[e|x] s0] eqn:E; [|discriminate].
  apply cache_org_Ok_inv in E.
  destruct (Py.find (PStr key) e) as [v0|] eqn:F.
  - intros R. injection R as <- <-. eauto.
  - intros R. injection R as <- <-. eexists. split.
    + cbn [_cache set_cache]. eapply get_entry_put_entry. exact E.
    + apply py_find_set_same. reflexivity.
Qed.

Lemma hgrows_cache_sub (context org key : string) :
  hgrows (cache_sub context org key).
Proof.
  intros s. unfold cache_sub, hbind.
  pose proof (hgrows_cache_org context org s) as Q.
  destruct (cache_org context org s) as [[e|x] s1] eqn:E; simpl in Q; [|exact Q].
  apply cache_org_Ok_inv in E.
  destruct (Py.find (PStr key) e) eqn:F; [exact Q|].
  cbn [snd _cache set_cache]. eapply cache_grows_trans; [exact Q|].
  eapply cache_grows_put_entry; [exact E|].
  apply entry_grows_new_key. exact F.
Qed.

Lemma hgrows_cache_field (context org key fld : string) :
  hgrows (cache_field context org key fld).
Proof.
  intros s. unfold cache_field, hbind.
  pose proof (hgrows_cache_sub context org key s) as Q.
  destruct (cache_sub context org key s) as [[sub|x] s1] eqn:E; simpl in Q;
    [|exact Q].
  apply cache_sub_Ok_inv in E as (e1 & G1 & F1).
  destruct sub as [| | | | |vivify kv]; try exact Q.
  destruct (Py.find (PStr fld) kv) eqn:Ff; [exact Q|].
  destruct vivify; [|exact Q].
  cbn [snd]. rewrite G1. cbn [_cache set_cache].
  eapply cache_grows_trans; [exact Q|].
  eapply cache_grows_put_entry; [exact G1|].
  apply entry_grows_new_field; assumption.
Qed.

Lemma hgrows_py_get (v : pyval) (key : string) (default : pyval) :
  hgrows (py_get v key default).
Proof. destruct v; simpl; try apply hgrows_hraise. apply hgrows_hret. Qed.

Lemma hgrows_metadata_of (context : string) (orgs : list string)
      (rtn : list (pyval * pyval)) :
  hgrows (metadata_of context orgs rtn).
Proof.
  revert rtn. induction orgs as [|org orgs IH]; intros rtn; simpl.
  - apply hgrows_hret.
  - apply hgrows_hbind; [apply hgrows_cache_sub|]. intros org_config.
    apply hgrows_hbind; [apply hgrows_py_get|]. intros metadata. apply IH.
Qed.

Lemma hgrows__org_metadata (context : string) (org_name : option string) :
  hgrows (_org_metadata context org_name).
Proof.
  intros s. unfold _org_metadata.
  match goal with
  | |- cache_grows _ (_cache (snd (match ?m s with _ => _ end))) =>
      assert (Q : hgrows m); [|specialize (Q s); destruct (m s) as [[orgs|e] s1]]
  end; simpl in *.
  { destruct org_name as [name|]; [destruct (negb (String.eqb name EmptyString))|].
    - apply hgrows_hret.
    - apply hgrows_hbind; [apply hgrows_cache_context|]. intros. apply hgrows_hret.
    - apply hgrows_hbind; [apply hgrows_cache_context|]. intros. apply hgrows_hret. }
  - eapply cache_grows_trans; [exact Q|].
    apply hgrows_except_key_error;
      [apply hgrows_metadata_of | apply hgrows_hraise].
  - destruct (is_key_error e); exact Q.
Qed.

Lemma hgrows__list_orgs (context : string) : hgrows (_list_orgs context).
Proof.
  unfold _list_orgs. apply hgrows_except_key_error; [|apply hgrows_hraise].
  apply hgrows_hbind; [apply hgrows_cache_context|]. intros. apply hgrows_hret.
Qed.

Lemma hgrows__list_spaces (context org : string) :
  hgrows (_list_spaces py_sorted context org).
Proof.
  unfold _list_spaces. apply hgrows_except_key_error; [|apply hgrows_hraise].
  apply hgrows_hbind; [apply hgrows_cache_sub|]. intros space.
  apply hgrows_hbind; [apply hgrows_py_get|]. intros listed.
  destruct (Py.iter listed) as [spaces|]; [|apply hgrows_hraise].
  destruct (py_sorted spaces); [apply hgrows_hret | apply hgrows_hraise].
Qed.

Lemma hgrows__get_director (context org : string) :
  hgrows (_get_director context org).
Proof.
  unfold _get_director. apply hgrows_except_key_error; [|apply hgrows_hraise].
  apply hgrows_hbind; [apply hgrows_cache_sub|]. intros org_config.
  apply hgrows_hbind; [apply hgrows_py_get|]. intros metadata.
  apply hgrows_hbind; [apply hgrows_py_get|]. intros dirnm. apply hgrows_hret.
Qed.

Lemma hgrows__get_org (context org : string) : hgrows (_get_org context org).
Proof.
  unfold _get_org. apply hgrows_except_key_error; [|apply hgrows_hraise].
  apply hgrows_hbind; [apply hgrows_cache_sub|]. intros space.
  apply hgrows_hbind; [apply hgrows_cache_sub|]. intros org_config.
  apply hgrows_hret.
Qed.

Lemma hgrows__get_space (context org space : string) :
  hgrows (_get_space context org space).
Proof.
  unfold _get_space. apply hgrows_except_key_error; [|apply hgrows_hraise].
  apply hgrows_hbind; [apply hgrows_cache_field|]. intros space_config.
  apply hgrows_hbind; [apply hgrows_cache_field|]. intros security.
  apply hgrows_hret.
Qed.

Lemma grows_respond (m : H pyval) (s : reader) :
  hgrows m -> cache_grows (_cache s) (_cache (snd (respond m s))).
Proof.
  intros Q. specialize (Q s). unfold respond.
  destruct (m s) as [[v|[| | |e]] s1]; exact Q.
Qed.

Lemma _version_1_quiet (components : list string) (s : reader) :
  quiet s (snd (_version_1 py_sorted cache_refresh components s)).
Proof.
  unfold _version_1.
  repeat match goal with
         | |- quiet _ (snd (respond _ _)) => apply quiet_respond
         | |- quiet _ (snd (_, ?s)) => apply quiet_refl
         | |- quiet _ (snd ((if ?b then _ else _) _)) => destruct b
         | |- quiet _ (snd (match ?l with [] => _ | _ :: _ => _ end _)) =>
             destruct l
         | |- quiet _ (snd ((let _ := _ in _) _)) => cbv zeta
         | |- hquiet (hraise _) => apply hquiet_hraise
         | |- hquiet _list_contexts => intros s'; apply quiet_refl
         | |- hquiet (_list_orgs _) => apply hquiet__list_orgs
         | |- hquiet (_org_metadata _ _) => apply hquiet__org_metadata
         | |- hquiet (_get_org _ _) => apply hquiet__get_org
         | |- hquiet (_get_director _ _) => apply hquiet__get_director
         | |- hquiet (_list_spaces _ _ _) => apply hquiet__list_spaces
         | |- hquiet (_get_space _ _ _) => apply hquiet__get_space
         end.
Qed.

(** X19.  Whatever the path, [_version_1] itself sends no request, fetches
    no token, reads no clock and leaves the timestamp and the reader's
    configuration alone (the refresh of [/refresh] runs on a thread of its
    own, not in the handler).  The one thing it can change is the cache,
    and only by the empty values that are handed out: every context keeps
    its org keys, and a context that is new - there is none once a refresh
    has completed - has no org; in the container of every org each key
    keeps its value, except that a [defaultdict(dict)] under it may have
    got empty [dict]s under fields it did not have, and each new key holds
    an empty [dict]. *)
Theorem serving_a_query_only_reads (components : list string) (s : reader) :
  quiet s (snd (_version_1 py_sorted cache_refresh components s))
  /\ cache_grows (_cache s)
                 (_cache (snd (_version_1 py_sorted cache_refresh components s))).
Proof.
  split; [apply _version_1_quiet|].
  unfold _version_1.
  repeat match goal with
         | |- cache_grows _ (_cache (snd (respond _ _))) => apply grows_respond
         | |- cache_grows _ (_cache (snd (_, ?s))) => apply cache_grows_refl
         | |- cache_grows _ (_cache (snd ((if ?b then _ else _) _))) => destruct b
         | |- cache_grows _ (_cache (snd (match ?l with [] => _ | _ :: _ => _ end _))) =>
             destruct l
         | |- cache_grows _ (_cache (snd ((let _ := _ in _) _))) => cbv zeta
         | |- hgrows (hraise _) => apply hgrows_hraise
         | |- hgrows _list_contexts => intros s'; apply cache_grows_refl
         | |- hgrows (_list_orgs _) => apply hgrows__list_orgs
         | |- hgrows (_org_metadata _ _) => apply hgrows__org_metadata
         | |- hgrows (_get_org _ _) => apply hgrows__get_org
         | |- hgrows (_get_director _ _) => apply hgrows__get_director
         | |- hgrows (_list_spaces _ _ _) => apply hgrows__list_spaces
         | |- hgrows (_get_space _ _ _) => apply hgrows__get_space
         end.
Qed.

(** X20.  The orgs of a context the cache has: [/contexts/<context>] and
    [/contexts/<context>/orgs] give the same answer, which lists the org
    keys of the context - each as often as the cache has it, none else -
    in ascending order, and leave the reader as it was. *)
Theorem list_orgs_lists_the_org_keys (context : string) (s : reader)
        (repos : repo_map) :
  Cache.find context (_cache s) = Some repos ->
  exists names,
    _version_1 py_sorted cache_refresh ["contexts"; context]%string s
    = (Json (dict_of [("context", PStr context); ("orgs", str_list names)]%string), s)
    /\ _version_1 py_sorted cache_refresh ["contexts"; context; "orgs"]%string s
       = _version_1 py_sorted cache_refresh ["contexts"; context]%string s
    /\ Permutation (Cache.keys repos) names
    /\ Sorted (fun a b => String.leb a b = true) names.
Proof.
  intros F. exists (sort_strings (Cache.keys repos)).
  split; [|split; [reflexivity | split]].
  - change (respond (_list_orgs context) s
            = (Json (dict_of [("context", PStr context);
                              ("orgs", str_list (sort_strings (Cache.keys repos)))]%string),
               s)).
    unfold respond, _list_orgs, except_key_error, hbind, cache_context.
    rewrite F. cbn [hret]. rewrite jsonify_org_list. reflexivity.
  - apply sort_strings_perm.
  - apply sort_strings_sorted.
Qed.

End Presenter.

Lemma cache_find_of_key {V} (k : string) (m : list (string * V)) :
  In k (Cache.keys m) -> exists v, Cache.find k m = Some v.
Proof.
  unfold Cache.keys. induction m as [|[k' v'] m IH]; simpl; [intros []|].
  destruct (String.eqb k k') eqn:E; [eauto|].
  intros [Eq|I]; [|exact (IH I)].
  subst k'. rewrite String.eqb_refl in E. discriminate E.
Qed.

Lemma cache_find_In_key {V} (k : string) (v : V) (m : list (string * V)) :
  Cache.find k m = Some v -> In (k, v) m.
Proof.
  induction m as [|[k' v'] m IH]; simpl; [discriminate|].
  destruct (String.eqb k k') eqn:E.
  - apply String.eqb_eq in E. subst k'. intros F. injection F as ->. left. reflexivity.
  - intros F. right. exact (IH F).
Qed.

Lemma cache_set_same {V} (k : string) (v : V) (m : list (string * V)) :
  Cache.find k m = Some v -> Cache.set k v m = m.
Proof.
  induction m as [|[k' v'] m IH]; simpl; [discriminate|].
  destruct (String.eqb k k').
  - intros F. injection F as ->. reflexivity.
  - intros F. rewrite (IH F). reflexivity.
Qed.

Lemma put_entry_same (c : cache_t) (context repo : string) (e : entry) :
  Cache.get_entry c context repo = Ok e -> Cache.put_entry c context repo e = c.
Proof.
  intros G. apply get_entry_inv in G as (repos & Fc & Fr).
  unfold Cache.put_entry. rewrite Fc, (cache_set_same _ _ _ Fr).
  apply cache_set_same. exact Fc.
Qed.

Lemma set_cache_same (s : reader) : set_cache (_cache s) s = s.
Proof. destruct s. reflexivity. Qed.

(** [cache[context][org][key]] on an org the cache has: the value under
    the key, or an empty [dict] that is stored under it. *)
Lemma cache_sub_eq (context org key : string) (s : reader) (e : entry) :
  Cache.get_entry (_cache s) context org = Ok e ->
  cache_sub context org key s
  = (ROk (old_or_empty e (PStr key)),
     set_cache (Cache.put_entry (_cache s) context org (handed_out e key)) s).
Proof.
  intros G. unfold cache_sub, hbind, old_or_empty, handed_out.
  rewrite (cache_org_found _ _ _ _ G).
  destruct (Py.find (PStr key) e) as [v|].
  - rewrite (put_entry_same _ _ _ _ G), set_cache_same. reflexivity.
  - reflexivity.
Qed.

Lemma jsonify_two_fields (a b c d : string) (u v x y : pyval) :
  is_str u = true -> is_str v = true ->
  jsonify (dict_of [(a, u); (b, v); (c, x); (d, y)])
  = if andb (jsonifiable x) (jsonifiable y)
    then Json (dict_of [(a, u); (b, v); (c, x); (d, y)])
    else Uncaught (Builtin TypeError).
Proof.
  destruct u; try discriminate. destruct v; try discriminate. intros _ _.
  unfold jsonify.
  cbn [dict_of map fst snd jsonifiable keys_sortable forallb is_str orb andb].
  rewrite Bool.andb_true_r. reflexivity.
Qed.

Section Reachable.

Variable w : world.
Variable py_sorted : list pyval -> option (list pyval).
Variable cache_refresh : bool.

(** X28.  Every org of a published cache can be asked for, in any
    capitalisation of its key: the key was lowered when the skeleton was
    built, the name in the path is lowered when it is read, so
    [/contexts/<context>/orgs/<org>] never ends in the 400 of
    [RequestError].  It hands to [jsonify] what the org's container holds
    under [space] and under [org] - an empty [dict] for the one the cycle
    did not record, which the container holds from then on; nothing else
    in the reader changes.  The answer is their JSON, unless one of them
    holds a mapping whose keys do not sort: then the [TypeError] of
    [jsonify] is caught by nothing. *)
Theorem published_orgs_are_reachable (fuel : nat) (s0 s : reader)
        (context : string) (repos : repo_map) (k org : string) (e : entry) :
  refresh w fuel s0 = (Ok tt, s) ->
  Cache.find context (_cache s) = Some repos ->
  Cache.find k repos = Some e ->
  PyString.lower org = PyString.lower k ->
  let space := old_or_empty e (PStr "space") in
  let org_config := old_or_empty e (PStr "org") in
  let answer := dict_of [("context", PStr context); ("org", PStr k);
                         ("space", space); ("org_config", org_config)]%string in
  _version_1 py_sorted cache_refresh
             ["contexts"; context; "orgs"; org]%string s
  = (if andb (jsonifiable space) (jsonifiable org_config)
     then Json answer
     else Uncaught (Builtin TypeError),
     set_cache (Cache.put_entry (_cache s) context k
                                (handed_out (handed_out e "space") "org")) s).
Proof.
  intros Rf Fc Fk Lo. cbv zeta.
  assert (Ik : In k (Cache.keys repos)).
  { unfold Cache.keys. apply in_map_iff. exists (k, e).
    split; [reflexivity|]. apply cache_find_In_key. exact Fk. }
  assert (Lk : PyString.lower k = k).
  { eapply (refresh_org_keys_lower w); [exact Rf | | exact Ik].
    apply cache_find_In_key. exact Fc. }
  rewrite Lk in Lo.
  assert (G : Cache.get_entry (_cache s) context k = Ok e).
  { unfold Cache.get_entry. rewrite Fc, Fk. reflexivity. }
  change (_version_1 py_sorted cache_refresh
                     ["contexts"; context; "orgs"; org]%string s)
    with (respond (_get_org context (PyString.lower org)) s).
  rewrite Lo.
  unfold respond, _get_org, except_key_error, hbind.
  rewrite (cache_sub_eq context k "space" s e G).
  assert (G1 : Cache.get_entry
                 (_cache (set_cache (Cache.put_entry (_cache s) context k
                                                     (handed_out e "space")) s))
                 context k
               = Ok (handed_out e "space")).
  { cbn [_cache set_cache]. eapply get_entry_put_entry. exact G. }
  rewrite (cache_sub_eq context k "org" _ _ G1).
  cbn [_cache set_cache hret].
  rewrite (put_entry_put_entry _ _ _ _ _ _ G).
  assert (O : old_or_empty (handed_out e "space") (PStr "org")
              = old_or_empty e (PStr "org")).
  { unfold old_or_empty, handed_out.
    destruct (Py.find (PStr "space") e); [reflexivity|].
    rewrite py_find_set_str. reflexivity. }
  rewrite O, jsonify_two_fields by reflexivity.
  destruct (andb _ _); reflexivity.
Qed.

End Reachable.

Section Metadata.

Variable py_sorted : list pyval -> option (list pyval).
Variable cache_refresh : bool.

(** X26.  [orgs_metadata] once a refresh has completed.  Without an org
    name and for a context the cache does not have, the [KeyError] handler
    of [_org_metadata] formats [orgs], which is not bound yet: the
    [UnboundLocalError] is caught by nothing.  With the name of an org the
    cache does not have, the answer is the 400 of [RequestError].  With
    the name of an org whose [orgConfig.yml] is in the cache, [jsonify]
    gets the lowered name mapped to the [metadata] of the file, [None]
    when it has none: the answer is its JSON, unless the metadata holds a
    mapping whose keys do not sort - then the [TypeError] of [jsonify] is
    caught by nothing.  The reader is left as it was. *)
Theorem orgs_metadata_answers (context org : string) (s : reader) :
  _cache_timestamp s <> None ->
  PyString.lower org <> EmptyString ->
  (Cache.find context (_cache s) = None ->
   _version_1 py_sorted cache_refresh
              ["contexts"; context; "orgs_metadata"]%string s
   = (Uncaught (Builtin UnboundLocalError), s))
  /\ (Cache.get_entry (_cache s) context (PyString.lower org) = Raise KeyError ->
      _version_1 py_sorted cache_refresh
                 ["contexts"; context; "orgs_metadata"; org]%string s
      = (Abort400 RequestError, s))
  /\ (forall e vivify kv,
         Cache.get_entry (_cache s) context (PyString.lower org) = Ok e ->
         Py.find (PStr "org") e = Some (PDict vivify kv) ->
         let metadata := match Py.find (PStr "metadata") kv with
                         | Some metadata => metadata
                         | None => PNone
                         end in
         _version_1 py_sorted cache_refresh
                    ["contexts"; context; "orgs_metadata"; org]%string s
         = (if jsonifiable metadata
            then Json (PDict false [(PStr (PyString.lower org), metadata)])
            else Uncaught (Builtin TypeError),
            s)).
Proof.
  intros T Named. split; [|split].
  - intros F.
    change (respond (_org_metadata context None) s
            = (Uncaught (Builtin UnboundLocalError), s)).
    unfold respond, _org_metadata, hbind, cache_context, cache_is_cache_object.
    rewrite F. destruct (_cache_timestamp s); [reflexivity | congruence].
  - intros G.
    change (respond (_org_metadata context (Some (PyString.lower org))) s
            = (Abort400 RequestError, s)).
    unfold respond, _org_metadata.
    assert (N : negb (String.eqb (PyString.lower org) EmptyString) = true).
    { destruct (String.eqb _ _) eqn:E; [|reflexivity].
      apply String.eqb_eq in E. contradiction. }
    rewrite N. cbn [hret metadata_of].
    unfold except_key_error, hbind, cache_sub, hbind.
    rewrite (cache_org_missing _ _ _ T G). reflexivity.
  - intros e vivify kv G F. cbv zeta.
    change (_version_1 py_sorted cache_refresh
                       ["contexts"; context; "orgs_metadata"; org]%string s)
      with (respond (_org_metadata context (Some (PyString.lower org))) s).
    unfold respond, _org_metadata.
    assert (N : negb (String.eqb (PyString.lower org) EmptyString) = true).
    { destruct (String.eqb _ _) eqn:E; [|reflexivity].
      apply String.eqb_eq in E. contradiction. }
    rewrite N. cbn [hret metadata_of].
    unfold except_key_error, hbind, cache_sub, hbind.
    rewrite (cache_org_found _ _ _ _ G), F.
    cbn [hret py_get Py.set]. unfold jsonify.
    cbn [jsonifiable map fst snd keys_sortable Py.hashable forallb andb].
    rewrite Bool.andb_true_r.
    destruct (jsonifiable _); reflexivity.
Qed.

End Metadata.

(* ================================================================= *)
(** * Constructing the reader *)

Section Init.

Variable w : world.

(** X27.  [__init__] either fails on the token or builds the skeleton.
    When the token exchange fails, its exception comes out of the
    constructor before any GET.  When the constructor returns, the reader
    has the contexts it was given - a string cut at commas and colons -,
    no timestamp, and a cache with exactly these contexts as keys, each
    once, all org containers empty. *)
Theorem init_outcomes (fuel : nat) (context_list : string + list string)
        (s : reader) :
  (fetch_token w (tokens s) = None ->
   BBDirReader_init w fuel context_list s = (Raise TokenError, add_event EvToken s))
  /\ (forall s',
         BBDirReader_init w fuel context_list s = (Ok tt, s') ->
         _contexts s' = contexts_of context_list
         /\ _cache_timestamp s' = None
         /\ NoDup (Cache.keys (_cache s'))
         /\ (forall ctxt, In ctxt (Cache.keys (_cache s'))
                          <-> In ctxt (contexts_of context_list))
         /\ cache_all (fun e => e = []) (_cache s')).
Proof.
  unfold BBDirReader_init, init. split.
  - intros F. unfold bind at 1, _get_oauth_token. rewrite F. reflexivity.
  - intros s' R.
    apply bind_Ok_inv in R as (tok & s1 & Tk & R).
    apply bind_Ok_inv in R as (u1 & s2 & M1 & R).
    apply bind_Ok_inv in R as (u2 & s3 & M2 & R).
    apply bind_Ok_inv in R as (u3 & s4 & M3 & R).
    apply bind_Ok_inv in R as (c & s5 & Mk & R).
    unfold modify in M1, M2, M3, R.
    injection M1 as _ <-. injection M2 as _ <-. injection M3 as _ <-.
    injection R as <-.
    pose proof (keeps__make_cache w fuel
                  (set_cache_timestamp None
                     (set_contexts (contexts_of context_list)
                        (set_auth_token tok s1)))) as K.
    rewrite Mk in K. destruct K as (_ & _ & Kc & _ & Kt). cbn [snd] in Kc, Kt.
    unfold _make_cache, bind, get_self in Mk.
    cbn [_contexts set_cache_timestamp set_contexts] in Mk.
    destruct (make_cache_loop_keys _ _ _ _ _ _ _ Mk (NoDup_nil _)) as (ND & Keys).
    cbn [_contexts _cache_timestamp _cache set_cache].
    split; [exact Kc|]. split; [exact Kt|]. split; [exact ND|]. split.
    + intros ctxt. rewrite Keys. simpl. tauto.
    + eapply make_cache_loop_empty; [|exact Mk]. constructor.
Qed.

End Init.

(* ================================================================= *)
(** * The file listing *)

Lemma all_str_strings (vs : list pyval) :
  Forall (fun v => exists name, v = PStr name) vs ->
  exists names, all_str vs = Ok names.
Proof.
  induction 1 as [|v vs (name & ->) _ (names & IH)]; simpl.
  - eauto.
  - rewrite IH. simpl. eauto.
Qed.

Lemma all_str_other (vs : list pyval) :
  Exists (fun v => forall name, v <> PStr name) vs ->
  all_str vs = Raise TypeError.
Proof.
  induction vs as [|v vs IH]; intros E; [inversion E|].
  destruct v as [| | |name| |]; try reflexivity.
  inversion E as [? ? Hd|? ? Tl]; subst.
  - exfalso. apply (Hd name). reflexivity.
  - simpl. rewrite (IH Tl). reflexivity.
Qed.

Section FileList.

Variable w : world.

(** X21.  [_file_list] hands on what the listing of
    [<context>/repos/<slug>/files] gave when every item of it is a string.
    When one item is not, it raises [TypeError] - from the debug line that
    joins the names, the only use it makes of them. *)
Theorem file_list_needs_string_names (fuel : nat) (context slug : string)
        (s s' : reader) (filenames : list pyval) :
  _bb_rest_get w fuel (context +s+ "/repos/" +s+ slug +s+ "/files") s
  = (Ok filenames, s') ->
  (Forall (fun v => exists name, v = PStr name) filenames ->
   _file_list w fuel context slug s = (Ok filenames, s'))
  /\ (Exists (fun v => forall name, v <> PStr name) filenames ->
      _file_list w fuel context slug s = (Raise TypeError, s')).
Proof.
  intros L. unfold _file_list. erewrite bind_Ok by exact L. split.
  - intros A. destruct filenames as [|v vs]; [reflexivity|].
    destruct (all_str_strings _ A) as (names & E).
    unfold bind, lift. rewrite E. reflexivity.
  - intros E. destruct filenames as [|v vs]; [inversion E|].
    unfold bind, lift. rewrite (all_str_other _ E). reflexivity.
Qed.

End FileList.

(* ================================================================= *)
(** * The endpoint registry and the dispatcher *)

Lemma dict_pop_set_absent {V} (k : string) (v : V) (m : list (string * V)) :
  Cache.find k m = None -> dict_pop k (Cache.set k v m) = m.
Proof.
  induction m as [|[k' v'] m IH]; simpl.
  - rewrite String.eqb_refl. reflexivity.
  - destruct (String.eqb k k') eqn:E; [discriminate|].
    intros F. simpl. rewrite E, (IH F). reflexivity.
Qed.

Lemma registered_find (name : string) (commands : commands_t) :
  registered name commands = false <-> Cache.find name commands = None.
Proof.
  unfold registered. destruct (Cache.find name commands); split; congruence.
Qed.

(** X22.  Registering and unregistering are inverse to each other: an
    endpoint under a name that is free and is not one of the five default
    names is found under its name once registered, no other name is
    touched, a second registration under the name raises
    [AlreadyRegistered] and changes nothing, and unregistering the name
    gives the registry back as it was. *)
Theorem register_then_unregister (endpoint other : Endpoint)
        (commands : commands_t) :
  registered (_name endpoint) commands = false ->
  existsb (String.eqb (_name endpoint)) default_endpoint_names = false ->
  _name other = _name endpoint ->
  exists commands',
    register_endpoint endpoint commands = (inr tt, commands')
    /\ Cache.find (_name endpoint) commands' = Some endpoint
    /\ (forall name, name <> _name endpoint ->
                     Cache.find name commands' = Cache.find name commands)
    /\ register_endpoint other commands'
       = (inl (AlreadyRegistered (_name endpoint)), commands')
    /\ unregister_endpoint_by_name (_name endpoint) commands'
       = (inr tt, commands).
Proof.
  intros Free NoDefault Same.
  exists (Cache.set (_name endpoint) endpoint commands).
  unfold register_endpoint, unregister_endpoint_by_name.
  rewrite Free, Same, NoDefault. unfold registered.
  rewrite cache_find_set_same. cbn [negb].
  split; [reflexivity|]. split; [reflexivity|]. split; [|split].
  - intros name NE. apply cache_find_set_other. exact NE.
  - reflexivity.
  - rewrite dict_pop_set_absent; [reflexivity|].
    apply registered_find. exact Free.
Qed.

(** X23.  One of the five default names is never in the way of a
    registration - the defaults are not kept in the registry - but whatever
    is registered under it stays: unregistering the name raises
    [CannotUnregister], whether something is registered under it or not.
    A name that is neither a default nor registered raises
    [NoSuchEndpoint].  In both cases the registry is as before. *)
Theorem unregister_refusals (endpoint_name : string) (commands : commands_t) :
  (In endpoint_name default_endpoint_names ->
   unregister_endpoint_by_name endpoint_name commands
   = (inl (CannotUnregister endpoint_name), commands)
   /\ forall endpoint,
       _name endpoint = endpoint_name ->
       registered endpoint_name commands = false ->
       fst (register_endpoint endpoint commands) = inr tt
       /\ unregister_endpoint_by_name endpoint_name
                                      (snd (register_endpoint endpoint commands))
          = (inl (CannotUnregister endpoint_name),
             snd (register_endpoint endpoint commands)))
  /\ (~ In endpoint_name default_endpoint_names ->
      registered endpoint_name commands = false ->
      unregister_endpoint_by_name endpoint_name commands
      = (inl (NoSuchEndpoint endpoint_name), commands)).
Proof.
  assert (D : forall c, In endpoint_name default_endpoint_names ->
                        unregister_endpoint_by_name endpoint_name c
                        = (inl (CannotUnregister endpoint_name), c)).
  { intros c I. unfold unregister_endpoint_by_name.
    assert (E : existsb (String.eqb endpoint_name) default_endpoint_names = true).
    { apply existsb_exists. exists endpoint_name. split; [exact I|].
      apply String.eqb_refl. }
    rewrite E. reflexivity. }
  split.
  - intros I. split; [apply D; exact I|].
    intros endpoint N Free. split.
    + unfold register_endpoint. rewrite N, Free. reflexivity.
    + apply D. exact I.
  - intros NI Free. unfold unregister_endpoint_by_name.
    assert (E : existsb (String.eqb endpoint_name) default_endpoint_names = false).
    { destruct (existsb _ _) eqn:X; [|reflexivity].
      apply existsb_exists in X as (x & I & Eq).
      apply String.eqb_eq in Eq. subst x. contradiction. }
    rewrite E, Free. reflexivity.
Qed.

Lemma register_multiple_fresh (endpoints : list Endpoint) :
  forall commands,
    NoDup (map _name endpoints) ->
    (forall e, In e endpoints -> registered (_name e) commands = false) ->
    exists commands',
      register_multiple_endpoints endpoints commands = (inr tt, commands')
      /\ (forall e, In e endpoints -> Cache.find (_name e) commands' = Some e)
      /\ (forall name, ~ In name (map _name endpoints) ->
                       Cache.find name commands' = Cache.find name commands).
Proof.
  induction endpoints as [|ep rest IH]; intros commands ND Free.
  - exists commands. simpl. split; [reflexivity|]. split; [intros e []|reflexivity].
  - inversion ND as [|? ? NI ND']; subst.
    cbn [register_multiple_endpoints]. unfold register_endpoint.
    rewrite (Free ep (or_introl eq_refl)).
    destruct (IH (Cache.set (_name ep) ep commands) ND') as (c' & Run & Found & Others).
    { intros e I. apply registered_find.
      rewrite cache_find_set_other.
      - apply registered_find. apply Free. right. exact I.
      - intros Eq. apply NI. rewrite <- Eq. apply in_map. exact I. }
    exists c'. split; [exact Run|]. split.
    + intros e [<-|I]; [|apply Found; exact I].
      rewrite (Others _ NI). apply cache_find_set_same.
    + intros name NIn. simpl in NIn.
      rewrite Others by tauto.
      apply cache_find_set_other. intros Eq. apply NIn. left. congruence.
Qed.

Lemma register_multiple_app (pre post : list Endpoint) (commands : commands_t) :
  register_multiple_endpoints (pre ++ post) commands
  = match register_multiple_endpoints pre commands with
    | (inr _, commands') => register_multiple_endpoints post commands'
    | (inl e, commands') => (inl e, commands')
    end.
Proof.
  revert commands. induction pre as [|ep pre IH]; intros commands.
  - reflexivity.
  - cbn [app register_multiple_endpoints].
    destruct (register_endpoint ep commands) as [[e|u] c1]; [reflexivity|].
    apply IH.
Qed.

(** X24.  [register_multiple_endpoints] registers one endpoint after the
    other and stops at the first whose name is taken - by the registry or
    by an endpoint earlier in the list: it raises [AlreadyRegistered] for
    that name, the endpoints before it stay registered, and none after it
    is.  So a second [OrgMgmtREST] in one process, whose registry is the
    first one's, fails on [v1]. *)
Theorem register_multiple_stops_at_first_taken_name
        (pre post : list Endpoint) (endpoint : Endpoint) (commands : commands_t) :
  NoDup (map _name pre) ->
  (forall e, In e pre -> registered (_name e) commands = false) ->
  registered (_name endpoint) commands = true
  \/ In (_name endpoint) (map _name pre) ->
  exists commands',
    register_multiple_endpoints (pre ++ endpoint :: post) commands
    = (inl (AlreadyRegistered (_name endpoint)), commands')
    /\ (forall e, In e pre -> Cache.find (_name e) commands' = Some e)
    /\ (forall name, ~ In name (map _name pre) ->
                     Cache.find name commands' = Cache.find name commands)
    /\ forall py_sorted cache_refresh py_sorted' cache_refresh' first,
        OrgMgmtREST_init py_sorted cache_refresh commands = (inr tt, first) ->
        OrgMgmtREST_init py_sorted' cache_refresh' first
        = (inl (AlreadyRegistered "v1"), first).
Proof.
  intros ND Free Taken.
  destruct (register_multiple_fresh pre commands ND Free)
    as (c' & Run & Found & Others).
  exists c'. rewrite register_multiple_app, Run.
  cbn [register_multiple_endpoints]. unfold register_endpoint.
  assert (T : registered (_name endpoint) c' = true).
  { unfold registered. destruct Taken as [T|I].
    - destruct (in_dec string_dec (_name endpoint) (map _name pre)) as [I|NI].
      + apply in_map_iff in I as (e & Eq & I).
        rewrite <- Eq, (Found e I). reflexivity.
      + rewrite (Others _ NI). exact T.
    - apply in_map_iff in I as (e & Eq & I).
      rewrite <- Eq, (Found e I). reflexivity. }
  rewrite T. split; [reflexivity|]. split; [exact Found|]. split; [exact Others|].
  intros ps cr ps' cr' first Init.
  unfold OrgMgmtREST_init in *. cbn [register_multiple_endpoints] in *.
  unfold register_endpoint in *. cbn [_name v1_endpoint] in *.
  destruct (registered "v1" commands) eqn:Reg; [discriminate Init|].
  injection Init as <-. unfold registered. rewrite cache_find_set_same.
  reflexivity.
Qed.

(** ** Paths *)

Lemma str_rstrip_keep (c : ascii) (p : string) :
  occurs c p = false -> str_rstrip c p = p.
Proof.
  induction p as [|a r IH]; [reflexivity|]. cbn [occurs str_rstrip].
  intros O. apply Bool.orb_false_iff in O as (O1 & O2).
  rewrite (IH O2). destruct r; [rewrite O1|]; reflexivity.
Qed.

Lemma str_rstrip_dropped (c : ascii) (s t : string) :
  str_rstrip c t = EmptyString ->
  str_rstrip c (s +s+ t) = str_rstrip c s.
Proof.
  intros T. induction s as [|a r IH]; [exact T|].
  change (String a r +s+ t) with (String a (r +s+ t)).
  cbn [str_rstrip]. rewrite IH. reflexivity.
Qed.

Lemma str_rstrip_repeat (c : ascii) (n : nat) :
  str_rstrip c (str_repeat c n) = EmptyString.
Proof.
  induction n as [|n IH]; [reflexivity|].
  cbn [str_repeat str_rstrip]. rewrite IH, Ascii.eqb_refl. reflexivity.
Qed.

Lemma str_rstrip_app_kept (c : ascii) (s t : string) :
  str_rstrip c t = t -> t <> EmptyString ->
  str_rstrip c (s +s+ t) = s +s+ t.
Proof.
  intros T NE. induction s as [|a r IH]; [exact T|].
  change (String a r +s+ t) with (String a (r +s+ t)).
  cbn [str_rstrip]. rewrite IH.
  destruct (r +s+ t) eqn:E; [|reflexivity].
  destruct r; [simpl in E; congruence | discriminate E].
Qed.

Lemma str_split_app (sep : ascii) (p rest : string) :
  occurs sep p = false ->
  str_split sep (p +s+ String sep rest) = p :: str_split sep rest.
Proof.
  induction p as [|a r IH]; intros O.
  - change (EmptyString +s+ String sep rest) with (String sep rest).
    cbn [str_split]. rewrite Ascii.eqb_refl. reflexivity.
  - cbn [occurs] in O. apply Bool.orb_false_iff in O as (O1 & O2).
    change (String a r +s+ String sep rest)
      with (String a (r +s+ String sep rest)).
    cbn [str_split]. rewrite O1, (IH O2). reflexivity.
Qed.

Lemma str_join_step (sep : ascii) (p q : string) (rest : list string) :
  str_join (String sep EmptyString) (p :: q :: rest)
  = p +s+ String sep (str_join (String sep EmptyString) (q :: rest)).
Proof. reflexivity. Qed.

Lemma str_split_join (sep : ascii) (pieces : list string) :
  forall p,
    Forall (fun piece => occurs sep piece = false) (p :: pieces) ->
    str_split sep (str_join (String sep EmptyString) (p :: pieces)) = p :: pieces.
Proof.
  induction pieces as [|q rest IH]; intros p A.
  - inversion A; subst. apply str_split_absent. assumption.
  - inversion A as [|? ? Op A']; subst.
    rewrite str_join_step, (str_split_app _ _ _ Op), (IH q A'). reflexivity.
Qed.

Lemma str_rstrip_join (sep : ascii) (pieces : list string) :
  forall p,
    Forall (fun piece => occurs sep piece = false) (p :: pieces) ->
    List.last (p :: pieces) EmptyString <> EmptyString ->
    str_rstrip sep (str_join (String sep EmptyString) (p :: pieces))
    = str_join (String sep EmptyString) (p :: pieces)
    /\ str_join (String sep EmptyString) (p :: pieces) <> EmptyString.
Proof.
  induction pieces as [|q rest IH]; intros p A L.
  - inversion A; subst. simpl in L |- *. split; [|exact L].
    apply str_rstrip_keep. assumption.
  - inversion A as [|? ? Op A']; subst.
    destruct (IH q A') as (Keep & NE); [exact L|].
    rewrite str_join_step. split.
    + apply str_rstrip_app_kept; [|discriminate].
      cbn [str_rstrip]. rewrite Keep.
      destruct (str_join (String sep EmptyString) (q :: rest));
        [congruence | reflexivity].
    + destruct p; discriminate.
Qed.

(** X25.  The dispatcher reads a path as its components: for components
    without a slash, the last of them not empty, joined by slashes and
    followed by any number of slashes, the first component picks the
    endpoint and its handler is called with the others, in order.  The
    handler of [OrgMgmtREST] is [_version_1], so [v1/<components>] is
    answered by [_version_1] on the components.  A first component that
    is not registered is answered with the JSON text [No such endpoint],
    not with an error status, and the reader is not touched. *)
Theorem service_request_dispatches_on_the_first_component
        (commands : commands_t) (cmd : string) (components : list string)
        (trailing : nat) :
  Forall (fun c => occurs slash c = false) (cmd :: components) ->
  List.last (cmd :: components) EmptyString <> EmptyString ->
  let rest_request :=
    str_join "/" (cmd :: components) +s+ str_repeat slash trailing in
  (forall endpoint,
      Cache.find cmd commands = Some endpoint ->
      _service_request commands rest_request
      = _handler endpoint rest_request components)
  /\ (forall py_sorted cache_refresh,
         Cache.find cmd commands = Some (v1_endpoint py_sorted cache_refresh) ->
         _service_request commands rest_request
         = _version_1 py_sorted cache_refresh components)
  /\ (Cache.find cmd commands = None ->
      forall s,
        _service_request commands rest_request s
        = (Json (PStr ("No such endpoint: <" +s+ rest_request +s+ ">")), s)).
Proof.
  intros A L rest_request.
  assert (E : str_split slash (str_rstrip slash rest_request) = cmd :: components).
  { unfold rest_request.
    rewrite str_rstrip_dropped by apply str_rstrip_repeat.
    destruct (str_rstrip_join slash components cmd A L) as (Keep & _).
    change "/"%string with (String slash EmptyString).
    rewrite Keep. apply str_split_join. exact A. }
  unfold _service_request. rewrite E. split; [|split].
  - intros endpoint F. rewrite F. reflexivity.
  - intros ps cr F. rewrite F. reflexivity.
  - intros F s. rewrite F. reflexivity.
Qed.

(* ================================================================= *)
(** * The further properties at work on the concrete worlds *)

(** X1 at [w_two_pages]: the first page [_request] returns is what [json]
    reads from the 200 answer to the one GET of the call. *)
Lemma request_value_comes_from_a_200_witness :
  exists n tok text,
    (gets (Examples.reader0 []) <= n
     < gets (snd (_request Examples.w_two_pages "rest/cmd?start=0" true false
                           (Examples.reader0 []))))%nat
    /\ requests_get Examples.w_two_pages n "rest/cmd?start=0" tok
       = GetResponse 200 text
    /\ json_loads Examples.w_two_pages text
       = Some (Examples.page_val false 10 [PInt 1; PInt 2; PInt 3]).
Proof.
  assert (R : fst (_request Examples.w_two_pages "rest/cmd?start=0" true false
                            (Examples.reader0 []))
              = Ok (Examples.page_val false 10 [PInt 1; PInt 2; PInt 3]))
    by (vm_compute; reflexivity).
  exact (request_value_comes_from_a_200 Examples.w_two_pages "rest/cmd?start=0"
           true false (Examples.reader0 []) _ R).
Defined.

(** X5 at [w_second_page_fails]: one page of three items, then a 500. *)
Lemma rest_get_keeps_pages_before_failure_witness :
  fst (_bb_rest_get Examples.w_second_page_fails 5 "cmd" (Examples.reader0 []))
  = Ok (List.concat (map snd [(10, [PInt 1; PInt 2; PInt 3])]))
  /\ gets (snd (_bb_rest_get Examples.w_second_page_fails 5 "cmd"
                             (Examples.reader0 [])))
     = (gets (Examples.reader0 [])
        + List.length [(10, [PInt 1; PInt 2; PInt 3])] + 1)%nat.
Proof.
  apply (rest_get_keeps_pages_before_failure Examples.w_second_page_fails 5 "cmd"
           (Examples.reader0 []) [(10, [PInt 1; PInt 2; PInt 3])]).
  - exists "page-0"%string, (Examples.page_val false 10 [PInt 1; PInt 2; PInt 3]).
    split; [reflexivity|]. split; [reflexivity|]. split; [|exact I].
    eexists. repeat split.
  - vm_compute. lia.
  - simpl. lia.
Defined.

(** X6 at [w_endless], run for a thousand rounds. *)
Lemma rest_get_never_ends_without_last_page_witness :
  fst (_bb_rest_get Examples.w_endless 1000 "cmd" (Examples.reader0 [])) = Diverge.
Proof.
  apply (rest_get_never_ends_without_last_page Examples.w_endless "cmd"
           (Examples.reader0 [])).
  intros n url tok.
  exists "page"%string, (Examples.page_val false 25 [PStr "item"]), 25, [PStr "item"].
  split; [reflexivity|]. split; [reflexivity|]. eexists. repeat split.
Defined.

(** X7 at [w_orgs]: three marked repositories, three slugs. *)
Lemma get_repo_names_filters_by_name_witness :
  _get_repo_names Examples.w_orgs 5 "ctx" (Examples.reader0 ["ctx"%string])
  = (Ok (map snd (filter (fun p => PyString.endswith (fst p) term)
                         [("x-org", "x-org"); ("z-org", "z-org");
                          ("y-org", "y-org")]%string)),
     snd (_bb_rest_get Examples.w_orgs 5 ("ctx" +s+ "/repos")
                       (Examples.reader0 ["ctx"%string]))).
Proof.
  assert (R : _bb_rest_get Examples.w_orgs 5 ("ctx" +s+ "/repos")
                           (Examples.reader0 ["ctx"%string])
              = (Ok [Examples.repo_val "x-org" "x-org";
                     Examples.repo_val "z-org" "z-org";
                     Examples.repo_val "y-org" "y-org"],
                 snd (_bb_rest_get Examples.w_orgs 5 ("ctx" +s+ "/repos")
                                   (Examples.reader0 ["ctx"%string]))))
    by (vm_compute; reflexivity).
  apply (get_repo_names_filters_by_name Examples.w_orgs 5 "ctx" _ _ _ _ R).
  repeat constructor.
Defined.

(** X8 at [w_nameless_repo]: the second item of the listing has no name. *)
Lemma nameless_repo_aborts_refresh_witness :
  _get_repo_names Examples.w_nameless_repo 5 "ctx"
                  (tick (Examples.reader0 ["ctx"%string]))
  = (Raise KeyError,
     snd (_bb_rest_get Examples.w_nameless_repo 5 ("ctx" +s+ "/repos")
                       (tick (Examples.reader0 ["ctx"%string]))))
  /\ fst (refresh Examples.w_nameless_repo 5 (Examples.reader0 ["ctx"%string]))
     = Raise KeyError
  /\ _cache (snd (refresh Examples.w_nameless_repo 5
                          (Examples.reader0 ["ctx"%string])))
     = _cache (Examples.reader0 ["ctx"%string])
  /\ _cache_timestamp (snd (refresh Examples.w_nameless_repo 5
                                    (Examples.reader0 ["ctx"%string])))
     = _cache_timestamp (Examples.reader0 ["ctx"%string]).
Proof.
  assert (R : _bb_rest_get Examples.w_nameless_repo 5 ("ctx" +s+ "/repos")
                           (tick (Examples.reader0 ["ctx"%string]))
              = (Ok ([Examples.repo_val "a-org" "a-org"]
                       ++ PDict false [(PStr "slug", PStr "b-org")] :: []),
                 snd (_bb_rest_get Examples.w_nameless_repo 5 ("ctx" +s+ "/repos")
                                   (tick (Examples.reader0 ["ctx"%string])))))
    by (vm_compute; reflexivity).
  apply (nameless_repo_aborts_refresh Examples.w_nameless_repo 5 "ctx" []
           (Examples.reader0 ["ctx"%string]) _
           [Examples.repo_val "a-org" "a-org"] []
           [(PStr "slug", PStr "b-org")] eq_refl R).
  - constructor; [|constructor].
    exists ("a-org", "a-org")%string. split; reflexivity.
  - reflexivity.
Defined.

(** X9 at [w_down]: every listing fails, both contexts are there, empty. *)
Lemma make_cache_has_the_contexts_witness :
  NoDup (Cache.keys [("a"%string, @nil (string * entry)); ("b"%string, [])])
  /\ (forall ctxt,
         In ctxt (Cache.keys [("a"%string, @nil (string * entry)); ("b"%string, [])])
         <-> In ctxt (_contexts (Examples.reader0 ["a"; "b"]%string)))
  /\ cache_all (fun e => e = [])
               [("a"%string, @nil (string * entry)); ("b"%string, [])]
  /\ (forall ctxt,
         In ctxt (_contexts (Examples.reader0 ["a"; "b"]%string)) ->
         (forall s1, fst (_bb_rest_get Examples.w_down 5 (ctxt +s+ "/repos") s1)
                     = Ok []) ->
         Cache.find ctxt [("a"%string, @nil (string * entry)); ("b"%string, [])]
         = Some []).
Proof.
  assert (R : _make_cache Examples.w_down 5 (Examples.reader0 ["a"; "b"]%string)
              = (Ok [("a"%string, @nil (string * entry)); ("b"%string, [])],
                 snd (_make_cache Examples.w_down 5
                                  (Examples.reader0 ["a"; "b"]%string))))
    by (vm_compute; reflexivity).
  exact (make_cache_has_the_contexts Examples.w_down 5 _ _ _ R).
Defined.

(** X10 at [w_orgs]: [x] and [z], whose files did not load, are still keys
    of the published cache, and [y] is the third. *)
Lemma refresh_keeps_the_skeleton_keys_witness :
  exists c0 s0,
    _make_cache Examples.w_orgs 5 (tick (Examples.reader0 ["ctx"%string]))
    = (Ok c0, s0)
    /\ shape (_cache (snd (refresh Examples.w_orgs 5
                                   (Examples.reader0 ["ctx"%string]))))
       = shape c0.
Proof.
  assert (R : refresh Examples.w_orgs 5 (Examples.reader0 ["ctx"%string])
              = (Ok tt, snd (refresh Examples.w_orgs 5
                                     (Examples.reader0 ["ctx"%string]))))
    by (vm_compute; reflexivity).
  exact (refresh_keeps_the_skeleton_keys Examples.w_orgs 5 _ _ R).
Defined.

(** X11 at [w_orgs]: the org that declares itself as [Y] is under [y]. *)
Lemma published_org_keys_are_lowercase_witness :
  In "y"%string
     (Cache.keys (match Cache.find "ctx"
                          (_cache (snd (refresh Examples.w_orgs 5
                                                (Examples.reader0 ["ctx"%string]))))
                  with Some repos => repos | None => [] end))
  /\ PyString.lower "y" = "y"%string.
Proof.
  split; [vm_compute; right; right; left; reflexivity|].
  assert (R : refresh Examples.w_orgs 5 (Examples.reader0 ["ctx"%string])
              = (Ok tt, snd (refresh Examples.w_orgs 5
                                     (Examples.reader0 ["ctx"%string]))))
    by (vm_compute; reflexivity).
  apply (published_org_keys_are_lowercase Examples.w_orgs 5 _ _ "ctx"
           (match Cache.find "ctx"
                    (_cache (snd (refresh Examples.w_orgs 5
                                          (Examples.reader0 ["ctx"%string]))))
            with Some repos => repos | None => [] end) "y" R).
  - vm_compute. left. reflexivity.
  - vm_compute. right. right. left. reflexivity.
Defined.

(** X16 on a reader that has completed no refresh, and on the one that
    has refreshed from [w_orgs]. *)
Lemma unknown_context_before_and_after_refresh_witness :
  ((_cache_timestamp (Examples.reader0 ["ctx"%string]) = None ->
    _version_1 (fun l => Some l) true ["contexts"; "nope"]%string
               (Examples.reader0 ["ctx"%string])
    = (Json (dict_of [("context", PStr "nope"); ("orgs", str_list [])]%string),
       set_cache (Cache.set "nope" [] (_cache (Examples.reader0 ["ctx"%string])))
                 (Examples.reader0 ["ctx"%string]))
    /\ In "nope"%string
          (Cache.keys (_cache (snd (_version_1 (fun l => Some l) true
                                               ["contexts"; "nope"]%string
                                               (Examples.reader0 ["ctx"%string]))))))
   /\ (_cache_timestamp (Examples.reader0 ["ctx"%string]) <> None ->
       _version_1 (fun l => Some l) true ["contexts"; "nope"]%string
                  (Examples.reader0 ["ctx"%string])
       = (Abort400 RequestError, Examples.reader0 ["ctx"%string])))
  /\ _version_1 (fun l => Some l) true ["contexts"; "nope"]%string
                (snd (refresh Examples.w_orgs 5 (Examples.reader0 ["ctx"%string])))
     = (Abort400 RequestError,
        snd (refresh Examples.w_orgs 5 (Examples.reader0 ["ctx"%string]))).
Proof.
  split.
  - exact (unknown_context_before_and_after_refresh (fun l => Some l) true "nope"
             (Examples.reader0 ["ctx"%string]) eq_refl).
  - assert (F : Cache.find "nope"
                  (_cache (snd (refresh Examples.w_orgs 5
                                        (Examples.reader0 ["ctx"%string]))))
                = None) by (vm_compute; reflexivity).
    apply (unknown_context_before_and_after_refresh (fun l => Some l) true "nope"
             _ F).
    vm_compute. discriminate.
Defined.

(** X17 at [w_orgs], for the org that declares itself as [Y], asked for as
    [Y], and its space [s2], whose [spaceConfig.yml] is missing; and at
    [w_mixed_keys], for the space [s1], whose [spaceConfig.yml] has keys
    that do not sort. *)
Lemma get_space_serves_the_pair_witness :
  _version_1 (fun l => Some l) true
             ["contexts"; "ctx"; "orgs"; "Y"; "spaces"; "s2"]%string
             Examples.after_w_orgs
  = (Json (dict_of [("context", PStr "ctx");
                    ("org", PStr (PyString.lower "Y"));
                    ("space", PStr "s2");
                    ("space_config", PNone);
                    ("security_group", PNone)]%string),
     Examples.after_w_orgs)
  /\ _version_1 (fun l => Some l) true
                ["contexts"; "ctx"; "orgs"; "y"; "spaces"; "s1"]%string
                Examples.after_w_mixed_keys
     = (Uncaught (Builtin TypeError), Examples.after_w_mixed_keys).
Proof.
  split.
  - assert (R : refresh Examples.w_orgs 5 (Examples.reader0 ["ctx"%string])
                = (Ok tt, Examples.after_w_orgs))
      by (vm_compute; reflexivity).
    assert (G : Cache.get_entry (_cache Examples.after_w_orgs)
                                "ctx" (PyString.lower "Y")
                = Ok (match Cache.get_entry (_cache Examples.after_w_orgs)
                                            "ctx" "y"
                      with Ok e => e | _ => [] end))
      by (vm_compute; reflexivity).
    assert (I : In (PStr "s2")
                   (org_spaces
                      (match Cache.get_entry (_cache Examples.after_w_orgs)
                                             "ctx" "y"
                       with Ok e => e | _ => [] end)))
      by (vm_compute; right; left; reflexivity).
    destruct (get_space_serves_the_pair Examples.w_orgs (fun l => Some l) true 5
                _ _ "ctx" "Y" "s2" _ R G I)
      as (sub & space_config & security & Fsub & Fspc & Fsec & _ & Sorts & _).
    vm_compute in Fsub. injection Fsub as <-.
    vm_compute in Fspc, Fsec. injection Fspc as <-. injection Fsec as <-.
    apply Sorts; reflexivity.
  - assert (R : refresh Examples.w_mixed_keys 5 (Examples.reader0 ["ctx"%string])
                = (Ok tt, Examples.after_w_mixed_keys))
      by (vm_compute; reflexivity).
    assert (G : Cache.get_entry (_cache Examples.after_w_mixed_keys)
                                "ctx" (PyString.lower "y")
                = Ok (match Cache.get_entry (_cache Examples.after_w_mixed_keys)
                                            "ctx" "y"
                      with Ok e => e | _ => [] end))
      by (vm_compute; reflexivity).
    assert (I : In (PStr "s1")
                   (org_spaces
                      (match Cache.get_entry (_cache Examples.after_w_mixed_keys)
                                             "ctx" "y"
                       with Ok e => e | _ => [] end)))
      by (vm_compute; left; reflexivity).
    destruct (get_space_serves_the_pair Examples.w_mixed_keys (fun l => Some l)
                true 5 _ _ "ctx" "y" "s1" _ R G I)
      as (sub & space_config & security & Fsub & Fspc & Fsec & _ & _ & Fails).
    vm_compute in Fsub. injection Fsub as <-.
    vm_compute in Fspc, Fsec. injection Fspc as <-. injection Fsec as <-.
    apply Fails. left. reflexivity.
Defined.

(** X18 at [w_orgs]: there is no org [q]. *)
Lemma unknown_org_in_the_four_handlers_witness :
  _version_1 (fun l => Some l) true ["contexts"; "ctx"; "orgs"; "Q"]%string
             (snd (refresh Examples.w_orgs 5 (Examples.reader0 ["ctx"%string])))
  = (Abort400 RequestError,
     snd (refresh Examples.w_orgs 5 (Examples.reader0 ["ctx"%string])))
  /\ _version_1 (fun l => Some l) true
                ["contexts"; "ctx"; "orgs"; "Q"; "director"]%string
                (snd (refresh Examples.w_orgs 5 (Examples.reader0 ["ctx"%string])))
     = (Abort400 RequestError,
        snd (refresh Examples.w_orgs 5 (Examples.reader0 ["ctx"%string])))
  /\ _version_1 (fun l => Some l) true
                ["contexts"; "ctx"; "orgs"; "Q"; "spaces"; "s1"]%string
                (snd (refresh Examples.w_orgs 5 (Examples.reader0 ["ctx"%string])))
     = (Abort400 RequestError,
        snd (refresh Examples.w_orgs 5 (Examples.reader0 ["ctx"%string])))
  /\ _version_1 (fun l => Some l) true
                ["contexts"; "ctx"; "orgs"; "Q"; "spaces"]%string
                (snd (refresh Examples.w_orgs 5 (Examples.reader0 ["ctx"%string])))
     = (Uncaught (Builtin UnboundLocalError),
        snd (refresh Examples.w_orgs 5 (Examples.reader0 ["ctx"%string]))).
Proof.
  apply (unknown_org_in_the_four_handlers (fun l => Some l) true "ctx" "Q" "s1").
  - vm_compute. discriminate.
  - vm_compute. reflexivity.
Defined.

(** X20 at [w_orgs]: the skeleton has [x], [z], [y]; the answer lists
    them in ascending order. *)
Lemma list_orgs_lists_the_org_keys_witness :
  exists names,
    _version_1 (fun l => Some l) true ["contexts"; "ctx"]%string
               (snd (refresh Examples.w_orgs 5 (Examples.reader0 ["ctx"%string])))
    = (Json (dict_of [("context", PStr "ctx"); ("orgs", str_list names)]%string),
       snd (refresh Examples.w_orgs 5 (Examples.reader0 ["ctx"%string])))
    /\ _version_1 (fun l => Some l) true ["contexts"; "ctx"; "orgs"]%string
                  (snd (refresh Examples.w_orgs 5 (Examples.reader0 ["ctx"%string])))
       = _version_1 (fun l => Some l) true ["contexts"; "ctx"]%string
                    (snd (refresh Examples.w_orgs 5
                                  (Examples.reader0 ["ctx"%string])))
    /\ Permutation
         (Cache.keys
            (match Cache.find "ctx"
                     (_cache (snd (refresh Examples.w_orgs 5
                                           (Examples.reader0 ["ctx"%string]))))
             with Some repos => repos | None => [] end))
         names
    /\ Sorted (fun a b => String.leb a b = true) names.
Proof.
  assert (F : Cache.find "ctx"
                (_cache (snd (refresh Examples.w_orgs 5
                                      (Examples.reader0 ["ctx"%string]))))
              = Some (match Cache.find "ctx"
                              (_cache (snd (refresh Examples.w_orgs 5
                                                    (Examples.reader0 ["ctx"%string]))))
                      with Some repos => repos | None => [] end))
    by (vm_compute; reflexivity).
  exact (list_orgs_lists_the_org_keys (fun l => Some l) true "ctx" _ _ F).
Defined.

(** X21 at [w_files]: a listing with the number 7 among its names. *)
Lemma file_list_needs_string_names_witness :
  (Forall (fun v => exists name, v = PStr name) [PStr "orgConfig.yml"; PInt 7] ->
   _file_list Examples.w_files 5 "ctx" "a-org" (Examples.reader0 [])
   = (Ok [PStr "orgConfig.yml"; PInt 7],
      snd (_bb_rest_get Examples.w_files 5
                        ("ctx" +s+ "/repos/" +s+ "a-org" +s+ "/files")
                        (Examples.reader0 []))))
  /\ (Exists (fun v => forall name, v <> PStr name) [PStr "orgConfig.yml"; PInt 7] ->
      _file_list Examples.w_files 5 "ctx" "a-org" (Examples.reader0 [])
      = (Raise TypeError,
         snd (_bb_rest_get Examples.w_files 5
                           ("ctx" +s+ "/repos/" +s+ "a-org" +s+ "/files")
                           (Examples.reader0 [])))).
Proof.
  assert (L : _bb_rest_get Examples.w_files 5
                           ("ctx" +s+ "/repos/" +s+ "a-org" +s+ "/files")
                           (Examples.reader0 [])
              = (Ok [PStr "orgConfig.yml"; PInt 7],
                 snd (_bb_rest_get Examples.w_files 5
                                   ("ctx" +s+ "/repos/" +s+ "a-org" +s+ "/files")
                                   (Examples.reader0 []))))
    by (vm_compute; reflexivity).
  exact (file_list_needs_string_names Examples.w_files 5 "ctx" "a-org" _ _ _ L).
Defined.

(** X22 on the empty registry, with the endpoint of [OrgMgmtREST]. *)
Lemma register_then_unregister_witness :
  exists commands',
    register_endpoint (v1_endpoint (fun l => Some l) true) []
    = (inr tt, commands')
    /\ Cache.find (_name (v1_endpoint (fun l => Some l) true)) commands'
       = Some (v1_endpoint (fun l => Some l) true)
    /\ (forall name, name <> _name (v1_endpoint (fun l => Some l) true) ->
                     Cache.find name commands' = Cache.find name [])
    /\ register_endpoint (mkEndpoint "v1" _unknown_request) commands'
       = (inl (AlreadyRegistered (_name (v1_endpoint (fun l => Some l) true))),
          commands')
    /\ unregister_endpoint_by_name (_name (v1_endpoint (fun l => Some l) true))
                                   commands'
       = (inr tt, []).
Proof.
  apply (register_then_unregister (v1_endpoint (fun l => Some l) true)
           (mkEndpoint "v1" _unknown_request) []); reflexivity.
Defined.

(** X24 on the empty registry: [v1], [v2], then [v1] again, then [v3]. *)
Lemma register_multiple_stops_at_first_taken_name_witness :
  exists commands',
    register_multiple_endpoints
      ([v1_endpoint (fun l => Some l) true; mkEndpoint "v2" _unknown_request]
         ++ mkEndpoint "v1" _unknown_request
         :: [mkEndpoint "v3" _unknown_request]) []
    = (inl (AlreadyRegistered (_name (mkEndpoint "v1" _unknown_request))),
       commands')
    /\ (forall e,
           In e [v1_endpoint (fun l => Some l) true;
                 mkEndpoint "v2" _unknown_request] ->
           Cache.find (_name e) commands' = Some e)
    /\ (forall name,
           ~ In name (map _name [v1_endpoint (fun l => Some l) true;
                                 mkEndpoint "v2" _unknown_request]) ->
           Cache.find name commands' = Cache.find name [])
    /\ forall py_sorted cache_refresh py_sorted' cache_refresh' first,
        OrgMgmtREST_init py_sorted cache_refresh [] = (inr tt, first) ->
        OrgMgmtREST_init py_sorted' cache_refresh' first
        = (inl (AlreadyRegistered "v1"), first).
Proof.
  apply (register_multiple_stops_at_first_taken_name
           [v1_endpoint (fun l => Some l) true; mkEndpoint "v2" _unknown_request]
           [mkEndpoint "v3" _unknown_request]
           (mkEndpoint "v1" _unknown_request) []).
  - simpl. repeat constructor; simpl; intuition discriminate.
  - intros e I. reflexivity.
  - right. simpl. left. reflexivity.
Defined.

(** X25 on the registry of [OrgMgmtREST]: [v1/contexts/ctx//] is answered
    by [_version_1] on [contexts], [ctx]. *)
Lemma service_request_dispatches_on_the_first_component_witness :
  _service_request
    (snd (OrgMgmtREST_init (fun l => Some l) true []))
    (str_join "/" ["v1"; "contexts"; "ctx"]%string +s+ str_repeat slash 2)
  = _version_1 (fun l => Some l) true ["contexts"; "ctx"]%string.
Proof.
  apply (service_request_dispatches_on_the_first_component
           (snd (OrgMgmtREST_init (fun l => Some l) true []))
           "v1" ["contexts"; "ctx"]%string 2).
  - repeat constructor.
  - simpl. discriminate.
  - reflexivity.
Defined.

(** X26 at [w_orgs]: the [orgConfig.yml] of [y] has no [metadata]. *)
Lemma orgs_metadata_answers_witness :
  _version_1 (fun l => Some l) true
             ["contexts"; "ctx"; "orgs_metadata"; "Y"]%string
             Examples.after_w_orgs
  = (Json (PDict false [(PStr (PyString.lower "Y"), PNone)]),
     Examples.after_w_orgs).
Proof.
  assert (T : _cache_timestamp Examples.after_w_orgs <> None)
    by (vm_compute; discriminate).
  assert (N : PyString.lower "Y" <> EmptyString) by (vm_compute; discriminate).
  assert (G : Cache.get_entry (_cache Examples.after_w_orgs)
                              "ctx" (PyString.lower "Y")
              = Ok (match Cache.get_entry (_cache Examples.after_w_orgs)
                                          "ctx" "y"
                    with Ok e => e | _ => [] end))
    by (vm_compute; reflexivity).
  destruct (orgs_metadata_answers (fun l => Some l) true "ctx" "Y" _ T N)
    as (_ & _ & Named).
  apply (Named _ false [(PStr "org", PStr "Y")] G).
  vm_compute. reflexivity.
Defined.

(** X28 at [w_orgs]: the org under [y], asked for as [Y], has both [space]
    and [org]; the org under [x], whose [orgConfig.yml] did not load, has
    neither, and holds two empty mappings afterwards. *)
Lemma published_orgs_are_reachable_witness :
  _version_1 (fun l => Some l) true ["contexts"; "ctx"; "orgs"; "Y"]%string
             Examples.after_w_orgs
  = (Json (dict_of [("context", PStr "ctx"); ("org", PStr "y");
                    ("space",
                     PDict false [(PStr "spaces", PList [PStr "s1"; PStr "s2"])]);
                    ("org_config", PDict false [(PStr "org", PStr "Y")])]%string),
     Examples.after_w_orgs)
  /\ _version_1 (fun l => Some l) true ["contexts"; "ctx"; "orgs"; "x"]%string
                Examples.after_w_orgs
     = (Json (dict_of [("context", PStr "ctx"); ("org", PStr "x");
                       ("space", PDict false []);
                       ("org_config", PDict false [])]%string),
        set_cache
          (Cache.put_entry (_cache Examples.after_w_orgs) "ctx" "x"
                           [(PStr "space", PDict false []);
                            (PStr "org", PDict false [])])
          Examples.after_w_orgs).
Proof.
  assert (R : refresh Examples.w_orgs 5 (Examples.reader0 ["ctx"%string])
              = (Ok tt, Examples.after_w_orgs))
    by (vm_compute; reflexivity).
  assert (F : Cache.find "ctx" (_cache Examples.after_w_orgs)
              = Some (match Cache.find "ctx" (_cache Examples.after_w_orgs)
                      with Some repos => repos | None => [] end))
    by (vm_compute; reflexivity).
  split.
  - assert (Fy : Cache.find "y"
                   (match Cache.find "ctx" (_cache Examples.after_w_orgs)
                    with Some repos => repos | None => [] end)
                 = Some (match Cache.get_entry (_cache Examples.after_w_orgs)
                                               "ctx" "y"
                         with Ok e => e | _ => [] end))
      by (vm_compute; reflexivity).
    assert (L : PyString.lower "Y" = PyString.lower "y")
      by (vm_compute; reflexivity).
    pose proof (published_orgs_are_reachable Examples.w_orgs (fun l => Some l)
                  true 5 _ _ "ctx" _ "y" "Y" _ R F Fy L) as A.
    cbv zeta in A. rewrite A. vm_compute. reflexivity.
  - assert (Fx : Cache.find "x"
                   (match Cache.find "ctx" (_cache Examples.after_w_orgs)
                    with Some repos => repos | None => [] end)
                 = Some []) by (vm_compute; reflexivity).
    assert (L : PyString.lower "x" = PyString.lower "x") by reflexivity.
    pose proof (published_orgs_are_reachable Examples.w_orgs (fun l => Some l)
                  true 5 _ _ "ctx" _ "x" "x" _ R F Fx L) as A.
    cbv zeta in A. rewrite A. vm_compute. reflexivity.
Defined.
